(** * Direct messaging core of the Instagram clone backend

    A shallow embedding of
    - [backend/models/User.js]          (module [User], the fields that
                                         [canMessageUser] reads),
    - [backend/models/Conversation.js]  (module [Conversation]),
    - [backend/models/Message.js]       (module [Message]),
    - [backend/middleware/auth.js]      ([canMessageUser], module [Auth];
                                         [rateLimit], module [RateLimit]),
    - [backend/middleware/upload.js]    (module [Upload], the part behind
                                         the send route),
    - [backend/routes/messages.js]      (module [Routes]),
    followed by the properties of the messaging specification that can be
    stated over it.

    Conventions of the embedding.
    - A Mongo [ObjectId] is only ever compared through [toString()], so it is
      an opaque value with decidable equality; it is a [nat] here.
    - A JavaScript [Date] is its [getTime()] value in milliseconds, a [Z].
      Every operation that reads the clock ([new Date()], [Date.now()]) takes
      the current instant as the explicit argument [now].
    - Mongoose documents are records.  A method that mutates [this] and ends
      in [return this.save()] is a function from the document to the mutated
      document; the route that called it writes the result back to the
      collection ([Store.save]).
    - The arrays [unreadCounts], [participantSettings] and [reactions] are
      lists: order and duplicates are observable through [find] and [filter].
    - A route handler is a function from the request and the database to a
      response and the new database.  A handler body that throws is caught by
      the route's [catch], which answers 500; what the handler saved before
      it threw stays saved.
    - Every route is behind [auth], which loaded [req.user] from the users
      collection: the requester is a stored user, and [populate] finds it
      wherever its id is referenced. *)

From Stdlib Require Import ZArith String Ascii.
From stdpp Require Import base decidable option numbers list sorting strings gmap.

Definition ObjectId := nat.
Definition Date := Z.
Bind Scope Z_scope with Date.

(** ** JavaScript helpers *)

Module JS.

(** [Array.prototype.find]: the first element that satisfies [P]. *)
Definition find {A} (P : A → Prop) `{∀ x, Decision (P x)} (l : list A) : option A :=
  snd <$> list_find P l.

(** [Array.prototype.some]. *)
Definition some {A} (P : A → Prop) `{∀ x, Decision (P x)} (l : list A) : bool :=
  bool_decide (Exists P l).

(** [Array.prototype.includes] on an array of ids. *)
Definition includes (x : ObjectId) (l : list ObjectId) : bool :=
  bool_decide (x ∈ l).

(** White space removed by [String.prototype.trim], for code units below
    256: TAB, LF, VT, FF, CR, SPACE and NBSP. *)
Definition is_ws (a : ascii) : bool :=
  match nat_of_ascii a with
  | 9 | 10 | 11 | 12 | 13 | 32 | 160 => true
  | _ => false
  end.

Fixpoint trimStart (s : string) : string :=
  match s with
  | EmptyString => EmptyString
  | String a s' => if is_ws a then trimStart s' else s
  end.

Definition trimEnd (s : string) : string :=
  String.rev (trimStart (String.rev s)).

(** [String.prototype.trim]. *)
Definition trim (s : string) : string := trimEnd (trimStart s).

(** [String.prototype.startsWith]. *)
Definition startsWith (p s : string) : bool := String.prefix p s.

(** [x || ''] for an optional string. *)
Definition or_empty (x : option string) : string := default "" x.

(** [!x] for an optional string: [undefined] and [''] are falsy. *)
Definition falsy (x : option string) : bool :=
  match x with
  | None => true
  | Some s => bool_decide (s = "")
  end.

End JS.

(** ** Collections of documents *)

Module Store.
Section Collection.
Context {A : Type} (key : A → ObjectId).

(** [Model.findById]. *)
Definition findById (i : ObjectId) (l : list A) : option A :=
  JS.find (λ d, key d = i) l.

(** [doc.save()]: a document whose [_id] is already in the collection
    replaces the stored one in place, a new document is appended. *)
Fixpoint save (d : A) (l : list A) : list A :=
  match l with
  | [] => [d]
  | x :: l' => if decide (key x = key d) then d :: l' else x :: save d l'
  end.
End Collection.
End Store.

(** ** [models/User.js], the fields read by [canMessageUser] *)

Module User.

Inductive MessagePolicy := everyone | followers.

Record t := mk {
  _id : ObjectId;
  followers_of : list ObjectId;        (* followers *)
  blockedUsers : list ObjectId;
  allowMessagesFrom : MessagePolicy    (* privacySettings.allowMessagesFrom *)
}.

Global Instance MessagePolicy_eq_dec : EqDecision MessagePolicy.
Proof. solve_decision. Defined.

End User.

(** ** [models/Conversation.js] *)

Module Conversation.

Record UnreadData := mkUnread {
  ud_user : ObjectId;
  count : nat;
  lastReadAt : Date
}.

Record NotificationSettings := mkNotif {
  sound : bool;
  vibration : bool;
  showPreview : bool
}.

Record ParticipantSetting := mkSetting {
  ps_user : ObjectId;
  isMuted : bool;
  isPinned : bool;
  isArchived : bool;
  notificationSettings : NotificationSettings
}.

Record GroupInfo := mkGroupInfo {
  name : option string;
  description : option string;
  createdBy : option ObjectId;
  admins : list ObjectId;
  maxParticipants : nat
}.

Record t := mk {
  _id : ObjectId;
  participants : list ObjectId;
  isGroup : bool;
  groupInfo : GroupInfo;
  lastMessage : option ObjectId;
  lastMessageAt : Date;
  unreadCounts : list UnreadData;
  participantSettings : list ParticipantSetting;   (* settings.participantSettings *)
  isActive : bool;
  isDeleted : bool;
  deletedBy : list ObjectId;
  totalMessages : nat;                             (* metadata.totalMessages *)
  archivedBy : list (ObjectId * Date)
}.

(** Field updates ([this.f = v]). *)
Definition set_participants v (c : t) : t :=
  mk (_id c) v (isGroup c) (groupInfo c) (lastMessage c) (lastMessageAt c)
     (unreadCounts c) (participantSettings c) (isActive c) (isDeleted c)
     (deletedBy c) (totalMessages c) (archivedBy c).
Definition set_unreadCounts v (c : t) : t :=
  mk (_id c) (participants c) (isGroup c) (groupInfo c) (lastMessage c) (lastMessageAt c)
     v (participantSettings c) (isActive c) (isDeleted c)
     (deletedBy c) (totalMessages c) (archivedBy c).
Definition set_participantSettings v (c : t) : t :=
  mk (_id c) (participants c) (isGroup c) (groupInfo c) (lastMessage c) (lastMessageAt c)
     (unreadCounts c) v (isActive c) (isDeleted c)
     (deletedBy c) (totalMessages c) (archivedBy c).
Definition set_last v at_ n (c : t) : t :=
  mk (_id c) (participants c) (isGroup c) (groupInfo c) v at_
     (unreadCounts c) (participantSettings c) (isActive c) (isDeleted c)
     (deletedBy c) n (archivedBy c).

Definition set_count v (d : UnreadData) : UnreadData :=
  mkUnread (ud_user d) v (lastReadAt d).
Definition set_read at_ (d : UnreadData) : UnreadData :=
  mkUnread (ud_user d) 0 at_.
Definition set_isMuted v (s : ParticipantSetting) : ParticipantSetting :=
  mkSetting (ps_user s) v (isPinned s) (isArchived s) (notificationSettings s).

(** Schema defaults of the sub-documents and of a new document. *)
Definition default_groupInfo : GroupInfo := mkGroupInfo None None None [] 50.

(** [new Conversation({ participants, isGroup, groupInfo })]: every other
    path takes its schema default; array paths default to [[]]. *)
Definition new (id : ObjectId) (now : Date) (ps : list ObjectId) (grp : bool)
    (gi : GroupInfo) : t :=
  mk id ps grp gi None now [] [] true false [] 0 [].

(** Virtual [getUnreadCount]. *)
Definition getUnreadCount (userId : ObjectId) (this : t) : nat :=
  match JS.find (λ data, ud_user data = userId) (unreadCounts this) with
  | Some unreadData => count unreadData
  | None => 0
  end.

Definition addParticipant (userId : ObjectId) (now : Date) (this : t) : t :=
  if JS.includes userId (participants this) then this
  else
    set_participantSettings
      (participantSettings this ++
         [mkSetting userId false false false (mkNotif true true true)])
      (set_unreadCounts (unreadCounts this ++ [mkUnread userId 0 now])
         (set_participants (participants this ++ [userId]) this)).

Definition removeParticipant (userId : ObjectId) (this : t) : t :=
  set_participantSettings
    (filter (λ setting, ps_user setting ≠ userId) (participantSettings this))
    (set_unreadCounts (filter (λ data, ud_user data ≠ userId) (unreadCounts this))
       (set_participants (filter (λ id, id ≠ userId) (participants this)) this)).

Definition updateLastMessage (messageId : ObjectId) (now : Date) (this : t) : t :=
  set_last (Some messageId) now (totalMessages this + 1) this.

Definition incrementUnreadCount (userId : ObjectId) (this : t) : t :=
  match list_find (λ data, ud_user data = userId) (unreadCounts this) with
  | Some (i, unreadData) =>
      set_unreadCounts
        (<[i := set_count (count unreadData + 1) unreadData]> (unreadCounts this)) this
  | None => this
  end.

Definition markAsRead (userId : ObjectId) (now : Date) (this : t) : t :=
  match list_find (λ data, ud_user data = userId) (unreadCounts this) with
  | Some (i, unreadData) =>
      set_unreadCounts (<[i := set_read now unreadData]> (unreadCounts this)) this
  | None => this
  end.

Definition muteForUser (userId : ObjectId) (this : t) : t :=
  match list_find (λ s, ps_user s = userId) (participantSettings this) with
  | Some (i, setting) =>
      set_participantSettings
        (<[i := set_isMuted true setting]> (participantSettings this)) this
  | None => this
  end.

Definition unmuteForUser (userId : ObjectId) (this : t) : t :=
  match list_find (λ s, ps_user s = userId) (participantSettings this) with
  | Some (i, setting) =>
      set_participantSettings
        (<[i := set_isMuted false setting]> (participantSettings this)) this
  | None => this
  end.

(** [userSetting && userSetting.isMuted], the test of the send route. *)
Definition mutedFor (userId : ObjectId) (this : t) : bool :=
  match JS.find (λ setting, ps_user setting = userId) (participantSettings this) with
  | Some userSetting => isMuted userSetting
  | None => false
  end.

(** *** Pinning, archiving and the admins of a group *)

Definition set_isPinned v (s : ParticipantSetting) : ParticipantSetting :=
  mkSetting (ps_user s) (isMuted s) v (isArchived s) (notificationSettings s).
Definition set_isArchived v (s : ParticipantSetting) : ParticipantSetting :=
  mkSetting (ps_user s) (isMuted s) (isPinned s) v (notificationSettings s).
Definition set_archivedBy v (c : t) : t :=
  mk (_id c) (participants c) (isGroup c) (groupInfo c) (lastMessage c) (lastMessageAt c)
     (unreadCounts c) (participantSettings c) (isActive c) (isDeleted c)
     (deletedBy c) (totalMessages c) v.
Definition set_admins v (c : t) : t :=
  mk (_id c) (participants c) (isGroup c)
     (mkGroupInfo (name (groupInfo c)) (description (groupInfo c))
        (createdBy (groupInfo c)) v (maxParticipants (groupInfo c)))
     (lastMessage c) (lastMessageAt c)
     (unreadCounts c) (participantSettings c) (isActive c) (isDeleted c)
     (deletedBy c) (totalMessages c) (archivedBy c).

(** Virtual [participantCount]. *)
Definition participantCount (this : t) : nat := length (participants this).

Definition pinForUser (userId : ObjectId) (this : t) : t :=
  match list_find (λ s, ps_user s = userId) (participantSettings this) with
  | Some (i, setting) =>
      set_participantSettings
        (<[i := set_isPinned true setting]> (participantSettings this)) this
  | None => this
  end.

Definition unpinForUser (userId : ObjectId) (this : t) : t :=
  match list_find (λ s, ps_user s = userId) (participantSettings this) with
  | Some (i, setting) =>
      set_participantSettings
        (<[i := set_isPinned false setting]> (participantSettings this)) this
  | None => this
  end.

(** [archiveForUser] sets the flag of the settings entry, if there is one,
    and in every case pushes a record on [archivedBy]. *)
Definition archiveForUser (userId : ObjectId) (now : Date) (this : t) : t :=
  set_archivedBy (archivedBy this ++ [(userId, now)])
    match list_find (λ s, ps_user s = userId) (participantSettings this) with
    | Some (i, setting) =>
        set_participantSettings
          (<[i := set_isArchived true setting]> (participantSettings this)) this
    | None => this
    end.

Definition unarchiveForUser (userId : ObjectId) (this : t) : t :=
  set_archivedBy (filter (λ archive, archive.1 ≠ userId) (archivedBy this))
    match list_find (λ s, ps_user s = userId) (participantSettings this) with
    | Some (i, setting) =>
        set_participantSettings
          (<[i := set_isArchived false setting]> (participantSettings this)) this
    | None => this
    end.

Definition isAdmin (userId : ObjectId) (this : t) : bool :=
  if isGroup this then JS.some (λ admin, admin = userId) (admins (groupInfo this))
  else false.

Definition addAdmin (userId : ObjectId) (this : t) : t :=
  if isGroup this && negb (isAdmin userId this)
  then set_admins (admins (groupInfo this) ++ [userId]) this
  else this.

Definition removeAdmin (userId : ObjectId) (this : t) : t :=
  if isGroup this
  then set_admins (filter (λ admin, admin ≠ userId) (admins (groupInfo this))) this
  else this.

(** The shape that the toggles share: [find] the entry of the user and, if
    there is one, assign to it. *)
Definition assignSetting (f : ParticipantSetting → ParticipantSetting)
    (userId : ObjectId) (this : t) : t :=
  match list_find (λ s, ps_user s = userId) (participantSettings this) with
  | Some (i, setting) =>
      set_participantSettings (<[i := f setting]> (participantSettings this)) this
  | None => this
  end.

(** The settings entry that the routes read for a user ([find]). *)
Definition settingOf (userId : ObjectId) (this : t) : option ParticipantSetting :=
  JS.find (λ setting, ps_user setting = userId) (participantSettings this).

(** The invariant of the schema's comments: the unread counters and the
    settings are kept "for each participant", one entry each and in the
    order of [participants]. *)
Definition entries_match (this : t) : Prop :=
  ud_user <$> unreadCounts this = participants this
  ∧ ps_user <$> participantSettings this = participants this.

End Conversation.


(** ** [models/Message.js] *)

Module Message.

Inductive ContentType := text | image | video | audio | file | location | contact.

Global Instance ContentType_eq_dec : EqDecision ContentType.
Proof. solve_decision. Defined.

Record Media := mkMedia {
  url : string;
  filename : string;
  media_size : nat
}.

(** [content]: the type tag, the text and the media payload.  The
    [location] and [contact] payloads are written by no route and are left
    out. *)
Record Content := mkContent {
  type : ContentType;
  body : string;                 (* content.text *)
  media : option Media
}.

Record Reaction := mkReaction {
  r_user : ObjectId;
  emoji : string;
  r_createdAt : Date
}.

Record EditEntry := mkEdit {
  e_text : string;
  e_editedAt : Date
}.

Record t := mk {
  _id : ObjectId;
  conversation : ObjectId;
  sender : ObjectId;
  recipient : ObjectId;
  content : Content;
  isRead : bool;
  readAt : option Date;
  isDelivered : bool;
  deliveredAt : option Date;
  reactions : list Reaction;
  replyTo : option ObjectId;
  isEdited : bool;
  editedAt : option Date;
  editHistory : list EditEntry;
  isDeleted : bool;
  deletedAt : option Date;
  deletedBy : option ObjectId;
  scheduledFor : option Date;
  isScheduled : bool;
  createdAt : Date               (* timestamps: true *)
}.

(** Field updates ([this.f = v]). *)
Definition set_read (at_ : Date) (m : t) : t :=
  mk (_id m) (conversation m) (sender m) (recipient m) (content m)
     true (Some at_) (isDelivered m) (deliveredAt m) (reactions m) (replyTo m)
     (isEdited m) (editedAt m) (editHistory m) (isDeleted m) (deletedAt m)
     (deletedBy m) (scheduledFor m) (isScheduled m) (createdAt m).
Definition set_delivered (at_ : Date) (m : t) : t :=
  mk (_id m) (conversation m) (sender m) (recipient m) (content m)
     (isRead m) (readAt m) true (Some at_) (reactions m) (replyTo m)
     (isEdited m) (editedAt m) (editHistory m) (isDeleted m) (deletedAt m)
     (deletedBy m) (scheduledFor m) (isScheduled m) (createdAt m).
Definition set_reactions (v : list Reaction) (m : t) : t :=
  mk (_id m) (conversation m) (sender m) (recipient m) (content m)
     (isRead m) (readAt m) (isDelivered m) (deliveredAt m) v (replyTo m)
     (isEdited m) (editedAt m) (editHistory m) (isDeleted m) (deletedAt m)
     (deletedBy m) (scheduledFor m) (isScheduled m) (createdAt m).
Definition set_edited (c : Content) (h : list EditEntry) (at_ : Date) (m : t) : t :=
  mk (_id m) (conversation m) (sender m) (recipient m) c
     (isRead m) (readAt m) (isDelivered m) (deliveredAt m) (reactions m) (replyTo m)
     true (Some at_) h (isDeleted m) (deletedAt m)
     (deletedBy m) (scheduledFor m) (isScheduled m) (createdAt m).
Definition set_deleted (at_ : Date) (by_ : ObjectId) (m : t) : t :=
  mk (_id m) (conversation m) (sender m) (recipient m) (content m)
     (isRead m) (readAt m) (isDelivered m) (deliveredAt m) (reactions m) (replyTo m)
     (isEdited m) (editedAt m) (editHistory m) true (Some at_)
     (Some by_) (scheduledFor m) (isScheduled m) (createdAt m).
Definition set_unscheduled (m : t) : t :=
  mk (_id m) (conversation m) (sender m) (recipient m) (content m)
     (isRead m) (readAt m) (isDelivered m) (deliveredAt m) (reactions m) (replyTo m)
     (isEdited m) (editedAt m) (editHistory m) (isDeleted m) (deletedAt m)
     (deletedBy m) None false (createdAt m).

(** The [text] path has [trim: true]: the setter trims what is assigned. *)
Definition set_text (v : string) (c : Content) : Content :=
  mkContent (type c) (JS.trim v) (media c).

(** [maxlength: 1000] on [content.text], checked by [save]. *)
Definition validate (m : t) : bool :=
  bool_decide (String.length (body (content m)) ≤ 1000)%nat.

(** Pre-save middleware for scheduled messages. *)
Definition pre_save (now : Date) (this : t) : t :=
  match scheduledFor this with
  | Some at_ =>
      if isScheduled this && bool_decide (at_ ≤ now)%Z then set_unscheduled this
      else this
  | None => this
  end.

(** [new Message({ conversation, sender, recipient, content, replyTo,
    isScheduled, scheduledFor })]; the other paths take their defaults. *)
Definition new (id : ObjectId) (now : Date) (conversationId senderId recipientId : ObjectId)
    (c : Content) (reply : option ObjectId) (scheduled : option Date) : t :=
  mk id conversationId senderId recipientId (set_text (body c) c)
     false None false None [] reply false None [] false None None
     scheduled (bool_decide (is_Some scheduled)) now.

Definition markAsRead (now : Date) (this : t) : t :=
  if isRead this then this else set_read now this.

Definition markAsDelivered (now : Date) (this : t) : t :=
  if isDelivered this then this else set_delivered now this.

Definition addReaction (userId : ObjectId) (e : string) (now : Date) (this : t) : t :=
  set_reactions
    (filter (λ reaction, r_user reaction ≠ userId) (reactions this)
       ++ [mkReaction userId e now])
    this.

Definition removeReaction (userId : ObjectId) (this : t) : t :=
  set_reactions (filter (λ reaction, r_user reaction ≠ userId) (reactions this)) this.

Definition hasReactionFrom (userId : ObjectId) (this : t) : bool :=
  JS.some (λ reaction, r_user reaction = userId) (reactions this).

Definition getUserReaction (userId : ObjectId) (this : t) : option string :=
  emoji <$> JS.find (λ reaction, r_user reaction = userId) (reactions this).

Definition edit (newText : string) (now : Date) (this : t) : t :=
  if decide (type (content this) = text) then
    set_edited (set_text newText (content this))
      (editHistory this ++ [mkEdit (body (content this)) now]) now this
  else this.

Definition softDelete (userId : ObjectId) (now : Date) (this : t) : t :=
  set_deleted now userId this.

(** The entries of one user in [reactions], and the invariant that the
    array is used as a map from users to emojis. *)
Definition reactionsOf (userId : ObjectId) (this : t) : list Reaction :=
  filter (λ reaction, r_user reaction = userId) (reactions this).

Definition one_reaction_per_user (this : t) : Prop :=
  ∀ userId, length (reactionsOf userId this) ≤ 1.

(** The methods a route calls on a stored message; each ends in [save()],
    which runs the pre-save middleware. *)
Inductive Method :=
| MarkAsRead
| MarkAsDelivered
| AddReaction (userId : ObjectId) (e : string)
| RemoveReaction (userId : ObjectId)
| Edit (newText : string)
| SoftDelete (userId : ObjectId).

Definition call (this : t) (c : Date * Method) : t :=
  let now := c.1 in
  pre_save now
    match c.2 with
    | MarkAsRead => markAsRead now this
    | MarkAsDelivered => markAsDelivered now this
    | AddReaction userId e => addReaction userId e now this
    | RemoveReaction userId => removeReaction userId this
    | Edit newText => edit newText now this
    | SoftDelete userId => softDelete userId now this
    end.

(** What a later state of a document keeps of an earlier one: the identity
    of the message, the marks that were set and the stamps of the first
    reading and delivery, and the recorded edits. *)
Definition keeps (m m' : t) : Prop :=
  _id m' = _id m ∧ conversation m' = conversation m
  ∧ sender m' = sender m ∧ recipient m' = recipient m
  ∧ createdAt m' = createdAt m ∧ replyTo m' = replyTo m
  ∧ (isRead m = true → isRead m' = true ∧ readAt m' = readAt m)
  ∧ (isDelivered m = true → isDelivered m' = true ∧ deliveredAt m' = deliveredAt m)
  ∧ (isDeleted m = true → isDeleted m' = true)
  ∧ (isEdited m = true → isEdited m' = true)
  ∧ editHistory m `prefix_of` editHistory m'
  ∧ (isScheduled m = false → isScheduled m' = false).

End Message.


(** ** [middleware/auth.js]: [canMessageUser] *)

Module Auth.

(** What a middleware does with a request: call [next()] or answer. *)
Inductive Verdict :=
| next
| reject (status : nat) (message : string).

(** [recipientId] is [req.body.recipientId], [None] when the field is
    absent; [User.findById(undefined)] resolves to [null]. *)
Definition canMessageUser (currentUser : User.t) (recipientId : option ObjectId)
    (users : list User.t) : Verdict :=
  match recipientId with
  | None => reject 404 "Recipient not found"
  | Some rid =>
      if decide (User._id currentUser = rid) then
        reject 400 "Cannot message yourself"
      else
        match Store.findById User._id rid users with
        | None => reject 404 "Recipient not found"
        | Some recipient =>
            if JS.includes (User._id currentUser) (User.blockedUsers recipient) then
              reject 403 "Cannot send message to this user"
            else if JS.includes rid (User.blockedUsers currentUser) then
              reject 403 "Cannot send message to this user"
            else if bool_decide (User.allowMessagesFrom recipient = User.followers)
                    && negb (JS.includes (User._id currentUser) (User.followers_of recipient)) then
              reject 403 "This user only accepts messages from followers"
            else next
        end
  end.

End Auth.

(** ** [routes/messages.js] *)

Module Routes.

(** The three collections and the supply of ObjectIds.  The driver makes
    ids that are stored nowhere yet; [nextId] stands for the next one.  In
    every state the routes reach from empty collections it is above the ids
    of all stored documents, so that the [save] of a document made with
    [new] inserts it (lemmas [run_ids_below], [new_documents_are_appended]). *)
Record DB := mkDB {
  users : list User.t;
  conversations : list Conversation.t;
  messages : list Message.t;
  nextId : ObjectId
}.

Definition save_conversation (c : Conversation.t) (db : DB) : DB :=
  mkDB (users db) (Store.save Conversation._id c (conversations db)) (messages db) (nextId db).

Definition save_message (m : Message.t) (db : DB) : DB :=
  mkDB (users db) (conversations db) (Store.save Message._id m (messages db)) (nextId db).

(** Taking a fresh [_id] for a document built with [new Model(...)]. *)
Definition fresh (db : DB) : DB :=
  mkDB (users db) (conversations db) (messages db) (S (nextId db)).

(** [res.status(s).json(payload)] and [res.status(s).json({ message })]. *)
Inductive Response (A : Type) : Type :=
| Reply (status : nat) (payload : A)
| Error (status : nat) (message : string).
Arguments Reply {A} status payload.
Arguments Error {A} status message.

Definition isParticipant (userId : ObjectId) (c : Conversation.t) : bool :=
  JS.some (λ p, p = userId) (Conversation.participants c).

(** *** Populated users in a response

    [populate(path, 'username fullName profilePicture isVerified')] puts
    the stored user in the place of its id, loaded with the four selected
    paths only; an id without a stored user becomes [null].  [res.json] and
    [toObject] serialise such a user with [virtuals: true] (the User model),
    and so call the getter of the virtual [followerCount], which is
    [this.followers.length].  [followers] was not selected, the getter
    throws, and the route's [catch] answers 500 "Server error".  A route
    that serialises a populated user therefore answers 500 after all its
    writes; the requester is always such a user. *)
Definition stored_user (users : list User.t) (userId : ObjectId) : bool :=
  bool_decide (is_Some (Store.findById User._id userId users)).

(** [res.status(status).json(payload)] for a payload in which the ids
    [refs] were populated. *)
Definition json_populated {A} (users : list User.t) (refs : list ObjectId)
    (status : nat) (payload : A) : Response A :=
  if existsb (stored_user users) refs then Error 500 "Server error"
  else Reply status payload.

(** *** POST /conversations *)

Record GroupInfoBody := mkGroupInfoBody {
  gi_name : option string;
  gi_description : option string;
  gi_participants : option (list ObjectId);
  gi_maxParticipants : option nat
}.

Record ConversationBody := mkConversationBody {
  recipientId : option ObjectId;
  isGroup : bool;
  groupInfo : option GroupInfoBody
}.

(** [findOne({ participants: { $all: [a, b] }, isGroup: false,
    isDeleted: { $ne: true } })]. *)
Definition is_direct_between (a b : ObjectId) (c : Conversation.t) : Prop :=
  a ∈ Conversation.participants c ∧ b ∈ Conversation.participants c
  ∧ Conversation.isGroup c = false ∧ Conversation.isDeleted c ≠ true.

Global Instance is_direct_between_dec a b c : Decision (is_direct_between a b c).
Proof. unfold is_direct_between. apply _. Defined.

(** Schema validation of [groupInfo] at [save]: [name] at most 50 and
    [description] at most 200 characters (both trimmed by their setters). *)
Definition validate_groupInfo (gi : Conversation.GroupInfo) : bool :=
  bool_decide (String.length (default "" (Conversation.name gi)) ≤ 50)%nat
  && bool_decide (String.length (default "" (Conversation.description gi)) ≤ 200)%nat.

(** The handler proper, entered when [canMessageUser] called [next()]. *)
Definition create_conversation (now : Date) (me : ObjectId) (b : ConversationBody)
    (db : DB) : Response Conversation.t * DB :=
  if isGroup b then
    match groupInfo b with
    | Some gi =>
        if JS.falsy (gi_name gi) then (Error 400 "Group name is required", db)
        else
          match gi_participants gi with
          | None => (Error 500 "Server error", db)
          | Some ps =>
              let info :=
                Conversation.mkGroupInfo (JS.trim <$> gi_name gi)
                  (JS.trim <$> gi_description gi) (Some me) [me]
                  (default 50 (gi_maxParticipants gi)) in
              let conversation := Conversation.new (nextId db) now (me :: ps) true info in
              if validate_groupInfo info then
                (* saved; res.status(201).json of the populated participants,
                   the requester first, throws *)
                (Error 500 "Server error", save_conversation conversation (fresh db))
              else (Error 500 "Server error", db)
          end
    | None => (Error 400 "Group name is required", db)
    end
  else
    match recipientId b with
    | None => (Error 500 "Server error", db)   (* never behind canMessageUser *)
    | Some rid =>
        match JS.find (is_direct_between me rid) (conversations db) with
        | Some conversation =>
            (* res.json of the populated participants, the requester among
               them, throws *)
            (Error 500 "Server error", db)
        | None =>
            let conversation :=
              Conversation.new (nextId db) now [me; rid] false
                Conversation.default_groupInfo in
            (Error 500 "Server error", save_conversation conversation (fresh db))
        end
    end.

(** [router.post('/conversations', auth, canMessageUser, handler)]. *)
Definition post_conversations (now : Date) (currentUser : User.t) (b : ConversationBody)
    (db : DB) : Response Conversation.t * DB :=
  match Auth.canMessageUser currentUser (recipientId b) (users db) with
  | Auth.reject status message => (Error status message, db)
  | Auth.next => create_conversation now (User._id currentUser) b db
  end.

(** *** GET /conversations/:conversationId *)

Definition get_conversation (now : Date) (me conversationId : ObjectId)
    (db : DB) : Response Conversation.t * DB :=
  match Store.findById Conversation._id conversationId (conversations db) with
  | None => (Error 404 "Conversation not found", db)
  | Some conversation =>
      if negb (isParticipant me conversation) then
        (Error 403 "Not authorized to access this conversation", db)
      else
        let conversation := Conversation.markAsRead me now conversation in
        (* res.json(conversation): the populated participants, the requester
           among them, cannot be serialised *)
        (Error 500 "Server error", save_conversation conversation db)
  end.

(** *** GET /conversations/:conversationId/messages *)

Record Pagination := mkPagination {
  current : nat;
  total : option nat;            (* Math.ceil(total / limit); not a number when limit is 0 *)
  hasMore : bool
}.

Record MessagesPage := mkPage {
  page_messages : list Message.t;
  pagination : Pagination
}.

(** [{ conversation: conversationId, isDeleted: { $ne: true } }]. *)
Definition listed (conversationId : ObjectId) (m : Message.t) : Prop :=
  Message.conversation m = conversationId ∧ Message.isDeleted m ≠ true.

Global Instance listed_dec cid m : Decision (listed cid m).
Proof. unfold listed. apply _. Defined.

(** [.sort({ createdAt: -1 })]: the order of the result list. *)
Definition newer_first (m1 m2 : Message.t) : Prop :=
  (Message.createdAt m2 ≤ Message.createdAt m1)%Z.

Global Instance newer_first_dec m1 m2 : Decision (newer_first m1 m2).
Proof. unfold newer_first. apply _. Defined.

(** [.limit(n)]: a limit of 0 is no limit. *)
Definition limit_to {A} (n : nat) (l : list A) : list A :=
  if decide (n = 0) then l else take n l.

(** The body of the [forEach]: a message addressed to the requester and not
    yet delivered is marked, in the array that is then returned.  (The
    callback compares the populated recipient; for a recipient that is no
    stored user it is [null], the callback's promise rejects, nobody awaits
    it, and the message is not marked.) *)
Definition deliver (me : ObjectId) (now : Date) (message : Message.t) : Message.t :=
  if bool_decide (Message.recipient message = me) && negb (Message.isDelivered message)
  then Message.markAsDelivered now message
  else message.

(** The [save()] that [markAsDelivered] ends in, for the marked messages. *)
Definition save_delivered (me : ObjectId) (now : Date) (db : DB) (message : Message.t) : DB :=
  if bool_decide (Message.recipient message = me) && negb (Message.isDelivered message)
  then save_message (Message.pre_save now (Message.markAsDelivered now message)) db
  else db.

Definition ceil_div (a b : nat) : option nat :=
  if decide (b = 0) then None else Some ((a + b - 1) / b).

(** The page that the query of the list route fetches, newest first:
    [find(...).sort({ createdAt: -1 }).limit(limit).skip(skip)]. *)
Definition fetch_messages (conversationId : ObjectId) (limit skip : nat) (db : DB)
    : list Message.t :=
  limit_to limit
    (drop skip (merge_sort newer_first (filter (listed conversationId) (messages db)))).

(** The ids that the query populates with users: [sender] and [recipient]
    of every fetched message. *)
Definition populated_in (found : list Message.t) : list ObjectId :=
  flat_map (λ message, [Message.sender message; Message.recipient message]) found.

Definition get_messages (now : Date) (me conversationId : ObjectId)
    (limit page : option nat) (db : DB) : Response MessagesPage * DB :=
  let limit := default 50 limit in
  let page := default 1 page in
  let skip := ((Z.of_nat page - 1) * Z.of_nat limit)%Z in
  match Store.findById Conversation._id conversationId (conversations db) with
  | None => (Error 404 "Conversation not found", db)
  | Some conversation =>
      if negb (isParticipant me conversation) then
        (Error 403 "Not authorized to access this conversation", db)
      else if bool_decide (skip < 0)%Z then (Error 500 "Server error", db)
      else
        let matching := filter (listed conversationId) (messages db) in
        let found := fetch_messages conversationId limit (Z.to_nat skip) db in
        let populated := populated_in found in
        let stored := users db in
        let conversation := Conversation.markAsRead me now conversation in
        let db := save_conversation conversation db in
        let db := foldl (save_delivered me now) db found in
        let found := deliver me now <$> found in
        let total := length matching in
        (json_populated stored populated 200
           (mkPage (reverse found)
              (mkPagination page (ceil_div total limit)
                 (bool_decide (Z.to_nat skip + length found < total)))),
         db)
  end.

(** *** POST /conversations/:conversationId/messages *)

Record UploadedFile := mkFile {
  mimetype : string;
  file_name : string;            (* req.file.filename *)
  originalname : string;
  file_size : nat
}.

Record MessageBody := mkBody {
  text : option string;
  replyTo : option ObjectId;
  scheduledFor : option Date;
  file : option UploadedFile     (* req.file, set by uploadMessageMedia *)
}.

Definition BASE_URL : string := "http://localhost:5000".

Definition getFileUrl (filename type : string) : string :=
  BASE_URL +:+ "/uploads/" +:+ type +:+ "/" +:+ filename.

Definition content_of (b : MessageBody) : Message.Content :=
  match file b with
  | None => Message.mkContent Message.text (JS.or_empty (text b)) None
  | Some f =>
      Message.mkContent
        (if JS.startsWith "image/" (mimetype f) then Message.image
         else if JS.startsWith "video/" (mimetype f) then Message.video
         else if JS.startsWith "audio/" (mimetype f) then Message.audio
         else Message.file)
        (JS.or_empty (text b))
        (Some (Message.mkMedia (getFileUrl (file_name f) "messages")
                 (originalname f) (file_size f)))
  end.

(** "Determine recipient (for direct messages)": the sender itself in a
    group, else the first participant who is not the sender, if any. *)
Definition recipient_for (me : ObjectId) (conversation : Conversation.t)
    : option ObjectId :=
  if Conversation.isGroup conversation then Some me
  else JS.find (λ p, p ≠ me) (Conversation.participants conversation).

Definition send_message (now : Date) (me conversationId : ObjectId) (b : MessageBody)
    (db : DB) : Response Message.t * DB :=
  match Store.findById Conversation._id conversationId (conversations db) with
  | None => (Error 404 "Conversation not found", db)
  | Some conversation =>
      if negb (isParticipant me conversation) then
        (Error 403 "Not authorized to send messages in this conversation", db)
      else if Conversation.mutedFor me conversation then
        (Error 400 "Cannot send messages in muted conversation", db)
      else
        let recipientId := recipient_for me conversation in
        let messageContent := content_of b in
        match recipientId with
        | None => (Error 500 "Server error", db)        (* recipient: required *)
        | Some rid =>
            let message :=
              Message.pre_save now
                (Message.new (nextId db) now conversationId me rid messageContent
                   (replyTo b) (scheduledFor b)) in
            if negb (Message.validate message) then (Error 500 "Server error", db)
            else
              let db := save_message message (fresh db) in
              let conversation :=
                Conversation.updateLastMessage (Message._id message) now conversation in
              let db := save_conversation conversation db in
              (* after these writes the populated sender, the requester,
                 cannot be serialised by res.status(201).json *)
              if Conversation.isGroup conversation then (Error 500 "Server error", db)
              else
                let conversation := Conversation.incrementUnreadCount rid conversation in
                (Error 500 "Server error", save_conversation conversation db)
        end
  end.

(** *** PUT /:messageId *)

Definition editTimeLimit : Z := 15 * 60 * 1000.

Definition edit_message (now : Date) (me messageId : ObjectId) (text : option string)
    (db : DB) : Response Message.t * DB :=
  if JS.falsy text || bool_decide (String.length (JS.trim (JS.or_empty text)) = 0) then
    (Error 400 "Message text is required", db)
  else
    match Store.findById Message._id messageId (messages db) with
    | None => (Error 404 "Message not found", db)
    | Some message =>
        if Message.isDeleted message then (Error 404 "Message not found", db)
        else if negb (bool_decide (Message.sender message = me)) then
          (Error 403 "Not authorized to edit this message", db)
        else if bool_decide (now - Message.createdAt message > editTimeLimit)%Z then
          (Error 400 "Message is too old to edit", db)
        else
          let edited := Message.edit (JS.trim (JS.or_empty text)) now message in
          (* save() of a stored document validates the modified paths:
             content.text when edit assigned it *)
          if bool_decide (Message.type (Message.content message) = Message.text)
             && negb (Message.validate edited)
          then (Error 500 "Server error", db)
          else
            let message := Message.pre_save now edited in
            (* res.json of the populated sender, the requester, throws *)
            (Error 500 "Server error", save_message message db)
    end.

(** *** DELETE /:messageId *)

Definition delete_message (now : Date) (me messageId : ObjectId)
    (db : DB) : Response string * DB :=
  match Store.findById Message._id messageId (messages db) with
  | None => (Error 404 "Message not found", db)
  | Some message =>
      if Message.isDeleted message then (Error 404 "Message not found", db)
      else if negb (bool_decide (Message.sender message = me)) then
        (Error 403 "Not authorized to delete this message", db)
      else
        (Reply 200 "Message deleted successfully",
         save_message (Message.pre_save now (Message.softDelete me now message)) db)
  end.

(** *** POST and DELETE /:messageId/reactions *)

Definition add_reaction (now : Date) (me messageId : ObjectId) (emoji : option string)
    (db : DB) : Response string * DB :=
  if JS.falsy emoji then (Error 400 "Emoji is required", db)
  else
    match Store.findById Message._id messageId (messages db) with
    | None => (Error 404 "Message not found", db)
    | Some message =>
        if Message.isDeleted message then (Error 404 "Message not found", db)
        else
          (Reply 200 "Reaction added successfully",
           save_message
             (Message.pre_save now (Message.addReaction me (JS.or_empty emoji) now message))
             db)
    end.

Definition remove_reaction (now : Date) (me messageId : ObjectId)
    (db : DB) : Response string * DB :=
  match Store.findById Message._id messageId (messages db) with
  | None => (Error 404 "Message not found", db)
  | Some message =>
      if Message.isDeleted message then (Error 404 "Message not found", db)
      else
        (Reply 200 "Reaction removed successfully",
         save_message (Message.pre_save now (Message.removeReaction me message)) db)
  end.

(** *** POST and DELETE /conversations/:conversationId/mute *)

Definition mute_conversation (me conversationId : ObjectId)
    (db : DB) : Response string * DB :=
  match Store.findById Conversation._id conversationId (conversations db) with
  | None => (Error 404 "Conversation not found", db)
  | Some conversation =>
      if negb (isParticipant me conversation) then
        (Error 403 "Not authorized to mute this conversation", db)
      else
        (Reply 200 "Conversation muted successfully",
         save_conversation (Conversation.muteForUser me conversation) db)
  end.

Definition unmute_conversation (me conversationId : ObjectId)
    (db : DB) : Response string * DB :=
  match Store.findById Conversation._id conversationId (conversations db) with
  | None => (Error 404 "Conversation not found", db)
  | Some conversation =>
      if negb (isParticipant me conversation) then
        (Error 403 "Not authorized to unmute this conversation", db)
      else
        (Reply 200 "Conversation unmuted successfully",
         save_conversation (Conversation.unmuteForUser me conversation) db)
  end.

(** *** GET /conversations *)

(** A conversation of the list, with the three fields the route adds. *)
Record ConversationItem := mkItem {
  item : Conversation.t;
  unreadCount : nat;
  item_isMuted : bool;           (* isMuted *)
  item_isPinned : bool           (* isPinned *)
}.

Record ConversationsPage := mkConversationsPage {
  page_conversations : list ConversationItem;
  conversations_pagination : Pagination
}.

(** [{ participants: me, isDeleted: { $ne: true },
       'archivedBy.user': { $ne: me } }]. *)
Definition in_inbox (me : ObjectId) (c : Conversation.t) : Prop :=
  me ∈ Conversation.participants c
  ∧ Conversation.isDeleted c ≠ true
  ∧ Forall (λ archive, archive.1 ≠ me) (Conversation.archivedBy c).

Global Instance in_inbox_dec me c : Decision (in_inbox me c).
Proof. unfold in_inbox. apply _. Defined.

(** [.sort({ lastMessageAt: -1 })]. *)
Definition latest_first (c1 c2 : Conversation.t) : Prop :=
  (Conversation.lastMessageAt c2 ≤ Conversation.lastMessageAt c1)%Z.

Global Instance latest_first_dec c1 c2 : Decision (latest_first c1 c2).
Proof. unfold latest_first. apply _. Defined.

(** The callback of [conversations.map]. *)
Definition with_data (me : ObjectId) (conversation : Conversation.t) : ConversationItem :=
  let userSetting :=
    JS.find (λ setting, Conversation.ps_user setting = me)
      (Conversation.participantSettings conversation) in
  mkItem conversation
    (Conversation.getUnreadCount me conversation)
    (match userSetting with Some s => Conversation.isMuted s | None => false end)
    (match userSetting with Some s => Conversation.isPinned s | None => false end).

Definition get_conversations (me : ObjectId) (limit page : option nat) (db : DB)
    : Response ConversationsPage * DB :=
  let limit := default 20 limit in
  let page := default 1 page in
  let skip := ((Z.of_nat page - 1) * Z.of_nat limit)%Z in
  if bool_decide (skip < 0)%Z then (Error 500 "Server error", db)
  else
    let matching := filter (in_inbox me) (conversations db) in
    let found :=
      limit_to limit (drop (Z.to_nat skip) (merge_sort latest_first matching)) in
    let total := length matching in
    match found with
    | [] =>
        (Reply 200
           (mkConversationsPage (with_data me <$> found)
              (mkPagination page (ceil_div total limit)
                 (bool_decide (Z.to_nat skip + length found < total)))),
         db)
    | _ :: _ =>
        (* conversation.toObject() of the first conversation: its populated
           participants, the requester among them, cannot be serialised *)
        (Error 500 "Server error", db)
    end.

End Routes.

(** ** [middleware/upload.js], the part behind the send route *)

Module Upload.
Import Routes.

Definition allowedImageTypes : list string :=
  ["image/jpeg"; "image/jpg"; "image/png"; "image/gif"; "image/webp"].
Definition allowedVideoTypes : list string :=
  ["video/mp4"; "video/avi"; "video/mov"; "video/wmv"; "video/flv"; "video/webm"].
Definition allowedAudioTypes : list string :=
  ["audio/mp3"; "audio/wav"; "audio/ogg"; "audio/m4a"].

(** [Array.prototype.includes] on an array of strings. *)
Definition includes (x : string) (l : list string) : bool := bool_decide (x ∈ l).

(** [fileFilter], the filter of every [upload.single] and [upload.array]:
    [cb(null, true)] is [true], [cb(new Error(...), false)] is [false]. *)
Definition fileFilter (f : UploadedFile) : bool :=
  if includes (mimetype f) allowedImageTypes then true
  else if includes (mimetype f) allowedVideoTypes then true
  else false.

(** [uploadMessageMedia = upload.single('messageMedia')]: the request
    reaches the handler with [req.file] set when a file was sent and passed
    the filter, and without it when none was sent; a filtered file and a file
    over the 50MB limit end the request with an error. *)
Definition fileSizeLimit : nat := 50 * 1024 * 1024.

Definition uploadMessageMedia (sent : option UploadedFile) : option (option UploadedFile) :=
  match sent with
  | None => Some None
  | Some f =>
      if fileFilter f && bool_decide (file_size f ≤ fileSizeLimit)
      then Some (Some f) else None
  end.

(** [validateMessageMedia]. *)
Definition validateMessageMedia (file : option UploadedFile) : Auth.Verdict :=
  match file with
  | None => Auth.reject 400 "Message media is required."
  | Some f =>
      if negb (includes (mimetype f) allowedImageTypes)
         && negb (includes (mimetype f) allowedVideoTypes)
         && negb (includes (mimetype f) allowedAudioTypes)
      then Auth.reject 400
             "Invalid file type. Only images, videos, and audio files are allowed."
      else if bool_decide (25 * 1024 * 1024 < file_size f)
      then Auth.reject 400 "Message media must be less than 25MB."
      else Auth.next
  end.

End Upload.

(** ** [middleware/auth.js]: [rateLimit] *)

Module RateLimit.

(** The [Map] of the closure: for each key (the client's address) the
    instants of its requests that were let through, oldest first. *)
Definition Requests := gmap string (list Z).

Definition default_windowMs : Z := 15 * 60 * 1000.
Definition default_max : nat := 100.

(** The middleware that [rateLimit(windowMs, max)] returns, as a function
    of the request's key, the instant [Date.now()] and the map. *)
Definition rateLimit (windowMs : Z) (max : nat) (key : string) (now : Z)
    (requests : Requests) : Auth.Verdict * Requests :=
  let windowStart := (now - windowMs)%Z in
  let requests :=
    if decide (is_Some (requests !! key)) then requests else <[key := []]> requests in
  let userRequests := default [] (requests !! key) in
  let recentRequests := filter (λ time, (windowStart < time)%Z) userRequests in
  if decide (max ≤ length recentRequests) then
    (Auth.reject 429 "Too many requests, please try again later", requests)
  else
    (Auth.next, <[key := recentRequests ++ [now]]> requests).

(** A client request: its key and the instant it arrives at. *)
Definition Arrival : Type := string * Z.

(** Serving arrivals in order from the map [requests]; the result lists the
    arrivals that were let through, in order, and the final map. *)
Fixpoint serve (windowMs : Z) (max : nat) (arrivals : list Arrival) (requests : Requests)
    : list Arrival * Requests :=
  match arrivals with
  | [] => ([], requests)
  | a :: arrivals' =>
      let '(v, requests1) := rateLimit windowMs max a.1 a.2 requests in
      let '(passed, requests2) := serve windowMs max arrivals' requests1 in
      (match v with Auth.next => a :: passed | Auth.reject _ _ => passed end, requests2)
  end.

(** The instants at which the arrivals of [key] among [passed] came. *)
Definition instants_of (key : string) (passed : list Arrival) : list Z :=
  snd <$> filter (λ a, a.1 = key) passed.

(** How many of the instants lie in the window that ends at [t]. *)
Definition in_window (windowMs t : Z) (instants : list Z) : nat :=
  length (filter (λ time, (t - windowMs < time ∧ time ≤ t)%Z) instants).

End RateLimit.


(** ** The server as a transition system *)

Module Server.
Import Routes.

(** The requests that [routes/messages.js] serves, after [auth]. *)
Inductive Request :=
| PostConversations (currentUser : User.t) (b : ConversationBody)
| GetConversation (me conversationId : ObjectId)
| GetMessages (me conversationId : ObjectId) (limit page : option nat)
| SendMessage (me conversationId : ObjectId) (b : MessageBody)
| EditMessage (me messageId : ObjectId) (text : option string)
| DeleteMessage (me messageId : ObjectId)
| AddReaction (me messageId : ObjectId) (emoji : option string)
| RemoveReaction (me messageId : ObjectId)
| Mute (me conversationId : ObjectId)
| Unmute (me conversationId : ObjectId).

(** The database after a request served at instant [r.1]. *)
Definition serve (db : DB) (r : Date * Request) : DB :=
  let now := r.1 in
  match r.2 with
  | PostConversations currentUser b => (post_conversations now currentUser b db).2
  | GetConversation me cid => (get_conversation now me cid db).2
  | GetMessages me cid limit page => (get_messages now me cid limit page db).2
  | SendMessage me cid b => (send_message now me cid b db).2
  | EditMessage me mid text => (edit_message now me mid text db).2
  | DeleteMessage me mid => (delete_message now me mid db).2
  | AddReaction me mid emoji => (add_reaction now me mid emoji db).2
  | RemoveReaction me mid => (remove_reaction now me mid db).2
  | Mute me cid => (mute_conversation me cid db).2
  | Unmute me cid => (unmute_conversation me cid db).2
  end.

(** The database with the given users and no conversation or message,
    whose first ObjectId will be [first], and the database after a sequence
    of requests from there. *)
Definition init (us : list User.t) (first : ObjectId) : DB := mkDB us [] [] first.

Definition run (us : list User.t) (first : ObjectId) (rs : list (Date * Request)) : DB :=
  foldl serve (init us first) rs.

(** The status that a request is answered with. *)
Definition status {A} (r : Response A) : nat :=
  match r with
  | Reply s _ => s
  | Error s _ => s
  end.

Definition answer (db : DB) (r : Date * Request) : nat :=
  let now := r.1 in
  match r.2 with
  | PostConversations currentUser b => status (post_conversations now currentUser b db).1
  | GetConversation me cid => status (get_conversation now me cid db).1
  | GetMessages me cid limit page => status (get_messages now me cid limit page db).1
  | SendMessage me cid b => status (send_message now me cid b db).1
  | EditMessage me mid text => status (edit_message now me mid text db).1
  | DeleteMessage me mid => status (delete_message now me mid db).1
  | AddReaction me mid emoji => status (add_reaction now me mid emoji db).1
  | RemoveReaction me mid => status (remove_reaction now me mid db).1
  | Mute me cid => status (mute_conversation me cid db).1
  | Unmute me cid => status (unmute_conversation me cid db).1
  end.

(** Every stored [_id] is older than the next ObjectId. *)
Definition ids_below (db : DB) : Prop :=
  Forall (λ c, Conversation._id c < nextId db) (conversations db)
  ∧ Forall (λ m, Message._id m < nextId db) (messages db).

(** How a route that works on one stored document changes the database:
    not at all, or by saving the result of a method call on a stored
    message, or by saving a stored conversation under its [_id]. *)
Definition touches_message (db db' : DB) : Prop :=
  db' = db
  ∨ ∃ m c, m ∈ messages db ∧ db' = save_message (Message.call m c) db.

(** A conversation without any unread counter and any settings entry. *)
Definition no_entries (c : Conversation.t) : Prop :=
  Conversation.unreadCounts c = [] ∧ Conversation.participantSettings c = [].

(** No two stored documents of a collection share their [_id]. *)
Definition unique_ids (db : DB) : Prop :=
  NoDup (Conversation._id <$> conversations db)
  ∧ NoDup (Message._id <$> messages db).

(** What a later state of a stored conversation has in common with an
    earlier one when only the routes wrote it. *)
Definition same_members (c c' : Conversation.t) : Prop :=
  Conversation._id c' = Conversation._id c
  ∧ Conversation.participants c' = Conversation.participants c
  ∧ Conversation.isGroup c' = Conversation.isGroup c
  ∧ Conversation.groupInfo c' = Conversation.groupInfo c
  ∧ Conversation.isDeleted c' = Conversation.isDeleted c
  ∧ Conversation.archivedBy c' = Conversation.archivedBy c.

Definition touches_conversation (db db' : DB) : Prop :=
  db' = db
  ∨ ∃ c c', c ∈ conversations db ∧ Conversation._id c' = Conversation._id c
            ∧ db' = save_conversation c' db.

End Server.

(** ** Request sequences and sample data *)

Module Scenario.
Import Routes.

(** A request to POST /conversations/:conversationId/messages: the instant
    it is served at, the authenticated sender and the body. *)
Record SendRequest := mkSend {
  at_time : Date;
  from : ObjectId;
  payload : MessageBody
}.

(** Serving send requests to one conversation, one after the other. *)
Fixpoint send_each (conversationId : ObjectId) (reqs : list SendRequest) (db : DB)
    : list (Response Message.t) * DB :=
  match reqs with
  | [] => ([], db)
  | r :: reqs' =>
      let '(res, db1) := send_message (at_time r) (from r) conversationId (payload r) db in
      let '(ress, db2) := send_each conversationId reqs' db1 in
      (res :: ress, db2)
  end.

(** The message and the conversation a successful send writes. *)
Definition sent_message (now : Date) (me cid rid : ObjectId) (b : MessageBody) (db : DB)
    : Message.t :=
  Message.pre_save now
    (Message.new (nextId db) now cid me rid (content_of b) (replyTo b) (scheduledFor b)).

Definition sent_conversation (now : Date) (rid : ObjectId) (c : Conversation.t) (db : DB)
    : Conversation.t :=
  let c1 := Conversation.updateLastMessage (nextId db) now c in
  if Conversation.isGroup c then c1 else Conversation.incrementUnreadCount rid c1.

(** The unread count of a user in a stored conversation, as the
    conversation list reports it ([getUnreadCount]). *)
Definition unread_in (db : DB) (conversationId userId : ObjectId) : option nat :=
  Conversation.getUnreadCount userId
    <$> Store.findById Conversation._id conversationId (conversations db).

Definition direct_to (recipientId : ObjectId) : ConversationBody :=
  mkConversationBody (Some recipientId) false None.

Definition plain (s : string) : MessageBody := mkBody (Some s) None None None.

(** Three users who accept messages from everyone and block nobody. *)
Definition alice : User.t := User.mk 1 [] [] User.everyone.
Definition bob : User.t := User.mk 2 [] [] User.everyone.
Definition carol : User.t := User.mk 3 [] [] User.everyone.

(** A database with the three users and no conversation yet. *)
Definition db_users : DB := Server.init [alice; bob; carol] 100.

(** The database after alice has opened a direct conversation with bob
    through POST /conversations. *)
Definition db_direct : DB :=
  snd (post_conversations 1000 alice (direct_to 2) db_users).

(** A conversation document in which every participant has its unread
    counter and its settings: the participants are added, at instant 0, with
    [addParticipant]. *)
Definition with_entries (id : ObjectId) (grp : bool) (ps : list ObjectId) : Conversation.t :=
  foldl (λ c u, Conversation.addParticipant u 0 c)
    (Conversation.new id 0 [] grp Conversation.default_groupInfo) ps.

(** The database after alice has sent "hi" at instant 2000 in the
    conversation that she opened through POST /conversations. *)
Definition db_sent : DB := snd (send_message 2000 1 100 (plain "hi") db_direct).

(** The database after alice has opened a group with bob and carol through
    POST /conversations, naming bob as the recipient. *)
Definition trio : ConversationBody :=
  mkConversationBody (Some 2) true
    (Some (mkGroupInfoBody (Some "trio") None (Some [2; 3]) None)).
Definition db_trio : DB := snd (post_conversations 1000 alice trio db_users).

(** Twenty minutes, in milliseconds. *)
Definition twenty_minutes : Z := 20 * 60 * 1000.

End Scenario.


(** * Properties *)

(** ** [find], [some] and the collections *)

Section JSFacts.
Context {A : Type} (P : A → Prop) `{!∀ x, Decision (P x)}.

Lemma find_cons x l :
  JS.find P (x :: l) = if decide (P x) then Some x else JS.find P l.
Proof.
  unfold JS.find; simpl. case_decide; [done|].
  by destruct (list_find P l) as [[??]|].
Qed.

Lemma find_Some l x : JS.find P l = Some x → P x ∧ x ∈ l.
Proof.
  unfold JS.find. intros ([i y] & Hf & ->)%fmap_Some.
  apply list_find_Some in Hf as (Hl & HP & _).
  split; [done|]. by eapply list_elem_of_lookup_2.
Qed.

Lemma find_None l : JS.find P l = None ↔ Forall (λ x, ¬ P x) l.
Proof. unfold JS.find. by rewrite fmap_None, list_find_None. Qed.

Lemma find_is_Some l x : x ∈ l → P x → is_Some (JS.find P l).
Proof.
  intros Hx HP. destruct (list_find_elem_of P l x Hx HP) as [[i y] Hf].
  unfold JS.find. rewrite Hf. by eexists.
Qed.

Lemma find_list_find l i x : list_find P l = Some (i, x) → JS.find P l = Some x.
Proof. unfold JS.find. by intros ->. Qed.

Lemma find_list_find_None l : list_find P l = None ↔ JS.find P l = None.
Proof. unfold JS.find. by rewrite fmap_None. Qed.

Lemma some_true l : JS.some P l = true ↔ ∃ x, x ∈ l ∧ P x.
Proof.
  unfold JS.some. rewrite bool_decide_eq_true, Exists_exists. naive_solver.
Qed.

End JSFacts.

Section StoreFacts.
Context {A : Type} (key : A → ObjectId).

Lemma findById_key i l d : Store.findById key i l = Some d → key d = i.
Proof. intros H. by apply find_Some in H as [? _]. Qed.

Lemma findById_elem_of i l d : Store.findById key i l = Some d → d ∈ l.
Proof. intros H. by apply find_Some in H as [_ ?]. Qed.

Lemma findById_save_eq d l :
  Store.findById key (key d) (Store.save key d l) = Some d.
Proof.
  unfold Store.findById. induction l as [|x l IH]; simpl.
  - rewrite find_cons. by rewrite decide_True.
  - destruct (decide (key x = key d)) as [Hk|Hk]; rewrite find_cons.
    + by rewrite decide_True.
    + by rewrite decide_False.
Qed.

Lemma findById_save_ne i d l :
  key d ≠ i → Store.findById key i (Store.save key d l) = Store.findById key i l.
Proof.
  intros Hne. unfold Store.findById. induction l as [|x l IH]; simpl.
  - rewrite find_cons. by rewrite decide_False.
  - destruct (decide (key x = key d)) as [Hk|Hk]; rewrite !find_cons.
    + rewrite !decide_False by congruence. done.
    + by rewrite IH.
Qed.

(** Saving a document that is stored unchanged leaves the collection as it
    is. *)
Lemma save_stored d l :
  Store.findById key (key d) l = Some d → Store.save key d l = l.
Proof.
  unfold Store.findById. induction l as [|x l IH]; simpl.
  - by intros [? ?%elem_of_nil]%find_Some.
  - rewrite find_cons. destruct (decide (key x = key d)) as [Hk|Hk].
    + by intros [= ->].
    + intros H. by rewrite IH.
Qed.


End StoreFacts.

(** ** The conversation methods *)

Section ConversationFacts.
Import Conversation.

(** Overwriting the element that [find] returned for key [r] with one of the
    same key: what a later [find] for key [u] sees. *)
Lemma find_insert_key {A} (key : A → ObjectId) (l : list A) r u i d d' :
  list_find (λ x, key x = r) l = Some (i, d) → key d' = key d →
  JS.find (λ x, key x = u) (<[i:=d']> l)
  = if decide (u = r) then Some d' else JS.find (λ x, key x = u) l.
Proof.
  intros Hf Hk. revert i Hf. induction l as [|x l IH]; intros i Hf; [done|].
  simpl in Hf. destruct (decide (key x = r)) as [Hx|Hx].
  - injection Hf as <- <-. simpl. rewrite !find_cons.
    destruct (decide (u = r)) as [->|Hu].
    + rewrite decide_True by congruence. done.
    + rewrite !decide_False by congruence. done.
  - apply fmap_Some in Hf as ([i' y] & Hf & [= -> ->]). simpl.
    rewrite !find_cons. destruct (decide (key x = u)) as [Hxu|Hxu].
    + rewrite decide_False by congruence. done.
    + by apply IH.
Qed.

Lemma getUnreadCount_increment_eq r c :
  is_Some (JS.find (λ data, ud_user data = r) (unreadCounts c)) →
  getUnreadCount r (incrementUnreadCount r c) = getUnreadCount r c + 1.
Proof.
  intros [d Hd]. unfold getUnreadCount, incrementUnreadCount. rewrite Hd.
  destruct (list_find _ (unreadCounts c)) as [[i d']|] eqn:Hf.
  - pose proof (find_list_find _ _ _ _ Hf) as Hd'. rewrite Hd in Hd'.
    injection Hd' as <-. simpl.
    rewrite (find_insert_key ud_user _ r r i d) by done.
    by rewrite decide_True.
  - apply find_list_find_None in Hf. congruence.
Qed.

Lemma getUnreadCount_markAsRead u now c :
  getUnreadCount u (markAsRead u now c) = 0.
Proof.
  unfold getUnreadCount, markAsRead.
  destruct (list_find _ (unreadCounts c)) as [[i d]|] eqn:Hf; simpl.
  - rewrite (find_insert_key ud_user _ u u i d) by done.
    by rewrite decide_True.
  - apply find_list_find_None in Hf. by rewrite Hf.
Qed.

(** What [incrementUnreadCount] and [markAsRead] leave alone. *)
Lemma incrementUnreadCount_frame r c :
  let c' := incrementUnreadCount r c in
  _id c' = _id c ∧ participants c' = participants c ∧ isGroup c' = isGroup c
  ∧ participantSettings c' = participantSettings c
  ∧ lastMessage c' = lastMessage c ∧ lastMessageAt c' = lastMessageAt c
  ∧ totalMessages c' = totalMessages c.
Proof.
  unfold incrementUnreadCount.
  by destruct (list_find _ (unreadCounts c)) as [[i d]|].
Qed.

Lemma markAsRead_frame u now c :
  let c' := markAsRead u now c in
  _id c' = _id c ∧ participants c' = participants c ∧ isGroup c' = isGroup c
  ∧ participantSettings c' = participantSettings c.
Proof.
  unfold markAsRead. by destruct (list_find _ (unreadCounts c)) as [[i d]|].
Qed.

(** [muteForUser] mutes exactly when the user has a settings entry. *)
Lemma mutedFor_muteForUser u c :
  is_Some (JS.find (λ s, ps_user s = u) (participantSettings c)) →
  mutedFor u (muteForUser u c) = true.
Proof.
  intros [s Hs]. unfold mutedFor, muteForUser.
  destruct (list_find _ (participantSettings c)) as [[i s']|] eqn:Hf; simpl.
  - rewrite (find_insert_key ps_user _ u u i s') by done.
    by rewrite decide_True.
  - apply find_list_find_None in Hf. congruence.
Qed.

(** A conversation made by [new Conversation] has no entry for anybody. *)
Lemma new_has_no_entries id now ps grp gi u :
  JS.find (λ data, ud_user data = u) (unreadCounts (new id now ps grp gi)) = None
  ∧ JS.find (λ s, ps_user s = u) (participantSettings (new id now ps grp gi)) = None.
Proof. done. Qed.

End ConversationFacts.

(** ** POST /conversations *)

Section CreateFacts.
Import Routes.





End CreateFacts.

Section FindOrCreateDirect.
Import Routes Scenario.



(** C7 (the code departs from the claim).  Alice, who may message bob,
    requests POST /conversations with [recipientId] bob twice.  The first
    request stores the direct conversation of the two, the second finds it
    and stores nothing; but neither returns a conversation or its id: both
    are answered 500 "Server error", because the populated participants
    cannot be serialised. *)
Theorem findOrCreateDirect_returns_no_conversation :
  ∃ c,
    conversations db_users = []
    ∧ post_conversations 1000 alice (direct_to 2) db_users
      = (Error 500 "Server error", db_direct)
    ∧ conversations db_direct = [c]
    ∧ Conversation.participants c = [1; 2]
    ∧ post_conversations 2000 alice (direct_to 2) db_direct
      = (Error 500 "Server error", db_direct).
Proof. eexists. split_and!; by vm_compute. Qed.

(** C1 (the code departs from the claim).  POST /conversations by alice
    with [recipientId] bob, when no conversation exists, stores a new direct
    conversation of the two whose [unreadCounts] (and
    [participantSettings]) array is empty: neither participant has an
    unread-counter entry after creation. *)
Theorem created_direct_conversation_has_no_unread_entries :
  ∃ c,
    conversations db_users = []
    ∧ conversations (post_conversations 1000 alice (direct_to 2) db_users).2 = [c]
    ∧ Conversation.participants c = [1; 2]
    ∧ Conversation.isGroup c = false
    ∧ Conversation.unreadCounts c = []
    ∧ Conversation.participantSettings c = []
    ∧ JS.find (λ d, Conversation.ud_user d = 1) (Conversation.unreadCounts c) = None
    ∧ JS.find (λ d, Conversation.ud_user d = 2) (Conversation.unreadCounts c) = None.
Proof. eexists. split_and!; by vm_compute. Qed.

End FindOrCreateDirect.

Section Frame.
Import Routes Scenario Conversation.

(** C10. For a conversation [c] and a user id without an entry in
    [unreadCounts], [incrementUnreadCount] and [markAsRead] return [c]
    itself; for a user id without an entry in [participantSettings],
    [muteForUser] and [unmuteForUser] return [c] itself: no entry is
    created and no counter or flag changes.  The methods are total, nothing
    is raised; accordingly the mute and unmute routes answer 200 to such a
    participant and leave the database as it was. *)
Theorem absent_entry_is_frame (userId : ObjectId) (now : Date) (c : Conversation.t) :
  (JS.find (λ data, ud_user data = userId) (unreadCounts c) = None →
   incrementUnreadCount userId c = c ∧ markAsRead userId now c = c)
  ∧ (JS.find (λ s, ps_user s = userId) (participantSettings c) = None →
     muteForUser userId c = c
     ∧ unmuteForUser userId c = c
     ∧ ∀ db, Store.findById _id (_id c) (conversations db) = Some c →
             isParticipant userId c = true →
             mute_conversation userId (_id c) db
             = (Reply 200 "Conversation muted successfully", db)
             ∧ unmute_conversation userId (_id c) db
               = (Reply 200 "Conversation unmuted successfully", db)).
Proof.
  split.
  - intros Hu%find_list_find_None.
    unfold incrementUnreadCount, markAsRead. by rewrite Hu.
  - intros Hs%find_list_find_None.
    assert (Hm : muteForUser userId c = c) by (unfold muteForUser; by rewrite Hs).
    assert (Hn : unmuteForUser userId c = c) by (unfold unmuteForUser; by rewrite Hs).
    split_and!; try done.
    intros db Hc Hp. unfold mute_conversation, unmute_conversation.
    rewrite Hc, Hp, Hm, Hn. simpl. unfold save_conversation.
    rewrite save_stored by done. by destruct db.
Qed.

Lemma absent_entry_is_frame_witness :
  let c := Conversation.new 100 1000 [1; 2] false default_groupInfo in
  Store.findById _id 100 (conversations db_direct) = Some c
  ∧ incrementUnreadCount 2 c = c
  ∧ markAsRead 2 5000 c = c
  ∧ muteForUser 2 c = c
  ∧ unmuteForUser 2 c = c
  ∧ mute_conversation 2 100 db_direct
    = (Reply 200 "Conversation muted successfully", db_direct).
Proof.
  intros c. split; [by vm_compute|].
  destruct (absent_entry_is_frame 2 5000 c) as [Hunread Hsettings].
  destruct Hunread as [H1 H2]; [by vm_compute|].
  destruct Hsettings as (H3 & H4 & Hroutes); [by vm_compute|].
  destruct (Hroutes db_direct) as [H5 _]; [by vm_compute|by vm_compute|].
  split_and!; [exact H1|exact H2|exact H3|exact H4|exact H5].
Defined.

End Frame.

(** ** Reactions *)

Section Reactions.
Import Message.

Lemma find_app_skip {A} (P : A → Prop) `{!∀ x, Decision (P x)} l1 l2 :
  JS.find P l1 = None → JS.find P (l1 ++ l2) = JS.find P l2.
Proof.
  induction l1 as [|x l1 IH]; [done|]. simpl. rewrite !find_cons.
  destruct (decide (P x)); [done|]. apply IH.
Qed.

Lemma filter_other_user (u v : ObjectId) (l : list Reaction) :
  u ≠ v →
  filter (λ r, r_user r = u) (filter (λ r, r_user r ≠ v) l)
  = filter (λ r, r_user r = u) l.
Proof.
  intros Hne. induction l as [|x l IH]; [done|].
  rewrite (filter_cons (λ r, r_user r ≠ v)).
  destruct (decide (r_user x ≠ v)) as [Hx|Hx].
  - rewrite !filter_cons. destruct (decide (r_user x = u)); by rewrite IH.
  - rewrite IH. rewrite filter_cons_False; [done|].
    apply dec_stable in Hx. congruence.
Qed.

Lemma filter_same_user (u : ObjectId) (l : list Reaction) :
  filter (λ r, r_user r = u) (filter (λ r, r_user r ≠ u) l) = [].
Proof.
  induction l as [|x l IH]; [done|].
  rewrite (filter_cons (λ r, r_user r ≠ u)).
  destruct (decide (r_user x ≠ u)) as [Hx|Hx]; [|done].
  by rewrite filter_cons_False.
Qed.

Lemma reactionsOf_addReaction_eq u e now m :
  reactionsOf u (addReaction u e now m) = [mkReaction u e now].
Proof.
  unfold reactionsOf, addReaction. simpl.
  rewrite filter_app, filter_same_user. simpl.
  by rewrite filter_cons_True, filter_nil.
Qed.

Lemma reactionsOf_addReaction_ne u v e now m :
  u ≠ v → reactionsOf u (addReaction v e now m) = reactionsOf u m.
Proof.
  intros Hne. unfold reactionsOf, addReaction. simpl.
  rewrite filter_app, filter_other_user by done.
  rewrite filter_cons_False, filter_nil by (simpl; congruence).
  by rewrite app_nil_r.
Qed.

Lemma reactionsOf_removeReaction_eq u m : reactionsOf u (removeReaction u m) = [].
Proof. unfold reactionsOf, removeReaction. simpl. apply filter_same_user. Qed.

Lemma reactionsOf_removeReaction_ne u v m :
  u ≠ v → reactionsOf u (removeReaction v m) = reactionsOf u m.
Proof.
  intros Hne. unfold reactionsOf, removeReaction. simpl.
  by apply filter_other_user.
Qed.

Lemma addReaction_preserves u e now m :
  one_reaction_per_user m → one_reaction_per_user (addReaction u e now m).
Proof.
  intros Hm v. destruct (decide (v = u)) as [->|Hne].
  - by rewrite reactionsOf_addReaction_eq.
  - rewrite reactionsOf_addReaction_ne by done. apply Hm.
Qed.

Lemma removeReaction_preserves u m :
  one_reaction_per_user m → one_reaction_per_user (removeReaction u m).
Proof.
  intros Hm v. destruct (decide (v = u)) as [->|Hne].
  - rewrite reactionsOf_removeReaction_eq. simpl. lia.
  - rewrite reactionsOf_removeReaction_ne by done. apply Hm.
Qed.

Lemma getUserReaction_addReaction u e now m :
  getUserReaction u (addReaction u e now m) = Some e.
Proof.
  unfold getUserReaction, addReaction. simpl.
  rewrite find_app_skip.
  - rewrite find_cons. by rewrite decide_True.
  - apply find_None, Forall_forall. intros r Hr.
    by apply list_elem_of_filter in Hr as [? _].
Qed.

Lemma pre_save_reactions now m : reactions (pre_save now m) = reactions m.
Proof.
  unfold pre_save. destruct (scheduledFor m); [|done].
  by destruct (isScheduled m && _).
Qed.

Lemma one_reaction_per_user_ext m m' :
  reactions m' = reactions m → one_reaction_per_user m → one_reaction_per_user m'.
Proof. intros Heq Hm u. unfold reactionsOf. rewrite Heq. apply Hm. Qed.

Lemma call_preserves m c : one_reaction_per_user m → one_reaction_per_user (call m c).
Proof.
  intros Hm. unfold call.
  eapply one_reaction_per_user_ext; [apply pre_save_reactions|].
  destruct c as [now []]; simpl.
  - unfold markAsRead. by destruct (isRead m).
  - unfold markAsDelivered. by destruct (isDelivered m).
  - by apply addReaction_preserves.
  - by apply removeReaction_preserves.
  - unfold edit. by destruct (decide _).
  - done.
Qed.

End Reactions.

(** ** POST /conversations/:conversationId/messages *)

Section Send.
Import Routes Scenario.

Lemma save_save {A} (key : A → ObjectId) d d' l :
  key d' = key d → Store.save key d' (Store.save key d l) = Store.save key d' l.
Proof.
  intros Hk. induction l as [|x l IH]; simpl.
  - by rewrite decide_True.
  - destruct (decide (key x = key d)) as [Hx|Hx]; simpl.
    + rewrite !decide_True by congruence. done.
    + rewrite !decide_False by congruence. by rewrite IH.
Qed.

Lemma content_of_body b : Message.body (content_of b) = JS.or_empty (text b).
Proof. unfold content_of. by destruct (file b). Qed.

(** The pre-save middleware touches the two scheduling paths only. *)
Lemma pre_save_id now m : Message._id (Message.pre_save now m) = Message._id m.
Proof.
  unfold Message.pre_save. destruct (Message.scheduledFor m); [|done].
  by destruct (Message.isScheduled m && _).
Qed.

Lemma pre_save_content now m :
  Message.content (Message.pre_save now m) = Message.content m.
Proof.
  unfold Message.pre_save. destruct (Message.scheduledFor m); [|done].
  by destruct (Message.isScheduled m && _).
Qed.

Lemma pre_save_parties now m :
  Message.sender (Message.pre_save now m) = Message.sender m
  ∧ Message.recipient (Message.pre_save now m) = Message.recipient m
  ∧ Message.conversation (Message.pre_save now m) = Message.conversation m.
Proof.
  unfold Message.pre_save. destruct (Message.scheduledFor m); [|done].
  by destruct (Message.isScheduled m && _).
Qed.

(** The message that a send builds. *)
Lemma sent_message_fields now me cid rid b db :
  let m := sent_message now me cid rid b db in
  Message._id m = nextId db
  ∧ Message.sender m = me
  ∧ Message.recipient m = rid
  ∧ Message.conversation m = cid
  ∧ Message.type (Message.content m) = Message.type (content_of b)
  ∧ Message.body (Message.content m) = JS.trim (JS.or_empty (text b))
  ∧ Message.media (Message.content m) = Message.media (content_of b).
Proof.
  unfold sent_message. cbv zeta.
  destruct (pre_save_parties now
              (Message.new (nextId db) now cid me rid (content_of b) (replyTo b)
                 (scheduledFor b))) as (-> & -> & ->).
  rewrite pre_save_id, pre_save_content. simpl. by rewrite content_of_body.
Qed.

(** A document is found under its key once it is saved. *)
Lemma stored_after_save {A} (key : A → ObjectId) i d l :
  key d = i → Store.findById key i (Store.save key d l) = Some d.
Proof. intros <-. apply findById_save_eq. Qed.

Lemma send_message_ok now me cid b db c rid :
  Store.findById Conversation._id cid (conversations db) = Some c →
  isParticipant me c = true →
  Conversation.mutedFor me c = false →
  recipient_for me c = Some rid →
  String.length (JS.trim (JS.or_empty (text b))) ≤ 1000 →
  send_message now me cid b db
  = (Error 500 "Server error",
     save_conversation (sent_conversation now rid c db)
       (save_message (sent_message now me cid rid b db) (fresh db))).
Proof.
  intros Hc Hp Hm Hr Hlen. unfold send_message.
  rewrite Hc, Hp, Hm. cbn [negb]. rewrite Hr. cbv zeta.
  fold (sent_message now me cid rid b db).
  destruct (sent_message_fields now me cid rid b db) as (Hid & _ & _ & _ & _ & Hbody & _).
  assert (Hv : Message.validate (sent_message now me cid rid b db) = true).
  { unfold Message.validate. apply bool_decide_eq_true_2. by rewrite Hbody. }
  rewrite Hv, Hid. cbn [negb]. unfold sent_conversation.
  change (Conversation.isGroup (Conversation.updateLastMessage (nextId db) now c))
    with (Conversation.isGroup c).
  destruct (Conversation.isGroup c); [done|].
  f_equal. unfold save_conversation. cbn [users conversations messages nextId].
  f_equal. apply save_save.
  by rewrite (proj1 (incrementUnreadCount_frame _ _)).
Qed.

(** A send is refused without a write, or it passes every check. *)
Lemma send_message_cases now me cid b db :
  (send_message now me cid b db).2 = db
  ∨ ∃ c rid,
      Store.findById Conversation._id cid (conversations db) = Some c
      ∧ isParticipant me c = true
      ∧ Conversation.mutedFor me c = false
      ∧ recipient_for me c = Some rid
      ∧ String.length (JS.trim (JS.or_empty (text b))) ≤ 1000.
Proof.
  unfold send_message.
  destruct (Store.findById _ _ _) as [c|] eqn:Hc; [|by left].
  destruct (isParticipant me c) eqn:Hp; [|by left]. cbn [negb].
  destruct (Conversation.mutedFor me c) eqn:Hm; [by left|].
  destruct (recipient_for me c) as [rid|] eqn:Hr; [|by left].
  cbv zeta. destruct (Message.validate _) eqn:Hv; [|by left].
  right. exists c, rid. split_and!; try done.
  unfold Message.validate in Hv. apply bool_decide_eq_true_1 in Hv.
  fold (sent_message now me cid rid b db) in Hv.
  by rewrite (proj1 (proj2 (proj2 (proj2 (proj2 (proj2
                (sent_message_fields now me cid rid b db))))))) in Hv.
Qed.

Lemma sent_conversation_id now rid c db :
  Conversation._id (sent_conversation now rid c db) = Conversation._id c.
Proof.
  unfold sent_conversation. destruct (Conversation.isGroup c); [done|].
  by rewrite (proj1 (incrementUnreadCount_frame _ _)).
Qed.

(** Everything a send that passes the checks does. *)
Lemma send_message_effect now me cid b db c rid :
  Store.findById Conversation._id cid (conversations db) = Some c →
  isParticipant me c = true →
  Conversation.mutedFor me c = false →
  recipient_for me c = Some rid →
  String.length (JS.trim (JS.or_empty (text b))) ≤ 1000 →
  (send_message now me cid b db).1 = Error 500 "Server error"
  ∧ Store.findById Conversation._id cid (conversations (send_message now me cid b db).2)
    = Some (sent_conversation now rid c db)
  ∧ Store.findById Message._id (nextId db) (messages (send_message now me cid b db).2)
    = Some (sent_message now me cid rid b db)
  ∧ users (send_message now me cid b db).2 = users db.
Proof.
  intros Hc Hp Hm Hr Hl.
  rewrite (send_message_ok now me cid b db c rid) by done.
  split_and!; try done.
  - unfold save_conversation. cbn [snd conversations]. apply stored_after_save.
    rewrite sent_conversation_id. by eapply findById_key.
  - unfold save_conversation, save_message. cbn [snd messages].
    apply stored_after_save. apply sent_message_fields.
Qed.

(** C4 (the code departs from the claim).  Alice opens a direct
    conversation with bob through POST /conversations and sends "hi" into
    it.  The message, addressed to bob, is stored and the conversation's
    last-message pointer is set to it; but bob's unread count is 0 after the
    send as before it, because the conversation has no counter entry that
    [incrementUnreadCount] could increment.  In the group that alice opens
    with bob and carol her send does not touch a counter either: the route
    increments in direct conversations only. *)
Theorem send_leaves_every_unread_counter_at_zero :
  (∃ m c',
     messages db_sent = [m]
     ∧ Message.sender m = 1 ∧ Message.recipient m = 2
     ∧ Store.findById Conversation._id 100 (conversations db_sent) = Some c'
     ∧ Conversation.participants c' = [1; 2]
     ∧ Conversation.lastMessage c' = Some (Message._id m)
     ∧ Conversation.lastMessageAt c' = 2000%Z
     ∧ Conversation.unreadCounts c' = []
     ∧ unread_in db_direct 100 2 = Some 0
     ∧ unread_in db_sent 100 2 = Some 0)
  ∧ (∃ m c',
       messages (send_message 2000 1 100 (plain "hi") db_trio).2 = [m]
       ∧ Store.findById Conversation._id 100
           (conversations (send_message 2000 1 100 (plain "hi") db_trio).2) = Some c'
       ∧ Conversation.isGroup c' = true
       ∧ Conversation.participants c' = [1; 2; 3]
       ∧ Conversation.lastMessage c' = Some (Message._id m)
       ∧ Conversation.getUnreadCount 2 c' = 0
       ∧ Conversation.getUnreadCount 3 c' = 0).
Proof. split; eexists _, _; split_and!; by vm_compute. Qed.

(** C3 (the code departs from the claim).  The send route has no test on
    the text.  Alice's send of a text of three spaces, without a file, into
    the conversation that she opened with bob is not refused with 400: it
    passes every check, a message of type [text] with the empty text is in
    the collection afterwards, and the answer is 500 "Server error", from
    the serialisation of the stored message. *)
Theorem blank_text_send_is_stored :
  ∃ m db',
    send_message 2000 1 100 (plain "   ") db_direct = (Error 500 "Server error", db')
    ∧ messages db_direct = [] ∧ messages db' = [m]
    ∧ Message.sender m = 1
    ∧ Message.type (Message.content m) = Message.text
    ∧ Message.body (Message.content m) = ""
    ∧ Message.media (Message.content m) = None.
Proof. eexists _, _. split_and!; by vm_compute. Qed.

(** C5 (the code departs from the claim).  Alice mutes the conversation
    that she opened with bob: POST /conversations/:conversationId/mute
    answers 200 "Conversation muted successfully", and the database is as
    before, for the conversation has no settings entry that [muteForUser]
    could set.  Her next send is therefore not refused as sent into a muted
    conversation: it passes the mute check and her message is stored, like
    the message of bob, who has not muted.  (Both sends are answered 500,
    from the serialisation of the stored message.) *)
Theorem mute_route_does_not_stop_the_sender :
  mute_conversation 1 100 db_direct
  = (Reply 200 "Conversation muted successfully", db_direct)
  ∧ (∃ m db',
       send_message 2000 1 100 (plain "hi") db_direct = (Error 500 "Server error", db')
       ∧ messages db' = [m] ∧ Message.sender m = 1
       ∧ Message.body (Message.content m) = "hi")
  ∧ (∃ m db',
       send_message 2000 2 100 (plain "hello") db_direct = (Error 500 "Server error", db')
       ∧ messages db' = [m] ∧ Message.sender m = 2).
Proof. split_and!; [by vm_compute|eexists _, _; split_and!; by vm_compute..]. Qed.

Lemma foldl_save_delivered_conversations me now found db :
  conversations (foldl (save_delivered me now) db found) = conversations db.
Proof.
  revert db. induction found as [|m found IH]; intros db; [done|].
  simpl. rewrite IH. unfold save_delivered.
  by destruct (bool_decide _ && negb _).
Qed.

(** C2 (the code departs from the claim).  Alice opens a direct
    conversation with bob through POST /conversations and sends two messages
    into it; both pass every check and are stored, addressed to bob, and bob
    reads nothing.  Bob's unread count for the conversation is 0 afterwards,
    not 2: the conversation has no counter entry for bob, so that
    [incrementUnreadCount] changes nothing.  (After bob opens the
    conversation the count is 0 as well.) *)
Theorem unread_count_stays_at_zero_after_sends :
  let reqs := [mkSend 2000 1 (plain "one"); mkSend 3000 1 (plain "two")] in
  let db' := (send_each 100 reqs db_direct).2 in
  (Message.sender <$> messages db') = [1; 1]
  ∧ (Message.recipient <$> messages db') = [2; 2]
  ∧ (Message.conversation <$> messages db') = [100; 100]
  ∧ unread_in db_direct 100 2 = Some 0
  ∧ unread_in db' 100 2 = Some 0
  ∧ unread_in (get_conversation 4000 2 100 db').2 100 2 = Some 0.
Proof. intros reqs db'. split_and!; by vm_compute. Qed.

End Send.

(** ** PUT /:messageId *)

Section Edit.
Import Routes Scenario.

Lemma length_zero_iff (s : string) : String.length s = 0 ↔ s = "".
Proof. by destruct s. Qed.

Lemma text_required_passes t :
  JS.trim (JS.or_empty t) ≠ "" →
  JS.falsy t || bool_decide (String.length (JS.trim (JS.or_empty t)) = 0) = false.
Proof.
  intros Ht. apply orb_false_intro.
  - destruct t as [t|]; [|done]. simpl. apply bool_decide_eq_false_2. by intros ->.
  - apply bool_decide_eq_false_2. by rewrite length_zero_iff.
Qed.

Lemma text_required_fails t :
  JS.trim (JS.or_empty t) = "" →
  JS.falsy t || bool_decide (String.length (JS.trim (JS.or_empty t)) = 0) = true.
Proof.
  intros Ht. apply orb_true_intro. right. apply bool_decide_eq_true_2.
  by rewrite Ht.
Qed.

(** C6, as the code has it.  The edit route first requires a new text that
    is not blank: an edit with an absent, empty or white-space-only text is
    answered 400 "Message text is required", whoever sends it and however
    old the message is.  For an existing, not deleted message and a new
    text that is not blank: an edit by anyone but the sender is refused as
    not authorized (403), whatever the age of the message; an edit by the
    sender more than 15 minutes after creation is refused as too old (400),
    whatever the content of the message.  None of these changes the
    database. *)
Theorem edit_is_refused_to_others_and_after_window (now : Date) (me mid : ObjectId)
    (t : option string) (m : Message.t) (db : DB) :
  (JS.trim (JS.or_empty t) = "" →
   edit_message now me mid t db = (Error 400 "Message text is required", db))
  ∧ (JS.trim (JS.or_empty t) ≠ "" →
     Store.findById Message._id mid (messages db) = Some m →
     Message.isDeleted m = false →
     (Message.sender m ≠ me →
      edit_message now me mid t db
      = (Error 403 "Not authorized to edit this message", db))
     ∧ (Message.sender m = me →
        (now - Message.createdAt m > 15 * 60 * 1000)%Z →
        edit_message now me mid t db
        = (Error 400 "Message is too old to edit", db))).
Proof.
  unfold edit_message. split.
  - intros Ht. by rewrite text_required_fails.
  - intros Ht Hm Hd. rewrite text_required_passes by done. rewrite Hm, Hd. split.
    + intros Hne. by rewrite bool_decide_eq_false_2.
    + intros Heq Hold. rewrite bool_decide_eq_true_2 by done. cbn [negb].
      by rewrite bool_decide_eq_true_2.
Qed.

Lemma edit_is_refused_to_others_and_after_window_witness :
  edit_message 3000 2 101 (Some "hey") db_sent
  = (Error 403 "Not authorized to edit this message", db_sent)
  ∧ edit_message (2000 + twenty_minutes) 1 101 (Some "hey") db_sent
    = (Error 400 "Message is too old to edit", db_sent)
  ∧ edit_message (2000 + twenty_minutes) 1 101 None db_sent
    = (Error 400 "Message text is required", db_sent).
Proof.
  destruct (edit_is_refused_to_others_and_after_window 3000 2 101 (Some "hey")
              (sent_message 2000 1 100 2 (plain "hi") db_direct) db_sent) as [_ H403].
  destruct H403 as [H403 _]; [vm_compute; discriminate|by vm_compute|by vm_compute|].
  destruct (edit_is_refused_to_others_and_after_window (2000 + twenty_minutes) 1 101
              (Some "hey") (sent_message 2000 1 100 2 (plain "hi") db_direct) db_sent)
    as [_ H400].
  destruct H400 as [_ H400]; [vm_compute; discriminate|by vm_compute|by vm_compute|].
  destruct (edit_is_refused_to_others_and_after_window (2000 + twenty_minutes) 1 101 None
              (sent_message 2000 1 100 2 (plain "hi") db_direct) db_sent) as [Hblank _].
  split_and!.
  - apply H403. simpl. lia.
  - apply H400; [by vm_compute|]. by vm_compute.
  - apply Hblank. by vm_compute.
Defined.

(** C6 fails as stated: alice's message was created at instant 2000; twenty
    minutes later alice, the sender, edits it with a text of three spaces.
    The answer is 400 "Message text is required", not the refusal for an
    expired edit window. *)
Lemma late_blank_edit_counterexample :
  (Message.sender <$> Store.findById Message._id 101 (messages db_sent)) = Some 1
  ∧ (Message.createdAt <$> Store.findById Message._id 101 (messages db_sent))
    = Some 2000%Z
  ∧ (Message.isDeleted <$> Store.findById Message._id 101 (messages db_sent))
    = Some false
  ∧ ((2000 + twenty_minutes) - 2000 > editTimeLimit)%Z
  ∧ edit_message (2000 + twenty_minutes) 1 101 (Some "   ") db_sent
    = (Error 400 "Message text is required", db_sent)
  ∧ edit_message (2000 + twenty_minutes) 1 101 (Some "   ") db_sent
    ≠ (Error 400 "Message is too old to edit", db_sent).
Proof.
  split_and!; by vm_compute.
Qed.

End Edit.

(** ** GET /conversations/:conversationId/messages *)

Section ListMessages.
Import Routes Scenario.

Global Instance newer_first_total : Total newer_first.
Proof. intros m1 m2. unfold newer_first. lia. Qed.

Global Instance newer_first_trans : Transitive newer_first.
Proof. intros m1 m2 m3. unfold newer_first. lia. Qed.

Lemma StronglySorted_drop {A} (R : relation A) n l :
  StronglySorted R l → StronglySorted R (drop n l).
Proof.
  revert l. induction n as [|n IH]; intros [|x l] Hl; simpl; try done.
  apply IH. by inversion Hl.
Qed.

Lemma StronglySorted_take {A} (R : relation A) n l :
  StronglySorted R l → StronglySorted R (take n l).
Proof.
  revert n. induction l as [|x l IH]; intros [|n] Hl; simpl; try constructor.
  - apply IH. by inversion Hl.
  - apply Forall_take. by inversion Hl.
Qed.

Lemma StronglySorted_limit_to {A} (R : relation A) n l :
  StronglySorted R l → StronglySorted R (limit_to n l).
Proof.
  unfold limit_to. destruct (decide (n = 0)); [done|]. apply StronglySorted_take.
Qed.

Lemma limit_to_subseteq {A} n (l : list A) : limit_to n l ⊆ l.
Proof.
  unfold limit_to. destruct (decide (n = 0)); [done|]. apply subseteq_take.
Qed.

Lemma deliver_frame me now m :
  Message.createdAt (deliver me now m) = Message.createdAt m
  ∧ Message.isDeleted (deliver me now m) = Message.isDeleted m
  ∧ Message.conversation (deliver me now m) = Message.conversation m
  ∧ Message._id (deliver me now m) = Message._id m.
Proof.
  unfold deliver, Message.markAsDelivered.
  destruct (bool_decide _ && negb _); [|done].
  by destruct (Message.isDelivered m).
Qed.

(** The page that the query of the route fetches. *)
Lemma fetched_page cid skip limit db :
  StronglySorted newer_first (fetch_messages cid limit skip db)
  ∧ ∀ m, m ∈ fetch_messages cid limit skip db → m ∈ messages db ∧ listed cid m.
Proof.
  unfold fetch_messages. split.
  - apply StronglySorted_limit_to, StronglySorted_drop.
    apply StronglySorted_merge_sort; apply _.
  - intros m Hm. apply limit_to_subseteq, subseteq_drop in Hm.
    rewrite merge_sort_Permutation in Hm.
    apply list_elem_of_filter in Hm. tauto.
Qed.

(** The list route on a request that passes its checks. *)
Lemma get_messages_accepted now me cid c limit page db :
  Store.findById Conversation._id cid (conversations db) = Some c →
  isParticipant me c = true →
  page ≠ Some 0 →
  get_messages now me cid limit page db
  = (json_populated (users db)
       (populated_in
          (fetch_messages cid (default 50 limit)
             ((default 1 page - 1) * default 50 limit) db))
       200
       (mkPage
          (reverse (deliver me now <$>
                    fetch_messages cid (default 50 limit)
                      ((default 1 page - 1) * default 50 limit) db))
          (mkPagination (default 1 page)
             (ceil_div (length (filter (listed cid) (messages db))) (default 50 limit))
             (bool_decide
                ((default 1 page - 1) * default 50 limit
                 + length (fetch_messages cid (default 50 limit)
                             ((default 1 page - 1) * default 50 limit) db)
                 < length (filter (listed cid) (messages db)))))),
     foldl (save_delivered me now)
       (save_conversation (Conversation.markAsRead me now c) db)
       (fetch_messages cid (default 50 limit)
          ((default 1 page - 1) * default 50 limit) db)).
Proof.
  intros Hc Hp Hpage. unfold get_messages. rewrite Hc, Hp. cbn [negb].
  assert (Hskip : (0 ≤ (Z.of_nat (default 1%nat page) - 1) * Z.of_nat (default 50%nat limit))%Z).
  { destruct page as [[|n]|]; simpl; [done|nia|nia]. }
  rewrite bool_decide_eq_false_2 by lia. cbv zeta.
  assert (Hnat : Z.to_nat ((Z.of_nat (default 1%nat page) - 1) * Z.of_nat (default 50%nat limit))
                 = ((default 1 page - 1) * default 50 limit)%nat) by nia.
  by rewrite !Hnat, length_fmap.
Qed.

(** C9 (the code departs from the claim).  Bob lists the messages of the
    conversation in which alice has sent him "hi".  The query fetches that
    message, which is not deleted; the route does not answer with a page of
    messages in ascending order, but with 500 "Server error": the populated
    sender and recipient of a fetched message cannot be serialised. *)
Theorem listing_stored_messages_answers_500 :
  ∃ c m db',
    Store.findById Conversation._id 100 (conversations db_sent) = Some c
    ∧ isParticipant 2 c = true
    ∧ messages db_sent = [m]
    ∧ Message.conversation m = 100 ∧ Message.isDeleted m = false
    ∧ fetch_messages 100 50 0 db_sent = [m]
    ∧ get_messages 3000 2 100 None None db_sent = (Error 500 "Server error", db').
Proof. eexists _, _, _. split_and!; by vm_compute. Qed.

End ListMessages.

(** ** States the server reaches *)

Section Reachable.
Import Routes Server Scenario.

Lemma Forall_save {A} (key : A → ObjectId) (P : A → Prop) d l :
  Forall P l → P d → Forall P (Store.save key d l).
Proof.
  intros Hl Hd. induction Hl as [|x l Hx Hl IH]; simpl.
  - by constructor.
  - destruct (decide (key x = key d)); by constructor.
Qed.

(** Saving a document whose [_id] is newer than all stored ones appends
    it. *)
Lemma save_new_appends {A} (key : A → ObjectId) d l :
  Forall (λ x, key x < key d) l → Store.save key d l = l ++ [d].
Proof.
  induction 1 as [|x l Hx Hl IH]; simpl; [done|].
  rewrite decide_False by lia. by rewrite IH.
Qed.

Lemma call_id m c : Message._id (Message.call m c) = Message._id m.
Proof.
  unfold Message.call. rewrite pre_save_id. destruct c as [now []]; simpl; try done.
  - unfold Message.markAsRead. by destruct (Message.isRead m).
  - unfold Message.markAsDelivered. by destruct (Message.isDelivered m).
  - unfold Message.edit. by destruct (decide _).
Qed.

(** *** What each route does to the collections *)

Lemma edit_message_touches now me mid t db :
  touches_message db (edit_message now me mid t db).2.
Proof.
  unfold edit_message. repeat case_match; try (by left).
  right. eexists _, (now, Message.Edit _).
  split; [by eapply findById_elem_of|done].
Qed.

Lemma delete_message_touches now me mid db :
  touches_message db (delete_message now me mid db).2.
Proof.
  unfold delete_message. repeat case_match; try (by left).
  right. eexists _, (now, Message.SoftDelete _).
  split; [by eapply findById_elem_of|done].
Qed.

Lemma add_reaction_touches now me mid e db :
  touches_message db (add_reaction now me mid e db).2.
Proof.
  unfold add_reaction. repeat case_match; try (by left).
  right. eexists _, (now, Message.AddReaction _ _).
  split; [by eapply findById_elem_of|done].
Qed.

Lemma remove_reaction_touches now me mid db :
  touches_message db (remove_reaction now me mid db).2.
Proof.
  unfold remove_reaction. repeat case_match; try (by left).
  right. eexists _, (now, Message.RemoveReaction _).
  split; [by eapply findById_elem_of|done].
Qed.

Lemma get_conversation_touches now me cid db :
  touches_conversation db (get_conversation now me cid db).2.
Proof.
  unfold get_conversation. repeat case_match; try (by left).
  right. eexists _, _. split; [by eapply findById_elem_of|]. split; [|done].
  apply markAsRead_frame.
Qed.

Lemma mute_conversation_touches me cid db :
  touches_conversation db (mute_conversation me cid db).2.
Proof.
  unfold mute_conversation. repeat case_match; try (by left).
  right. eexists _, _. split; [by eapply findById_elem_of|]. split; [|done].
  unfold Conversation.muteForUser. by repeat case_match.
Qed.

Lemma unmute_conversation_touches me cid db :
  touches_conversation db (unmute_conversation me cid db).2.
Proof.
  unfold unmute_conversation. repeat case_match; try (by left).
  right. eexists _, _. split; [by eapply findById_elem_of|]. split; [|done].
  unfold Conversation.unmuteForUser. by repeat case_match.
Qed.

(** The list route saves a stored conversation, then marked copies of
    fetched messages. *)
Lemma get_messages_touches now me cid limit page db :
  (get_messages now me cid limit page db).2 = db
  ∨ ∃ db1 found,
      touches_conversation db db1
      ∧ (∀ m, m ∈ found → m ∈ messages db)
      ∧ (get_messages now me cid limit page db).2
        = foldl (save_delivered me now) db1 found.
Proof.
  unfold get_messages. repeat case_match; try (by left).
  right. eexists _, _. split_and!; [|..|done].
  - right. eexists _, _. split; [by eapply findById_elem_of|]. split; [|done].
    apply markAsRead_frame.
  - intros m Hm. by apply fetched_page in Hm as [Hm _].
Qed.

(** A send that is not refused saves a new message under the next
    ObjectId and the conversation under its own. *)
Lemma send_message_touches now me cid b db :
  (send_message now me cid b db).2 = db
  ∨ ∃ c rid,
      c ∈ conversations db
      ∧ (send_message now me cid b db).2
        = save_conversation (sent_conversation now rid c db)
            (save_message (sent_message now me cid rid b db) (fresh db)).
Proof.
  destruct (send_message_cases now me cid b db)
    as [Hs | (c & rid & Hc & Hp & Hm & Hr & Hl)]; [by left|].
  right. exists c, rid. split; [by eapply findById_elem_of|].
  by rewrite (send_message_ok now me cid b db c rid).
Qed.

(** A request to POST /conversations changes nothing or saves a new
    conversation under the next ObjectId. *)
Lemma post_conversations_touches now u b db :
  (post_conversations now u b db).2 = db
  ∨ ∃ c, Conversation._id c = nextId db
         ∧ (post_conversations now u b db).2 = save_conversation c (fresh db).
Proof.
  unfold post_conversations, create_conversation.
  repeat case_match; try (by left); right; eexists; (split; [|reflexivity]); done.
Qed.

(** *** The ObjectIds *)

Lemma ids_below_fresh db : ids_below db → ids_below (fresh db).
Proof.
  intros [Hc Hm]. split; simpl; eapply Forall_impl; eauto; simpl; lia.
Qed.

Lemma ids_below_save_conversation c db :
  ids_below db → Conversation._id c < nextId db → ids_below (save_conversation c db).
Proof. intros [Hc Hm] Hlt. split; simpl; [by apply Forall_save|done]. Qed.

Lemma ids_below_save_message m db :
  ids_below db → Message._id m < nextId db → ids_below (save_message m db).
Proof. intros [Hc Hm] Hlt. split; simpl; [done|by apply Forall_save]. Qed.

Lemma ids_below_conversation db c :
  ids_below db → c ∈ conversations db → Conversation._id c < nextId db.
Proof. intros [Hc _] Hin. rewrite Forall_forall in Hc. by apply Hc. Qed.

Lemma ids_below_message db m :
  ids_below db → m ∈ messages db → Message._id m < nextId db.
Proof. intros [_ Hm] Hin. rewrite Forall_forall in Hm. by apply Hm. Qed.

Lemma touches_message_below db db' :
  ids_below db → touches_message db db' → ids_below db'.
Proof.
  intros Hdb [-> | (m & c & Hm & ->)]; [done|].
  apply ids_below_save_message; [done|]. rewrite call_id.
  by apply ids_below_message.
Qed.

Lemma touches_conversation_below db db' :
  ids_below db → touches_conversation db db' →
  ids_below db' ∧ nextId db' = nextId db ∧ messages db' = messages db.
Proof.
  intros Hdb [-> | (c & c' & Hc & Hid & ->)]; [done|]. split; [|done].
  apply ids_below_save_conversation; [done|]. rewrite Hid.
  by apply ids_below_conversation.
Qed.

Lemma foldl_save_delivered_below me now found db :
  ids_below db → Forall (λ m, Message._id m < nextId db) found →
  ids_below (foldl (save_delivered me now) db found).
Proof.
  intros Hdb Hf. revert db Hdb Hf.
  induction found as [|m found IH]; intros db Hdb Hf; [done|].
  apply Forall_cons in Hf as [Hm Hf]. simpl.
  assert (Hn : nextId (save_delivered me now db m) = nextId db).
  { unfold save_delivered. by destruct (bool_decide _ && negb _). }
  apply IH; [|by rewrite Hn].
  unfold save_delivered. destruct (bool_decide _ && negb _); [|done].
  apply ids_below_save_message; [done|].
  change (Message._id (Message.call m (now, Message.MarkAsDelivered)) < nextId db).
  by rewrite call_id.
Qed.

(** Every request keeps the stored ids below the next ObjectId: a
    document made with [new] is not in its collection yet, and saving it
    appends it. *)
Lemma serve_ids_below db r : ids_below db → ids_below (serve db r).
Proof.
  intros Hdb. destruct r as [now []]; unfold serve; cbn [fst snd].
  - destruct (post_conversations_touches now currentUser b db)
      as [-> | (c & Hid & ->)]; [done|].
    apply ids_below_save_conversation; [by apply ids_below_fresh|].
    rewrite Hid. simpl. lia.
  - by eapply touches_conversation_below, get_conversation_touches.
  - destruct (get_messages_touches now me conversationId limit page db)
      as [-> | (db1 & found & Hdb1 & Hfound & ->)]; [done|].
    destruct (touches_conversation_below db db1 Hdb Hdb1) as (Hb1 & Hn1 & Hm1).
    apply foldl_save_delivered_below; [done|].
    apply Forall_forall. intros m Hm. rewrite Hn1.
    by apply ids_below_message, Hfound.
  - destruct (send_message_touches now me conversationId b db)
      as [-> | (c & rid & Hc & ->)]; [done|].
    apply ids_below_save_conversation.
    + apply ids_below_save_message; [by apply ids_below_fresh|].
      rewrite (proj1 (sent_message_fields _ _ _ _ _ _)). simpl. lia.
    + rewrite sent_conversation_id. simpl.
      pose proof (ids_below_conversation _ _ Hdb Hc). lia.
  - by eapply touches_message_below, edit_message_touches.
  - by eapply touches_message_below, delete_message_touches.
  - by eapply touches_message_below, add_reaction_touches.
  - by eapply touches_message_below, remove_reaction_touches.
  - by eapply touches_conversation_below, mute_conversation_touches.
  - by eapply touches_conversation_below, unmute_conversation_touches.
Qed.

Lemma run_ids_below us first rs : ids_below (run us first rs).
Proof.
  unfold run. assert (H0 : ids_below (init us first)) by (split; constructor).
  revert H0. generalize (init us first).
  induction rs as [|r rs IH]; intros db Hdb; [done|].
  simpl. by apply IH, serve_ids_below.
Qed.

(** In a reachable state the message of a send and the conversation of a
    creation are inserted at the end of their collections. *)
Lemma new_documents_are_appended us first rs (m : Message.t) (c : Conversation.t) :
  Message._id m = nextId (run us first rs) →
  Conversation._id c = nextId (run us first rs) →
  Store.save Message._id m (messages (run us first rs))
  = messages (run us first rs) ++ [m]
  ∧ Store.save Conversation._id c (conversations (run us first rs))
    = conversations (run us first rs) ++ [c].
Proof.
  intros Hm Hc. destruct (run_ids_below us first rs) as [Hcs Hms].
  split; apply save_new_appends; [by rewrite Hm|by rewrite Hc].
Qed.

(** *** The reactions of the stored messages *)

Lemma touches_message_reactions db db' :
  Forall Message.one_reaction_per_user (messages db) →
  touches_message db db' →
  Forall Message.one_reaction_per_user (messages db').
Proof.
  intros Hdb [-> | (m & c & Hm & ->)]; [done|]. cbn [messages save_message].
  apply Forall_save; [done|]. apply call_preserves.
  rewrite Forall_forall in Hdb. by apply Hdb.
Qed.

Lemma foldl_save_delivered_reactions me now found db :
  Forall Message.one_reaction_per_user (messages db) →
  Forall Message.one_reaction_per_user found →
  Forall Message.one_reaction_per_user
    (messages (foldl (save_delivered me now) db found)).
Proof.
  intros Hdb Hf. revert db Hdb.
  induction Hf as [|m found Hm Hf IH]; intros db Hdb; [done|].
  simpl. apply IH. unfold save_delivered.
  destruct (bool_decide _ && negb _); [|done]. cbn [messages save_message].
  apply Forall_save; [done|].
  by apply (call_preserves m (now, Message.MarkAsDelivered)).
Qed.

Lemma serve_reactions db r :
  Forall Message.one_reaction_per_user (messages db) →
  Forall Message.one_reaction_per_user (messages (serve db r)).
Proof.
  intros Hdb. destruct r as [now []]; unfold serve; cbn [fst snd].
  - by destruct (post_conversations_touches now currentUser b db)
      as [-> | (c & Hid & ->)].
  - by destruct (get_conversation_touches now me conversationId db)
      as [-> | (c & c' & _ & _ & ->)].
  - destruct (get_messages_touches now me conversationId limit page db)
      as [-> | (db1 & found & Hdb1 & Hfound & ->)]; [done|].
    assert (Hm1 : messages db1 = messages db).
    { by destruct Hdb1 as [-> | (c & c' & _ & _ & ->)]. }
    apply foldl_save_delivered_reactions; [by rewrite Hm1|].
    apply Forall_forall. intros m Hm.
    rewrite Forall_forall in Hdb. by apply Hdb, Hfound.
  - destruct (send_message_touches now me conversationId b db)
      as [-> | (c & rid & Hc & ->)]; [done|].
    cbn [messages save_conversation save_message fresh].
    apply Forall_save; [done|].
    eapply one_reaction_per_user_ext; [apply pre_save_reactions|].
    intros u. unfold Message.reactionsOf. simpl. lia.
  - by eapply touches_message_reactions, edit_message_touches.
  - by eapply touches_message_reactions, delete_message_touches.
  - by eapply touches_message_reactions, add_reaction_touches.
  - by eapply touches_message_reactions, remove_reaction_touches.
  - by destruct (mute_conversation_touches me conversationId db)
      as [-> | (c & c' & _ & _ & ->)].
  - by destruct (unmute_conversation_touches me conversationId db)
      as [-> | (c & c' & _ & _ & ->)].
Qed.

Lemma run_reactions us first rs :
  Forall Message.one_reaction_per_user (messages (run us first rs)).
Proof.
  unfold run.
  assert (H0 : Forall Message.one_reaction_per_user (messages (init us first)))
    by constructor.
  revert H0. generalize (init us first).
  induction rs as [|r rs IH]; intros db Hdb; [done|].
  simpl. by apply IH, serve_reactions.
Qed.

End Reachable.

Section ReactionsInvariant.
Import Routes Server Message.

(** C8. Every message stored after any sequence of requests to the routes
    has at most one entry per user in [reactions], and so has every message
    reached from [new Message] through method calls; [addReaction] and
    [removeReaction] preserve that invariant; after [addReaction u e], also
    when [u] had reacted before with another emoji, exactly one reaction of
    [u] is recorded and it carries [e], the latest emoji; after
    [removeReaction u] none is. *)
Theorem reactions_at_most_one_per_user (m : Message.t) (u : ObjectId) (e : string)
    (now : Date) :
  (∀ us first rs m0, m0 ∈ messages (run us first rs) → one_reaction_per_user m0)
  ∧ (∀ id at_ cid s r c reply sched calls,
       one_reaction_per_user (foldl call (Message.new id at_ cid s r c reply sched) calls))
  ∧ (one_reaction_per_user m →
     one_reaction_per_user (addReaction u e now m)
     ∧ one_reaction_per_user (removeReaction u m))
  ∧ reactionsOf u (addReaction u e now m) = [mkReaction u e now]
  ∧ getUserReaction u (addReaction u e now m) = Some e
  ∧ (∀ e' now',
       reactionsOf u (addReaction u e' now' (addReaction u e now m))
       = [mkReaction u e' now']
       ∧ getUserReaction u (addReaction u e' now' (addReaction u e now m)) = Some e')
  ∧ reactionsOf u (removeReaction u m) = []
  ∧ hasReactionFrom u (removeReaction u m) = false.
Proof.
  split_and!.
  - intros us first rs m0 Hm0. pose proof (run_reactions us first rs) as Hall.
    rewrite Forall_forall in Hall. by apply Hall.
  - intros id at_ cid s r c reply sched calls.
    assert (H0 : one_reaction_per_user (Message.new id at_ cid s r c reply sched)).
    { intros v. unfold reactionsOf. simpl. lia. }
    revert H0. generalize (Message.new id at_ cid s r c reply sched).
    induction calls as [|c0 calls IH]; intros m0 H0; [done|].
    simpl. apply IH. by apply call_preserves.
  - intros Hm. split; [by apply addReaction_preserves|by apply removeReaction_preserves].
  - apply reactionsOf_addReaction_eq.
  - apply getUserReaction_addReaction.
  - intros e' now'. split;
      [apply reactionsOf_addReaction_eq|apply getUserReaction_addReaction].
  - apply reactionsOf_removeReaction_eq.
  - unfold hasReactionFrom, JS.some. apply bool_decide_eq_false_2.
    rewrite Exists_exists. intros (r & Hr & Hu).
    unfold removeReaction in Hr. simpl in Hr.
    by apply list_elem_of_filter in Hr as [? _].
Qed.

Lemma reactions_at_most_one_per_user_witness :
  let m := addReaction 2 "+1" 10
             (Message.new 7 0 201 1 2 (mkContent text "hi" None) None None) in
  one_reaction_per_user m
  ∧ one_reaction_per_user (addReaction 2 "heart" 20 m)
  ∧ getUserReaction 2 (addReaction 2 "heart" 20 m) = Some "heart".
Proof.
  intros m.
  destruct (reactions_at_most_one_per_user m 2 "heart" 20)
    as (_ & Hall & Hpres & _ & Hget & _).
  assert (Hm : one_reaction_per_user m).
  { apply (Hall 7 0%Z 201 1 2 (mkContent text "hi" None) None None
             [(10%Z, Message.AddReaction 2 "+1")]). }
  split; [exact Hm|]. split; [apply Hpres, Hm|exact Hget].
Defined.

End ReactionsInvariant.

(** * More of the code *)

(** ** Membership and the per-participant entries *)

Section Membership.
Import Conversation.

Lemma find_key_None {A} (key : A → ObjectId) (l : list A) u :
  JS.find (λ x, key x = u) l = None ↔ u ∉ key <$> l.
Proof.
  rewrite find_None, Forall_forall, list_elem_of_fmap. split.
  - intros H (x & -> & Hx). by apply (H x).
  - intros H x Hx Hk. apply H. by exists x.
Qed.

Lemma find_snoc_miss {A} (P : A → Prop) `{!∀ x, Decision (P x)} l x :
  ¬ P x → JS.find P (l ++ [x]) = JS.find P l.
Proof.
  intros Hx. induction l as [|y l IH]; simpl.
  - rewrite find_cons. by rewrite decide_False.
  - rewrite !find_cons. by destruct (decide (P y)).
Qed.

Lemma filter_keys {A} (key : A → ObjectId) (l : list A) u :
  (key <$> filter (λ x, key x ≠ u) l) = filter (λ k, k ≠ u) (key <$> l).
Proof.
  induction l as [|x l IH]; [done|]. rewrite fmap_cons, !filter_cons.
  destruct (decide (key x ≠ u)); rewrite ?fmap_cons; by rewrite IH.
Qed.

Lemma filter_absent_key {A} (key : A → ObjectId) (l : list A) u :
  u ∉ key <$> l → filter (λ x, key x ≠ u) l = l.
Proof.
  induction l as [|x l IH]; [done|]. rewrite fmap_cons, not_elem_of_cons.
  intros [Hx Hl]. rewrite filter_cons_True by done. by rewrite IH.
Qed.

Lemma insert_found_keys {A} (key : A → ObjectId) (l : list A) r i d d' :
  list_find (λ x, key x = r) l = Some (i, d) → key d' = key d →
  (key <$> <[i:=d']> l) = (key <$> l).
Proof.
  intros (Hi & _ & _)%list_find_Some Hk.
  rewrite list_fmap_insert, Hk. apply list_insert_id.
  by rewrite list_lookup_fmap, Hi.
Qed.

Lemma record_eta (c : Conversation.t) :
  set_participantSettings (participantSettings c)
    (set_unreadCounts (unreadCounts c) (set_participants (participants c) c)) = c.
Proof. by destruct c. Qed.

Lemma includes_true x l : JS.includes x l = true ↔ x ∈ l.
Proof. unfold JS.includes. apply bool_decide_eq_true. Qed.

Lemma includes_false x l : JS.includes x l = false ↔ x ∉ l.
Proof. unfold JS.includes. apply bool_decide_eq_false. Qed.

Lemma addParticipant_entries_match u now c :
  entries_match c → entries_match (addParticipant u now c).
Proof.
  intros [Hu Hs]. unfold addParticipant.
  destruct (JS.includes u (participants c)); [done|].
  split; simpl; rewrite fmap_app; simpl; congruence.
Qed.

Lemma removeParticipant_entries_match u c :
  entries_match c → entries_match (removeParticipant u c).
Proof.
  intros [Hu Hs]. unfold removeParticipant.
  split; simpl; rewrite filter_keys; congruence.
Qed.

(** X1. [addParticipant] of a user who is not a participant appends the
    user, and in a conversation whose entries match its participants the
    user then has the unread count 0 and is neither muted nor pinned; the
    unread counts of all other users are as before; the entries still match
    the participants; and adding the user once more, or adding somebody who
    is a participant already, changes nothing. *)
Theorem addParticipant_gives_a_zeroed_entry (u : ObjectId) (now now' : Date)
    (c : Conversation.t) :
  (u ∈ participants c → addParticipant u now c = c)
  ∧ (u ∉ participants c →
     participants (addParticipant u now c) = participants c ++ [u]
     ∧ addParticipant u now' (addParticipant u now c) = addParticipant u now c
     ∧ (∀ v, v ≠ u →
          getUnreadCount v (addParticipant u now c) = getUnreadCount v c
          ∧ settingOf v (addParticipant u now c) = settingOf v c)
     ∧ (entries_match c →
        entries_match (addParticipant u now c)
        ∧ getUnreadCount u (addParticipant u now c) = 0
        ∧ JS.find (λ d, ud_user d = u) (unreadCounts (addParticipant u now c))
          = Some (mkUnread u 0 now)
        ∧ mutedFor u (addParticipant u now c) = false)).
Proof.
  split.
  - intros Hin%includes_true. unfold addParticipant. by rewrite Hin.
  - intros Hnot. pose proof (proj2 (includes_false _ _) Hnot) as Hinc.
    assert (Hadd : addParticipant u now c
                   = set_participantSettings
                       (participantSettings c ++
                          [mkSetting u false false false (mkNotif true true true)])
                       (set_unreadCounts (unreadCounts c ++ [mkUnread u 0 now])
                          (set_participants (participants c ++ [u]) c))).
    { unfold addParticipant. by rewrite Hinc. }
    split_and!.
    + by rewrite Hadd.
    + unfold addParticipant at 1. rewrite Hadd at 1. simpl.
      assert (JS.includes u (participants c ++ [u]) = true) as ->; [|done].
      apply includes_true, elem_of_app. right. apply list_elem_of_here.
    + intros v Hv. rewrite Hadd. unfold getUnreadCount, settingOf. simpl.
      rewrite !find_snoc_miss by (simpl; congruence). done.
    + intros [Hu Hs].
      assert (Hfu : JS.find (λ d, ud_user d = u) (unreadCounts c) = None).
      { apply find_key_None. by rewrite Hu. }
      assert (Hfs : JS.find (λ s, ps_user s = u) (participantSettings c) = None).
      { apply find_key_None. by rewrite Hs. }
      split_and!.
      * by apply addParticipant_entries_match.
      * rewrite Hadd. unfold getUnreadCount. simpl.
        rewrite find_app_skip by done. rewrite find_cons. by rewrite decide_True.
      * rewrite Hadd. simpl.
        rewrite find_app_skip by done. rewrite find_cons. by rewrite decide_True.
      * rewrite Hadd. unfold mutedFor. simpl.
        rewrite find_app_skip by done. rewrite find_cons. by rewrite decide_True.
Qed.

Lemma addParticipant_gives_a_zeroed_entry_witness :
  let c := Scenario.with_entries 201 false [1; 2] in
  (3 ∉ participants c)
  ∧ entries_match c
  ∧ participants (addParticipant 3 50 c) = [1; 2; 3]
  ∧ getUnreadCount 3 (addParticipant 3 50 c) = 0
  ∧ addParticipant 1 50 c = c.
Proof.
  intros c.
  destruct (addParticipant_gives_a_zeroed_entry 3 50 60 c) as [_ Hnew].
  destruct (addParticipant_gives_a_zeroed_entry 1 50 60 c) as [Hold _].
  assert (Hnot : 3 ∉ participants c).
  { apply (bool_decide_unpack _). by vm_compute. }
  assert (Hm : entries_match c) by (by vm_compute).
  destruct (Hnew Hnot) as (Hp & _ & _ & He).
  destruct (He Hm) as (_ & H0 & _).
  split_and!; [exact Hnot|exact Hm|exact Hp|exact H0|].
  apply Hold. apply (bool_decide_unpack _). by vm_compute.
Defined.

(** X2. [removeParticipant] takes the user out of the participants, the
    unread counters and the settings, whatever was there; the membership,
    counts and settings of every other user are untouched and matching
    entries stay matching.  It undoes [addParticipant]: in a conversation
    whose entries match its participants, removing a user who was just added
    gives the conversation back. *)
Theorem removeParticipant_erases_the_user (u : ObjectId) (now : Date)
    (c : Conversation.t) :
  (u ∉ participants (removeParticipant u c))
  ∧ JS.find (λ d, ud_user d = u) (unreadCounts (removeParticipant u c)) = None
  ∧ settingOf u (removeParticipant u c) = None
  ∧ getUnreadCount u (removeParticipant u c) = 0
  ∧ (∀ v, v ≠ u →
       (v ∈ participants (removeParticipant u c) ↔ v ∈ participants c)
       ∧ getUnreadCount v (removeParticipant u c) = getUnreadCount v c
       ∧ settingOf v (removeParticipant u c) = settingOf v c)
  ∧ (entries_match c → entries_match (removeParticipant u c))
  ∧ (entries_match c → u ∉ participants c →
     removeParticipant u (addParticipant u now c) = c).
Proof.
  assert (Hfu : JS.find (λ d, ud_user d = u) (unreadCounts (removeParticipant u c)) = None).
  { apply find_None, Forall_forall. intros d Hd.
    unfold removeParticipant in Hd. simpl in Hd.
    by apply list_elem_of_filter in Hd as [? _]. }
  split_and!.
  - unfold removeParticipant. simpl. rewrite list_elem_of_filter. tauto.
  - done.
  - apply find_None, Forall_forall. intros d Hd.
    unfold removeParticipant in Hd. simpl in Hd.
    by apply list_elem_of_filter in Hd as [? _].
  - unfold getUnreadCount. by rewrite Hfu.
  - intros v Hv. split_and!.
    + unfold removeParticipant. simpl. rewrite list_elem_of_filter. tauto.
    + unfold getUnreadCount, removeParticipant. simpl. f_equal.
      induction (unreadCounts c) as [|d l IH]; [done|].
      rewrite filter_cons, find_cons. destruct (decide (ud_user d ≠ u)) as [Hd|Hd].
      * rewrite find_cons. by destruct (decide (ud_user d = v)).
      * apply dec_stable in Hd. by rewrite decide_False by congruence.
    + unfold settingOf, removeParticipant. simpl.
      induction (participantSettings c) as [|d l IH]; [done|].
      rewrite filter_cons, find_cons. destruct (decide (ps_user d ≠ u)) as [Hd|Hd].
      * rewrite find_cons. by destruct (decide (ps_user d = v)).
      * apply dec_stable in Hd. by rewrite decide_False by congruence.
  - apply removeParticipant_entries_match.
  - intros [Hu Hs] Hnot. unfold addParticipant.
    rewrite (proj2 (includes_false _ _) Hnot). unfold removeParticipant. simpl.
    rewrite !filter_app. simpl.
    rewrite (filter_cons_False (λ id, id ≠ u)) by (intros H; by apply H).
    rewrite (filter_cons_False (λ d, ud_user d ≠ u)) by (intros H; by apply H).
    rewrite (filter_cons_False (λ s, ps_user s ≠ u)) by (intros H; by apply H).
    rewrite !filter_nil, !app_nil_r.
    rewrite (filter_absent_key ud_user) by (by rewrite Hu).
    rewrite (filter_absent_key ps_user) by (by rewrite Hs).
    rewrite (filter_absent_key id) by (by rewrite list_fmap_id).
    by destruct c.
Qed.

Lemma removeParticipant_erases_the_user_witness :
  let c := Scenario.with_entries 201 false [1; 2] in
  removeParticipant 3 (addParticipant 3 50 c) = c
  ∧ participants (removeParticipant 2 c) = [1].
Proof.
  intros c.
  destruct (removeParticipant_erases_the_user 3 50 c) as (_ & _ & _ & _ & _ & _ & Hrt).
  split; [|by vm_compute].
  apply Hrt; [by vm_compute|].
  apply (bool_decide_unpack _). by vm_compute.
Defined.

End Membership.

(** ** The settings of a participant *)

Section Settings.
Import Conversation.

Lemma list_find_insert_found {A} (key : A → ObjectId) (l : list A) r i d d' :
  list_find (λ x, key x = r) l = Some (i, d) → key d' = key d →
  list_find (λ x, key x = r) (<[i:=d']> l) = Some (i, d').
Proof.
  intros Hf Hk. pose proof Hf as (Hi & Hr & Hleast)%list_find_Some.
  apply list_find_Some. split_and!.
  - apply list_lookup_insert_eq. by eapply lookup_lt_Some.
  - congruence.
  - intros j y Hj Hlt. rewrite list_lookup_insert_ne in Hj by lia. eauto.
Qed.

(** The toggles are assignments to the found entry. *)
Lemma toggles_assign u c :
  muteForUser u c = assignSetting (set_isMuted true) u c
  ∧ unmuteForUser u c = assignSetting (set_isMuted false) u c
  ∧ pinForUser u c = assignSetting (set_isPinned true) u c
  ∧ unpinForUser u c = assignSetting (set_isPinned false) u c.
Proof. done. Qed.

Section Assign.
Context (f g : ParticipantSetting → ParticipantSetting).
Context (Hf : ∀ s, ps_user (f s) = ps_user s).

Lemma settingOf_assignSetting u v c :
  settingOf v (assignSetting f u c)
  = if decide (v = u) then f <$> settingOf u c else settingOf v c.
Proof.
  unfold assignSetting, settingOf.
  destruct (list_find _ (participantSettings c)) as [[i s]|] eqn:Hfind.
  - simpl. rewrite (find_insert_key ps_user _ u v i s) by done.
    destruct (decide (v = u)) as [->|]; [|done].
    by rewrite (find_list_find _ _ _ _ Hfind).
  - apply find_list_find_None in Hfind.
    destruct (decide (v = u)) as [->|]; [by rewrite Hfind|done].
Qed.

Lemma assignSetting_twice u c :
  assignSetting g u (assignSetting f u c) = assignSetting (g ∘ f) u c.
Proof.
  unfold assignSetting at 2 3.
  destruct (list_find _ (participantSettings c)) as [[i s]|] eqn:Hfind.
  - unfold assignSetting. simpl.
    rewrite (list_find_insert_found ps_user _ u i s (f s)) by done.
    simpl. by rewrite list_insert_insert_eq.
  - unfold assignSetting. by rewrite Hfind.
Qed.

Lemma assignSetting_ext u c :
  (∀ s, settingOf u c = Some s → f s = g s) →
  assignSetting f u c = assignSetting g u c.
Proof.
  unfold assignSetting, settingOf. intros Hfg.
  destruct (list_find _ (participantSettings c)) as [[i s]|] eqn:Hfind; [|done].
  rewrite (find_list_find _ _ _ _ Hfind) in Hfg. by rewrite (Hfg s).
Qed.

Lemma assignSetting_id u c :
  (∀ s, settingOf u c = Some s → f s = s) → assignSetting f u c = c.
Proof.
  unfold assignSetting, settingOf. intros Hid.
  destruct (list_find _ (participantSettings c)) as [[i s]|] eqn:Hfind; [|done].
  rewrite (find_list_find _ _ _ _ Hfind) in Hid. rewrite (Hid s) by done.
  apply list_find_Some in Hfind as (Hi & _).
  rewrite list_insert_id by done. by destruct c.
Qed.

End Assign.

Lemma muteForUser_idempotent u c : muteForUser u (muteForUser u c) = muteForUser u c.
Proof.
  destruct (toggles_assign u c) as (-> & _).
  destruct (toggles_assign u (assignSetting (set_isMuted true) u c)) as (-> & _).
  by rewrite assignSetting_twice.
Qed.

Lemma pinForUser_idempotent u c : pinForUser u (pinForUser u c) = pinForUser u c.
Proof.
  destruct (toggles_assign u c) as (_ & _ & -> & _).
  destruct (toggles_assign u (assignSetting (set_isPinned true) u c)) as (_ & _ & -> & _).
  by rewrite assignSetting_twice.
Qed.

Lemma unmute_undoes_mute u c :
  mutedFor u c = false → unmuteForUser u (muteForUser u c) = c.
Proof.
  intros Hm. destruct (toggles_assign u c) as (-> & _).
  destruct (toggles_assign u (assignSetting (set_isMuted true) u c)) as (_ & -> & _).
  rewrite assignSetting_twice by done. apply assignSetting_id.
  intros s Hs. unfold mutedFor in Hm. unfold settingOf in Hs. rewrite Hs in Hm.
  destruct s; unfold compose, set_isMuted; simpl in *; congruence.
Qed.

Lemma unpin_undoes_pin u c :
  (∀ s, settingOf u c = Some s → isPinned s = false) →
  unpinForUser u (pinForUser u c) = c.
Proof.
  intros Hp. destruct (toggles_assign u c) as (_ & _ & -> & _).
  destruct (toggles_assign u (assignSetting (set_isPinned true) u c))
    as (_ & _ & _ & ->).
  rewrite assignSetting_twice by done. apply assignSetting_id.
  intros s Hs. specialize (Hp s Hs).
  destruct s; unfold compose, set_isPinned; simpl in *; congruence.
Qed.

(** X3. The toggles [muteForUser], [unmuteForUser], [pinForUser] and
    [unpinForUser] change one flag of the settings entry of the given user
    and nothing else: the settings read for every other user are as before,
    and for the user itself only [isMuted] (or only [isPinned]) differs.
    Each is idempotent, and unmuting (unpinning) undoes muting (pinning) of
    a conversation that was not muted (pinned) for the user. *)
Theorem setting_toggles_are_scoped_and_undone (u v : ObjectId) (c : Conversation.t) :
  settingOf v (muteForUser u c)
  = (if decide (v = u) then set_isMuted true <$> settingOf u c else settingOf v c)
  ∧ settingOf v (unmuteForUser u c)
    = (if decide (v = u) then set_isMuted false <$> settingOf u c else settingOf v c)
  ∧ settingOf v (pinForUser u c)
    = (if decide (v = u) then set_isPinned true <$> settingOf u c else settingOf v c)
  ∧ settingOf v (unpinForUser u c)
    = (if decide (v = u) then set_isPinned false <$> settingOf u c else settingOf v c)
  ∧ muteForUser u (muteForUser u c) = muteForUser u c
  ∧ pinForUser u (pinForUser u c) = pinForUser u c
  ∧ (mutedFor u c = false → unmuteForUser u (muteForUser u c) = c)
  ∧ ((∀ s, settingOf u c = Some s → isPinned s = false) →
     unpinForUser u (pinForUser u c) = c).
Proof.
  split_and!.
  - by apply settingOf_assignSetting.
  - by apply settingOf_assignSetting.
  - by apply settingOf_assignSetting.
  - by apply settingOf_assignSetting.
  - apply muteForUser_idempotent.
  - apply pinForUser_idempotent.
  - apply unmute_undoes_mute.
  - apply unpin_undoes_pin.
Qed.

Lemma setting_toggles_are_scoped_and_undone_witness :
  let c := Scenario.with_entries 201 false [1; 2] in
  mutedFor 1 c = false
  ∧ mutedFor 1 (muteForUser 1 c) = true
  ∧ unmuteForUser 1 (muteForUser 1 c) = c
  ∧ unpinForUser 1 (pinForUser 1 c) = c.
Proof.
  intros c.
  destruct (setting_toggles_are_scoped_and_undone 1 1 c)
    as (_ & _ & _ & _ & _ & _ & Hmute & Hpin).
  split_and!; [by vm_compute|by vm_compute|..].
  - apply Hmute. by vm_compute.
  - apply Hpin. intros s Hs. vm_compute in Hs. by injection Hs as <-.
Defined.

End Settings.

(** ** Archiving *)

Section Archive.
Import Conversation Routes.

Lemma archiveForUser_assign u now c :
  archiveForUser u now c
  = set_archivedBy (archivedBy c ++ [(u, now)])
      (assignSetting (set_isArchived true) u c).
Proof. done. Qed.

Lemma unarchiveForUser_assign u c :
  unarchiveForUser u c
  = set_archivedBy (filter (λ archive, archive.1 ≠ u) (archivedBy c))
      (assignSetting (set_isArchived false) u c).
Proof. done. Qed.

Lemma assignSetting_frame f u c :
  let c' := assignSetting f u c in
  _id c' = _id c ∧ participants c' = participants c ∧ isDeleted c' = isDeleted c
  ∧ archivedBy c' = archivedBy c ∧ unreadCounts c' = unreadCounts c.
Proof. unfold assignSetting. by destruct (list_find _ _) as [[i s]|]. Qed.

Lemma assignSetting_set_archivedBy f u a c :
  assignSetting f u (set_archivedBy a c) = set_archivedBy a (assignSetting f u c).
Proof.
  unfold assignSetting. simpl. by destruct (list_find _ _) as [[i s]|].
Qed.

Lemma filter_all {A} (P : A → Prop) `{!∀ x, Decision (P x)} (l : list A) :
  Forall P l → filter P l = l.
Proof.
  induction 1 as [|x l Hx Hl IH]; [done|].
  rewrite filter_cons_True by done. by rewrite IH.
Qed.

Lemma in_inbox_set_archivedBy v a c c' :
  participants c' = participants c → isDeleted c' = isDeleted c →
  in_inbox v (set_archivedBy a c')
  ↔ v ∈ participants c ∧ isDeleted c ≠ true ∧ Forall (λ archive, archive.1 ≠ v) a.
Proof. intros Hp Hd. unfold in_inbox. simpl. by rewrite Hp, Hd. Qed.

Lemma unarchive_after_archive u now c :
  unarchiveForUser u (archiveForUser u now c) = unarchiveForUser u c.
Proof.
  rewrite (unarchiveForUser_assign u (archiveForUser u now c)).
  rewrite archiveForUser_assign, unarchiveForUser_assign.
  rewrite assignSetting_set_archivedBy, assignSetting_twice by done.
  cbn [archivedBy set_archivedBy].
  rewrite filter_app, filter_cons_False, filter_nil, app_nil_r by (simpl; tauto).
  rewrite (assignSetting_ext (set_isArchived false ∘ set_isArchived true)
             (set_isArchived false)) by done.
  by destruct (assignSetting (set_isArchived false) u c).
Qed.

(** X4. [archiveForUser] takes the conversation out of the user's
    conversation list (the query of GET /conversations), whoever the user is
    and whatever the document holds, and [unarchiveForUser] puts it back
    whenever the user is a participant and the conversation is not deleted;
    neither changes what any other user sees.  Archiving is not idempotent,
    every call pushes one more record on [archivedBy]; unarchiving removes
    them all, so that it undoes any archiving of a conversation that was in
    the user's list. *)
Theorem archive_hides_and_unarchive_restores (u v : ObjectId) (now : Date)
    (c : Conversation.t) :
  ¬ in_inbox u (archiveForUser u now c)
  ∧ (in_inbox u (unarchiveForUser u c) ↔ u ∈ participants c ∧ isDeleted c ≠ true)
  ∧ (v ≠ u →
     (in_inbox v (archiveForUser u now c) ↔ in_inbox v c)
     ∧ (in_inbox v (unarchiveForUser u c) ↔ in_inbox v c)
     ∧ settingOf v (archiveForUser u now c) = settingOf v c
     ∧ settingOf v (unarchiveForUser u c) = settingOf v c)
  ∧ length (archivedBy (archiveForUser u now c)) = S (length (archivedBy c))
  ∧ unarchiveForUser u (archiveForUser u now c) = unarchiveForUser u c
  ∧ (in_inbox u c → (∀ s, settingOf u c = Some s → isArchived s = false) →
     unarchiveForUser u (archiveForUser u now c) = c).
Proof.
  destruct (assignSetting_frame (set_isArchived true) u c) as (_ & HpT & HdT & HaT & _).
  destruct (assignSetting_frame (set_isArchived false) u c) as (_ & HpF & HdF & HaF & _).
  split_and!.
  - rewrite archiveForUser_assign, in_inbox_set_archivedBy by done.
    rewrite Forall_app, Forall_singleton. simpl. tauto.
  - rewrite unarchiveForUser_assign, in_inbox_set_archivedBy by done.
    split; [tauto|]. intros [Hp Hd]. split_and!; [done..|].
    apply Forall_forall. by intros a [? _]%list_elem_of_filter.
  - intros Hv. split_and!.
    + rewrite archiveForUser_assign, in_inbox_set_archivedBy by done.
      unfold in_inbox. rewrite Forall_app, Forall_singleton. simpl.
      intuition congruence.
    + rewrite unarchiveForUser_assign, in_inbox_set_archivedBy by done.
      unfold in_inbox. rewrite !Forall_forall.
      split; intros (Hp & Hd & Ha); (split_and!; [done..|]).
      * intros a Ha'. destruct (decide (a.1 = u)) as [Hau|Hau]; [congruence|].
        apply Ha, list_elem_of_filter. done.
      * intros a [_ Ha']%list_elem_of_filter. by apply Ha.
    + rewrite archiveForUser_assign.
      change (settingOf v (assignSetting (set_isArchived true) u c) = settingOf v c).
      rewrite settingOf_assignSetting by done. by rewrite decide_False.
    + rewrite unarchiveForUser_assign.
      change (settingOf v (assignSetting (set_isArchived false) u c) = settingOf v c).
      rewrite settingOf_assignSetting by done. by rewrite decide_False.
  - rewrite archiveForUser_assign. cbn [archivedBy set_archivedBy].
    rewrite length_app. simpl. lia.
  - apply unarchive_after_archive.
  - intros (_ & _ & Ha) Hs. rewrite unarchive_after_archive, unarchiveForUser_assign.
    rewrite filter_all by done.
    rewrite assignSetting_id; [by destruct c|].
    intros s Hfind. specialize (Hs s Hfind).
    destruct s; unfold set_isArchived; simpl in *; congruence.
Qed.

Lemma archive_hides_and_unarchive_restores_witness :
  let c := Scenario.with_entries 201 false [1; 2] in
  in_inbox 1 c
  ∧ ¬ in_inbox 1 (archiveForUser 1 50 c)
  ∧ in_inbox 2 (archiveForUser 1 50 c)
  ∧ unarchiveForUser 1 (archiveForUser 1 50 c) = c.
Proof.
  intros c.
  destruct (archive_hides_and_unarchive_restores 1 2 50 c)
    as (Hhide & _ & Hother & _ & _ & Hundo).
  assert (Hin : in_inbox 1 c) by (apply (bool_decide_unpack _); by vm_compute).
  split_and!; [done|done|..].
  - apply Hother; [lia|]. apply (bool_decide_unpack _). by vm_compute.
  - apply Hundo; [done|]. intros s Hs. vm_compute in Hs. by injection Hs as <-.
Defined.

End Archive.

(** ** The admins of a group *)

Section Admins.
Import Conversation.

Lemma isAdmin_true u c :
  isAdmin u c = true ↔ isGroup c = true ∧ u ∈ admins (groupInfo c).
Proof.
  unfold isAdmin. destruct (isGroup c); [|intuition congruence].
  rewrite some_true. split.
  - by intros (x & Hx & ->).
  - intros [_ Hu]. by exists u.
Qed.

Lemma isAdmin_false u c :
  isAdmin u c = false ↔ isGroup c = false ∨ u ∉ admins (groupInfo c).
Proof.
  rewrite <- not_true_iff_false, isAdmin_true. destruct (isGroup c).
  - split; [intros H; right; intros Hu; by apply H|].
    intros [?|?] [_ ?]; done.
  - split; [by left|]. by intros _ [? _].
Qed.

Lemma set_admins_same c : set_admins (admins (groupInfo c)) c = c.
Proof. by destruct c as [? ? ? [] ? ? ? ? ? ? ? ? ?]. Qed.

(** X5. Admins exist in groups only: in a direct conversation nobody is an
    admin and [addAdmin] and [removeAdmin] change nothing.  In a group,
    [addAdmin] makes the user an admin (participant or not) and
    [removeAdmin] ends it, without a change for anybody else; [addAdmin]
    never enters a user twice, and [removeAdmin] undoes the [addAdmin] of a
    user who was no admin. *)
Theorem admins_of_a_group (u v : ObjectId) (c : Conversation.t) :
  (isGroup c = false → isAdmin u c = false ∧ addAdmin u c = c ∧ removeAdmin u c = c)
  ∧ (isGroup c = true →
     isAdmin u (addAdmin u c) = true
     ∧ isAdmin u (removeAdmin u c) = false
     ∧ (v ≠ u → isAdmin v (addAdmin u c) = isAdmin v c
                ∧ isAdmin v (removeAdmin u c) = isAdmin v c)
     ∧ addAdmin u (addAdmin u c) = addAdmin u c
     ∧ (NoDup (admins (groupInfo c)) → NoDup (admins (groupInfo (addAdmin u c))))
     ∧ (isAdmin u c = false → removeAdmin u (addAdmin u c) = c))
  ∧ participants (addAdmin u c) = participants c
  ∧ participants (removeAdmin u c) = participants c.
Proof.
  split_and!.
  - intros Hg. unfold addAdmin, removeAdmin, isAdmin. by rewrite Hg.
  - intros Hg.
    assert (Hadd : ∀ w, isAdmin w (addAdmin u c) = true
                        ↔ w = u ∨ isAdmin w c = true).
    { intros w. unfold addAdmin. rewrite Hg. simpl.
      destruct (isAdmin u c) eqn:Hu; simpl.
      - split; [by right|]. by intros [->|?].
      - rewrite !isAdmin_true. simpl. rewrite elem_of_app, list_elem_of_singleton.
        rewrite !Hg. tauto. }
    assert (Hrem : ∀ w, isAdmin w (removeAdmin u c) = true
                        ↔ w ≠ u ∧ isAdmin w c = true).
    { intros w. unfold removeAdmin. rewrite Hg, !isAdmin_true. simpl.
      rewrite list_elem_of_filter, !Hg. tauto. }
    split_and!.
    + apply Hadd. by left.
    + apply not_true_iff_false. rewrite Hrem. by intros [? _].
    + intros Hv. split.
      * destruct (isAdmin v c) eqn:Hvc.
        -- apply Hadd. by right.
        -- apply not_true_iff_false. rewrite Hadd. intros [?|?]; congruence.
      * destruct (isAdmin v c) eqn:Hvc.
        -- by apply Hrem.
        -- apply not_true_iff_false. rewrite Hrem. intros [_ ?]; congruence.
    + assert (Hu : isAdmin u (addAdmin u c) = true) by (apply Hadd; by left).
      assert (Hg' : isGroup (addAdmin u c) = true)
        by (pose proof (proj1 (isAdmin_true _ _) Hu) as [? _]; done).
      unfold addAdmin at 1. by rewrite Hg', Hu.
    + intros Hnd. unfold addAdmin. rewrite Hg. simpl.
      destruct (isAdmin u c) eqn:Hu; simpl; [done|].
      apply isAdmin_false in Hu as [Hu|Hu]; [congruence|].
      apply NoDup_app. split_and!; [done| |apply NoDup_singleton].
      intros x Hx Hxu%list_elem_of_singleton. by subst.
    + intros Hu. unfold addAdmin. rewrite Hg, Hu. simpl.
      unfold removeAdmin. simpl. rewrite Hg.
      apply isAdmin_false in Hu as [Hu|Hu]; [congruence|].
      rewrite filter_app, filter_cons_False, filter_nil, app_nil_r
        by (intros H; by apply H).
      rewrite filter_all; [|apply Forall_forall; intros x Hx Hxu; by subst].
      destruct c as [? ? ? [] ? ? ? ? ? ? ? ? ?]. done.
  - unfold addAdmin. by destruct (isGroup c && negb (isAdmin u c)).
  - unfold removeAdmin. by destruct (isGroup c).
Qed.

Lemma admins_of_a_group_witness :
  let c := Scenario.with_entries 200 true [1; 2; 3] in
  isAdmin 2 c = false
  ∧ isAdmin 2 (addAdmin 2 c) = true
  ∧ removeAdmin 2 (addAdmin 2 c) = c
  ∧ isAdmin 1 (Scenario.with_entries 201 false [1; 2]) = false.
Proof.
  intros c.
  destruct (admins_of_a_group 2 1 c) as (_ & Hgroup & _).
  destruct Hgroup as (Hadd & _ & _ & _ & _ & Hundo); [by vm_compute|].
  destruct (admins_of_a_group 1 1 (Scenario.with_entries 201 false [1; 2]))
    as (Hdirect & _).
  destruct Hdirect as (Hno & _); [by vm_compute|].
  split_and!; [by vm_compute|done|by apply Hundo; vm_compute|done].
Defined.

End Admins.

(** ** The life of a message *)

Section MessageLife.
Import Message.

Lemma keeps_refl m : keeps m m.
Proof. unfold keeps. by split_and!. Qed.

Lemma keeps_trans m1 m2 m3 : keeps m1 m2 → keeps m2 m3 → keeps m1 m3.
Proof.
  unfold keeps.
  intros (Hi & Hc & Hs & Hr & Hca & Hrt & Hrd & Hdl & Hdel & Hed & Hh & Hsc)
         (Hi' & Hc' & Hs' & Hr' & Hca' & Hrt' & Hrd' & Hdl' & Hdel' & Hed' & Hh' & Hsc').
  split_and!; try congruence.
  - intros H. destruct (Hrd H) as [H1 H2]. destruct (Hrd' H1) as [H3 H4].
    split; congruence.
  - intros H. destruct (Hdl H) as [H1 H2]. destruct (Hdl' H1) as [H3 H4].
    split; congruence.
  - auto.
  - auto.
  - by etrans.
  - auto.
Qed.

Lemma keeps_pre_save now m : keeps m (pre_save now m).
Proof.
  unfold pre_save. destruct (scheduledFor m); [|apply keeps_refl].
  destruct (isScheduled m && _); [|apply keeps_refl].
  unfold keeps. by split_and!.
Qed.

Lemma keeps_call m c : keeps m (call m c).
Proof.
  unfold call. eapply keeps_trans; [|apply keeps_pre_save].
  destruct c as [now []]; cbn [fst snd].
  - unfold markAsRead. destruct (isRead m) eqn:Hr; [apply keeps_refl|].
    unfold keeps. simpl. split_and!; try done. congruence.
  - unfold markAsDelivered. destruct (isDelivered m) eqn:Hd; [apply keeps_refl|].
    unfold keeps. simpl. split_and!; try done. congruence.
  - unfold keeps. by split_and!.
  - unfold keeps. by split_and!.
  - unfold edit. destruct (decide _); [|apply keeps_refl].
    unfold keeps. simpl. split_and!; try done. by apply prefix_app_r.
  - unfold keeps. by split_and!.
Qed.

(** X6. Whatever methods are called on a message document, in whatever
    order and at whatever instants, its identity (id, conversation, sender,
    recipient, creation time, replied message) stays, a mark that is set is
    never taken back (read, delivered, deleted, edited), the stamps of the
    first reading and the first delivery are kept by later calls, recorded
    edits are never dropped or rewritten, and a message that is not
    scheduled never becomes scheduled. *)
Theorem message_marks_are_never_taken_back (m : Message.t)
    (calls : list (Date * Method)) :
  keeps m (foldl call m calls).
Proof.
  induction calls as [|c calls IH] using rev_ind; [apply keeps_refl|].
  rewrite foldl_app. simpl. eapply keeps_trans; [exact IH|apply keeps_call].
Qed.

Lemma call_edit now newText m :
  type (content m) = text →
  let m' := call m (now, Edit newText) in
  type (content m') = text
  ∧ body (content m') = JS.trim newText
  ∧ editHistory m' = editHistory m ++ [mkEdit (body (content m)) now]
  ∧ isEdited m' = true ∧ editedAt m' = Some now.
Proof.
  intros Ht. unfold call, edit. cbn [fst snd]. rewrite decide_True by done.
  unfold pre_save. simpl. destruct (scheduledFor m); [|done].
  by destruct (isScheduled m && _).
Qed.

(** X7. Editing a text message replaces the text by the trimmed new text
    and records the replaced text with the instant of the edit: after any
    sequence of edits the history followed by the current text is the
    history before, the text before and the trimmed new texts, in order, and
    the instants recorded are those of the edits.  A message of another
    type (a picture, a video) is returned as it is. *)
Theorem edits_are_recorded_in_order (m : Message.t) (edits : list (Date * string)) :
  (type (content m) = text →
   let m' := foldl (λ m e, call m (e.1, Edit e.2)) m edits in
   type (content m') = text
   ∧ (e_text <$> editHistory m') ++ [body (content m')]
     = (e_text <$> editHistory m) ++ [body (content m)] ++ (JS.trim ∘ snd <$> edits)
   ∧ (e_editedAt <$> editHistory m') = (e_editedAt <$> editHistory m) ++ (fst <$> edits))
  ∧ (type (content m) ≠ text → ∀ now newText, edit newText now m = m).
Proof.
  split.
  - intros Ht. cbv zeta.
    induction edits as [|[now newText] edits IH] using rev_ind.
    + simpl. by rewrite !app_nil_r.
    + rewrite foldl_app. simpl. destruct IH as (IHt & IHh & IHa).
      destruct (call_edit now newText _ IHt) as (Ht' & Hb & Hh & _).
      split_and!; [done|..].
      * rewrite Hh, Hb, fmap_app. simpl.
        rewrite IHh, !fmap_app. simpl. by rewrite <- !(assoc_L (++)).
      * rewrite Hh, !fmap_app, IHa. simpl. by rewrite <- !(assoc_L (++)).
  - intros Ht now newText. unfold edit. by rewrite decide_False.
Qed.

Lemma edits_are_recorded_in_order_witness :
  let m := Message.new 7 0 201 1 2 (mkContent text "one" None) None None in
  let m' := foldl (λ m e, call m (e.1, Edit e.2)) m [(10%Z, " two "); (20%Z, "three")] in
  type (content m) = text
  ∧ (e_text <$> editHistory m') ++ [body (content m')] = ["one"; "two"; "three"]
  ∧ (e_editedAt <$> editHistory m') = [10%Z; 20%Z].
Proof.
  intros m m'.
  destruct (edits_are_recorded_in_order m [(10%Z, " two "); (20%Z, "three")])
    as [Htext _].
  destruct Htext as (_ & Hh & Ha); [by vm_compute|].
  split_and!; [by vm_compute|exact Hh|exact Ha].
Defined.

End MessageLife.

(** ** What the routes keep of the stored documents *)

Section Stored.
Import Routes Server Scenario.

Lemma save_keys_stored {A} (key : A → ObjectId) d l :
  key d ∈ key <$> l → (key <$> Store.save key d l) = (key <$> l).
Proof.
  induction l as [|x l IH]; [by intros ?%elem_of_nil|].
  rewrite fmap_cons. simpl. intros Hin.
  destruct (decide (key x = key d)) as [Hk|Hk]; rewrite fmap_cons.
  - by rewrite Hk.
  - f_equal. apply IH. apply elem_of_cons in Hin as [Hin|Hin]; [congruence|done].
Qed.

Lemma findById_unique {A} (key : A → ObjectId) d l :
  NoDup (key <$> l) → d ∈ l → Store.findById key (key d) l = Some d.
Proof.
  unfold Store.findById. induction l as [|x l IH]; [by intros _ ?%elem_of_nil|].
  rewrite fmap_cons, NoDup_cons. intros [Hx Hl] Hd. rewrite find_cons.
  apply elem_of_cons in Hd as [->|Hd]; [by rewrite decide_True|].
  destruct (decide (key x = key d)) as [Hk|Hk]; [|by apply IH].
  exfalso. apply Hx. rewrite Hk. by apply list_elem_of_fmap_2.
Qed.

Lemma elem_of_keys {A} (key : A → ObjectId) d (l : list A) :
  d ∈ l → key d ∈ key <$> l.
Proof. apply list_elem_of_fmap_2. Qed.

(** *** The conversations *)

Lemma same_members_refl c : same_members c c.
Proof. unfold same_members. by split_and!. Qed.

Lemma same_members_trans c1 c2 c3 :
  same_members c1 c2 → same_members c2 c3 → same_members c1 c3.
Proof. unfold same_members. intuition congruence. Qed.

Lemma same_members_markAsRead u now c :
  same_members c (Conversation.markAsRead u now c).
Proof.
  unfold same_members, Conversation.markAsRead.
  by destruct (list_find _ _) as [[i d]|].
Qed.

Lemma same_members_incrementUnreadCount u c :
  same_members c (Conversation.incrementUnreadCount u c).
Proof.
  unfold same_members, Conversation.incrementUnreadCount.
  by destruct (list_find _ _) as [[i d]|].
Qed.

Lemma same_members_assignSetting f u c :
  same_members c (Conversation.assignSetting f u c).
Proof.
  unfold same_members, Conversation.assignSetting.
  by destruct (list_find _ _) as [[i d]|].
Qed.

Lemma same_members_sent now rid c db :
  same_members c (sent_conversation now rid c db).
Proof.
  unfold sent_conversation. destruct (Conversation.isGroup c).
  - unfold same_members. by split_and!.
  - eapply same_members_trans; [|apply same_members_incrementUnreadCount].
    unfold same_members. by split_and!.
Qed.

(** What a request does to the conversations: nothing, or it saves a later
    state of a stored conversation, or it stores one made with [new]. *)
Lemma serve_conversations db r :
  conversations (serve db r) = conversations db
  ∨ (∃ c c', Store.findById Conversation._id (Conversation._id c) (conversations db) = Some c
             ∧ same_members c c'
             ∧ conversations (serve db r)
               = Store.save Conversation._id c' (conversations db))
  ∨ (∃ c, Conversation._id c = nextId db
          ∧ Conversation.isDeleted c = false ∧ Conversation.archivedBy c = []
          ∧ conversations (serve db r)
            = Store.save Conversation._id c (conversations db)).
Proof.
  destruct r as [now []]; unfold serve; cbn [fst snd].
  - unfold post_conversations, create_conversation.
    repeat case_match; try (by left); right; right; eexists;
      (split_and!; [| | |reflexivity]); done.
  - unfold get_conversation.
    destruct (Store.findById _ _ _) as [c|] eqn:Hc; [|by left].
    destruct (negb _); [by left|]. right; left. exists c, (Conversation.markAsRead me now c).
    rewrite (findById_key _ _ _ _ Hc). split_and!; [done| |done].
    apply same_members_markAsRead.
  - unfold get_messages.
    destruct (Store.findById _ _ _) as [c|] eqn:Hc; [|by left].
    destruct (negb _); [by left|]. destruct (bool_decide _); [by left|].
    right; left. exists c, (Conversation.markAsRead me now c).
    rewrite (findById_key _ _ _ _ Hc). split_and!; [done| |].
    + apply same_members_markAsRead.
    + cbn [snd]. by rewrite foldl_save_delivered_conversations.
  - destruct (send_message_cases now me conversationId b db)
      as [Hs | (c & rid & Hc & Hp & Hm & Hr & Hl)]; [left; by rewrite Hs|].
    rewrite (send_message_ok now me conversationId b db c rid) by done.
    right; left. exists c, (sent_conversation now rid c db).
    rewrite (findById_key _ _ _ _ Hc). split_and!; [done| |done].
    apply same_members_sent.
  - left. unfold edit_message. by repeat case_match.
  - left. unfold delete_message. by repeat case_match.
  - left. unfold add_reaction. by repeat case_match.
  - left. unfold remove_reaction. by repeat case_match.
  - unfold mute_conversation.
    destruct (Store.findById _ _ _) as [c|] eqn:Hc; [|by left].
    destruct (negb _); [by left|]. right; left. exists c, (Conversation.muteForUser me c).
    rewrite (findById_key _ _ _ _ Hc). split_and!; [done| |done].
    apply (same_members_assignSetting (Conversation.set_isMuted true)).
  - unfold unmute_conversation.
    destruct (Store.findById _ _ _) as [c|] eqn:Hc; [|by left].
    destruct (negb _); [by left|]. right; left. exists c, (Conversation.unmuteForUser me c).
    rewrite (findById_key _ _ _ _ Hc). split_and!; [done| |done].
    apply (same_members_assignSetting (Conversation.set_isMuted false)).
Qed.

Lemma serve_keeps_conversation db r cid c :
  ids_below db →
  Store.findById Conversation._id cid (conversations db) = Some c →
  ∃ c', Store.findById Conversation._id cid (conversations (serve db r)) = Some c'
        ∧ same_members c c'.
Proof.
  intros Hdb Hc.
  destruct (serve_conversations db r)
    as [-> | [(c0 & c0' & Hc0 & Hsame & ->) | (c0 & Hid & _ & _ & ->)]].
  - exists c. split; [done|apply same_members_refl].
  - destruct (decide (Conversation._id c0 = cid)) as [Heq|Hne].
    + exists c0'. rewrite Heq in Hc0. assert (c0 = c) as -> by congruence.
      split; [|done]. apply stored_after_save. destruct Hsame as [-> _]. done.
    + exists c. split; [|apply same_members_refl].
      rewrite findById_save_ne; [done|]. destruct Hsame as [-> _]. done.
  - exists c. split; [|apply same_members_refl].
    rewrite findById_save_ne; [done|].
    pose proof (ids_below_conversation _ _ Hdb (findById_elem_of _ _ _ _ Hc)) as Hlt.
    rewrite (findById_key _ _ _ _ Hc) in Hlt. lia.
Qed.

Lemma foldl_serve_ids_below db rs : ids_below db → ids_below (foldl serve db rs).
Proof.
  revert db. induction rs as [|r rs IH]; intros db Hdb; [done|].
  simpl. by apply IH, serve_ids_below.
Qed.

(** X8. No route changes who is in a conversation: a conversation that is
    stored stays stored under its id through every later sequence of
    requests, with the same participants, the same kind (direct or group)
    and the same group information, admins included; and it is never marked
    deleted or archived. *)
Theorem conversation_membership_is_fixed (us : list User.t) (first : ObjectId)
    (rs rs' : list (Date * Request)) (cid : ObjectId) (c : Conversation.t) :
  Store.findById Conversation._id cid (conversations (run us first rs)) = Some c →
  ∃ c', Store.findById Conversation._id cid (conversations (run us first (rs ++ rs')))
        = Some c'
        ∧ same_members c c'.
Proof.
  unfold run. rewrite foldl_app.
  pose proof (run_ids_below us first rs) as Hdb. unfold run in Hdb.
  revert Hdb c. generalize (foldl serve (init us first) rs).
  induction rs' as [|r rs' IH]; intros db Hdb c Hc.
  - exists c. split; [done|apply same_members_refl].
  - simpl. destruct (serve_keeps_conversation db r cid c Hdb Hc) as (c1 & Hc1 & Hs1).
    destruct (IH (serve db r) (serve_ids_below _ _ Hdb) c1 Hc1) as (c' & Hc' & Hs').
    exists c'. split; [done|]. by eapply same_members_trans.
Qed.

Lemma conversation_membership_is_fixed_witness :
  let opened := [(1000%Z, PostConversations alice (direct_to 2))] in
  let later :=
    [(2000%Z, SendMessage 1 100 (plain "hi")); (3000%Z, Mute 2 100);
     (4000%Z, GetConversation 2 100)] in
  ∃ c', Store.findById Conversation._id 100
          (conversations (run [alice; bob; carol] 100 (opened ++ later))) = Some c'
        ∧ Conversation.participants c' = [1; 2].
Proof.
  intros opened later.
  destruct (conversation_membership_is_fixed [alice; bob; carol] 100 opened later 100
              (Conversation.new 100 1000 [1; 2] false Conversation.default_groupInfo))
    as (c' & Hc' & _ & Hp & _); [by vm_compute|].
  exists c'. split; [exact Hc'|exact Hp].
Defined.

(** *** The messages *)

Lemma unread_pre_save now m :
  Message.isRead m = false ∧ Message.readAt m = None →
  Message.isRead (Message.pre_save now m) = false
  ∧ Message.readAt (Message.pre_save now m) = None.
Proof.
  unfold Message.pre_save. destruct (Message.scheduledFor m); [|done].
  by destruct (Message.isScheduled m && _).
Qed.

Lemma unread_call m c :
  c.2 ≠ Message.MarkAsRead →
  Message.isRead m = false ∧ Message.readAt m = None →
  Message.isRead (Message.call m c) = false ∧ Message.readAt (Message.call m c) = None.
Proof.
  intros Hc Hm. unfold Message.call. apply unread_pre_save.
  destruct c as [now []]; cbn [fst snd] in *; try done.
  - unfold Message.markAsDelivered. by destruct (Message.isDelivered m).
  - unfold Message.edit. by destruct (decide _).
Qed.

(** What a request does to the messages: nothing, or it saves the result of
    a method other than [markAsRead] on a stored message, or it stores a
    message made with [new], or (the list route) it saves delivered copies
    of stored messages. *)
Lemma serve_messages db r :
  messages (serve db r) = messages db
  ∨ (∃ m c, Store.findById Message._id (Message._id m) (messages db) = Some m
            ∧ c.2 ≠ Message.MarkAsRead
            ∧ messages (serve db r) = Store.save Message._id (Message.call m c) (messages db))
  ∨ (∃ m, Message._id m = nextId db
          ∧ Message.isRead m = false ∧ Message.readAt m = None
          ∧ messages (serve db r) = Store.save Message._id m (messages db))
  ∨ (∃ me now db1 found,
       messages db1 = messages db
       ∧ (∀ m, m ∈ found → m ∈ messages db)
       ∧ messages (serve db r) = messages (foldl (save_delivered me now) db1 found)).
Proof.
  destruct r as [now [u b|me cid|me cid limit page|me cid b|me mid txt|me mid
                      |me mid emo|me mid|me cid|me cid]]; unfold serve; cbn [fst snd].
  - left. unfold post_conversations, create_conversation. by repeat case_match.
  - left. unfold get_conversation. by repeat case_match.
  - unfold get_messages.
    destruct (Store.findById _ _ _) as [c|] eqn:Hc; [|by left].
    destruct (negb _); [by left|]. destruct (bool_decide _); [by left|].
    right; right; right. eexists me, now, _, _. split_and!; [| |reflexivity]; [done|].
    intros m Hm. by apply fetched_page in Hm as [Hm _].
  - destruct (send_message_cases now me cid b db)
      as [Hs | (c & rid & Hc & Hp & Hm & Hr & Hl)]; [left; by rewrite Hs|].
    rewrite (send_message_ok now me cid b db c rid) by done.
    right; right; left. exists (sent_message now me cid rid b db).
    split_and!; [apply sent_message_fields| | |done];
      by apply (unread_pre_save now (Message.new _ _ _ _ _ _ _ _)).
  - unfold edit_message. destruct (JS.falsy txt || _); [by left|].
    destruct (Store.findById _ _ _) as [m|] eqn:Hm; [|by left].
    destruct (Message.isDeleted m); [by left|].
    destruct (negb (bool_decide (Message.sender m = me))); [by left|].
    destruct (bool_decide (_ > _)%Z); [by left|].
    destruct (_ && _); [by left|].
    right; left. exists m, (now, Message.Edit (JS.trim (JS.or_empty txt))).
    rewrite (findById_key _ _ _ _ Hm). by split_and!.
  - unfold delete_message.
    destruct (Store.findById _ _ _) as [m|] eqn:Hm; [|by left].
    destruct (Message.isDeleted m); [by left|].
    destruct (negb (bool_decide (Message.sender m = me))); [by left|].
    right; left. exists m, (now, Message.SoftDelete me).
    rewrite (findById_key _ _ _ _ Hm). by split_and!.
  - unfold add_reaction. destruct (JS.falsy emo); [by left|].
    destruct (Store.findById _ _ _) as [m|] eqn:Hm; [|by left].
    destruct (Message.isDeleted m); [by left|].
    right; left. exists m, (now, Message.AddReaction me (JS.or_empty emo)).
    rewrite (findById_key _ _ _ _ Hm). by split_and!.
  - unfold remove_reaction.
    destruct (Store.findById _ _ _) as [m|] eqn:Hm; [|by left].
    destruct (Message.isDeleted m); [by left|].
    right; left. exists m, (now, Message.RemoveReaction me).
    rewrite (findById_key _ _ _ _ Hm). by split_and!.
  - left. unfold mute_conversation. by repeat case_match.
  - left. unfold unmute_conversation. by repeat case_match.
Qed.

Lemma save_delivered_call me now db m :
  save_delivered me now db m = db
  ∨ save_delivered me now db m
    = save_message (Message.call m (now, Message.MarkAsDelivered)) db.
Proof.
  unfold save_delivered. destruct (bool_decide _ && negb _); [by right|by left].
Qed.

Lemma foldl_save_delivered_users me now found db :
  users (foldl (save_delivered me now) db found) = users db.
Proof.
  revert db. induction found as [|m found IH]; intros db; [done|].
  simpl. rewrite IH. by destruct (save_delivered_call me now db m) as [->| ->].
Qed.

Lemma foldl_save_delivered_keys me now found db :
  (∀ m, m ∈ found → Message._id m ∈ Message._id <$> messages db) →
  (Message._id <$> messages (foldl (save_delivered me now) db found))
  = (Message._id <$> messages db).
Proof.
  revert db. induction found as [|m found IH]; intros db Hf; [done|].
  simpl.
  assert (Hk : (Message._id <$> messages (save_delivered me now db m))
               = (Message._id <$> messages db)).
  { destruct (save_delivered_call me now db m) as [->| ->]; [done|].
    cbn [messages save_message]. apply save_keys_stored.
    rewrite call_id. apply Hf. by left. }
  rewrite IH, Hk; [done|]. intros x Hx. rewrite Hk. apply Hf. by right.
Qed.

Lemma foldl_save_delivered_keeps me now found db0 db mid m :
  NoDup (Message._id <$> messages db0) →
  Store.findById Message._id mid (messages db0) = Some m →
  (∀ x, x ∈ found → x ∈ messages db0) →
  (∃ m', Store.findById Message._id mid (messages db) = Some m' ∧ Message.keeps m m') →
  ∃ m', Store.findById Message._id mid
          (messages (foldl (save_delivered me now) db found)) = Some m'
        ∧ Message.keeps m m'.
Proof.
  intros Hnd Hm. revert db.
  induction found as [|x found IH]; intros db Hf Hdb; [done|].
  simpl. apply IH; [intros y Hy; apply Hf; by right|].
  destruct (save_delivered_call me now db x) as [->| ->]; [done|].
  cbn [messages save_message].
  destruct (decide (Message._id x = mid)) as [Hx|Hx].
  - assert (x = m) as ->.
    { pose proof (findById_unique Message._id x _ Hnd (Hf x (list_elem_of_here _ _))) as Hu.
      rewrite Hx in Hu. congruence. }
    eexists. split; [apply stored_after_save; by rewrite call_id|apply keeps_call].
  - destruct Hdb as (m' & Hm' & Hk). exists m'. split; [|done].
    rewrite findById_save_ne; [done|]. by rewrite call_id.
Qed.

Lemma foldl_save_delivered_unread me now found db :
  Forall (λ m, Message.isRead m = false ∧ Message.readAt m = None) (messages db) →
  Forall (λ m, Message.isRead m = false ∧ Message.readAt m = None) found →
  Forall (λ m, Message.isRead m = false ∧ Message.readAt m = None)
    (messages (foldl (save_delivered me now) db found)).
Proof.
  intros Hdb Hf. revert db Hdb.
  induction Hf as [|m found Hm Hf IH]; intros db Hdb; [done|].
  simpl. apply IH.
  destruct (save_delivered_call me now db m) as [->| ->]; [done|].
  cbn [messages save_message]. apply Forall_save; [done|].
  by apply unread_call.
Qed.

Lemma serve_keeps_message db r mid m :
  ids_below db → unique_ids db →
  Store.findById Message._id mid (messages db) = Some m →
  ∃ m', Store.findById Message._id mid (messages (serve db r)) = Some m'
        ∧ Message.keeps m m'.
Proof.
  intros Hdb [_ Hnd] Hm.
  destruct (serve_messages db r)
    as [-> | [(m0 & c & Hm0 & _ & ->) | [(m0 & Hid & _ & _ & ->)
       | (me & now & db1 & found & Hdb1 & Hfound & ->)]]].
  - exists m. split; [done|apply keeps_refl].
  - destruct (decide (Message._id m0 = mid)) as [Heq|Hne].
    + rewrite Heq in Hm0. assert (m0 = m) as -> by congruence.
      eexists. split; [apply stored_after_save; by rewrite call_id|apply keeps_call].
    + exists m. split; [|apply keeps_refl].
      rewrite findById_save_ne; [done|]. by rewrite call_id.
  - exists m. split; [|apply keeps_refl].
    rewrite findById_save_ne; [done|].
    pose proof (ids_below_message _ _ Hdb (findById_elem_of _ _ _ _ Hm)) as Hlt.
    rewrite (findById_key _ _ _ _ Hm) in Hlt. lia.
  - apply (foldl_save_delivered_keeps me now found db db1 mid m); [done..|].
    exists m. rewrite Hdb1. split; [done|apply keeps_refl].
Qed.

Lemma NoDup_snoc_above (l : list ObjectId) (n : ObjectId) :
  Forall (λ k, k < n) l → NoDup l → NoDup (l ++ [n]).
Proof.
  intros Hl Hnd. apply NoDup_app. split_and!; [done| |apply NoDup_singleton].
  intros k Hk Hkn%list_elem_of_singleton. subst.
  rewrite Forall_forall in Hl. specialize (Hl _ Hk). lia.
Qed.

Lemma save_new_keys {A} (key : A → ObjectId) d l :
  Forall (λ x, key x < key d) l → NoDup (key <$> l) →
  NoDup (key <$> Store.save key d l).
Proof.
  intros Hl Hnd. rewrite save_new_appends by done. rewrite fmap_app. simpl.
  apply NoDup_snoc_above; [|done]. by apply Forall_fmap.
Qed.

Lemma serve_unique_ids db r : ids_below db → unique_ids db → unique_ids (serve db r).
Proof.
  intros [Hcs Hms] [Hc Hm]. split.
  - destruct (serve_conversations db r)
      as [-> | [(c0 & c0' & Hc0 & Hsame & ->) | (c0 & Hid & _ & _ & ->)]]; [done|..].
    + rewrite save_keys_stored; [done|]. destruct Hsame as [-> _].
      by eapply elem_of_keys, findById_elem_of.
    + apply save_new_keys; [by rewrite Hid|done].
  - destruct (serve_messages db r)
      as [-> | [(m0 & c & Hm0 & _ & ->) | [(m0 & Hid & _ & _ & ->)
         | (me & now & db1 & found & Hdb1 & Hfound & ->)]]]; [done|..].
    + rewrite save_keys_stored; [done|]. rewrite call_id.
      by eapply elem_of_keys, findById_elem_of.
    + apply save_new_keys; [by rewrite Hid|done].
    + rewrite foldl_save_delivered_keys; rewrite Hdb1; [done|].
      intros x Hx. by apply elem_of_keys, Hfound.
Qed.

(** X9. Messages are never lost: a message that is stored stays stored
    under its id through every later sequence of requests, with its sender,
    recipient, conversation and creation time, with every mark it had
    (delivered, deleted, edited) and with the edits recorded so far.  In
    particular a deleted message is never removed from the collection and
    never restored. *)
Theorem stored_messages_persist (us : list User.t) (first : ObjectId)
    (rs rs' : list (Date * Request)) (mid : ObjectId) (m : Message.t) :
  Store.findById Message._id mid (messages (run us first rs)) = Some m →
  ∃ m', Store.findById Message._id mid (messages (run us first (rs ++ rs'))) = Some m'
        ∧ Message.keeps m m'.
Proof.
  unfold run. rewrite foldl_app.
  pose proof (run_ids_below us first rs) as Hdb. unfold run in Hdb.
  assert (Hu : unique_ids (foldl serve (init us first) rs)).
  { assert (H0 : unique_ids (init us first)) by (split; constructor).
    assert (H1 : ids_below (init us first)) by (split; constructor).
    revert H0 H1. generalize (init us first). clear Hdb.
    induction rs as [|r rs IH]; intros db H0 H1; [done|].
    simpl. apply IH; [by apply serve_unique_ids|by apply serve_ids_below]. }
  revert Hdb Hu m. generalize (foldl serve (init us first) rs).
  induction rs' as [|r rs' IH]; intros db Hdb Hu m Hm.
  - exists m. split; [done|apply keeps_refl].
  - simpl. destruct (serve_keeps_message db r mid m Hdb Hu Hm) as (m1 & Hm1 & Hk1).
    destruct (IH (serve db r) (serve_ids_below _ _ Hdb) (serve_unique_ids _ _ Hdb Hu)
                m1 Hm1) as (m' & Hm' & Hk').
    exists m'. split; [done|]. by eapply keeps_trans.
Qed.

Lemma stored_messages_persist_witness :
  let sent :=
    [(1000%Z, PostConversations alice (direct_to 2));
     (2000%Z, SendMessage 1 100 (plain "hi"));
     (3000%Z, DeleteMessage 1 101)] in
  let later :=
    [(4000%Z, GetMessages 2 100 None None); (5000%Z, EditMessage 1 101 (Some "ho"));
     (6000%Z, AddReaction 2 101 (Some "+"))] in
  ∃ m', Store.findById Message._id 101
          (messages (run [alice; bob; carol] 100 (sent ++ later))) = Some m'
        ∧ Message.isDeleted m' = true ∧ Message.sender m' = 1.
Proof.
  intros sent later.
  destruct (stored_messages_persist [alice; bob; carol] 100 sent later 101
              (Message.softDelete 1 3000
                 (sent_message 2000 1 100 2 (plain "hi") db_direct)))
    as (m' & Hm' & Hk); [by vm_compute|].
  destruct Hk as (_ & _ & Hs & _ & _ & _ & _ & _ & Hdel & _).
  exists m'. split_and!; [exact Hm'|by apply Hdel|exact Hs].
Defined.

(** X10. Through the routes no message is ever marked as read and no
    conversation is ever deleted or archived: in every state that the server
    reaches from empty collections, every stored message has [isRead] false
    and no [readAt], every stored conversation has [isDeleted] false and an
    empty [archivedBy], so that the conversation list of a user selects
    exactly the conversations the user participates in; and the users are
    the ones the server started with. *)
Theorem routes_never_read_delete_or_archive (us : list User.t) (first : ObjectId)
    (rs : list (Date * Request)) :
  Forall (λ m, Message.isRead m = false ∧ Message.readAt m = None)
    (messages (run us first rs))
  ∧ Forall (λ c, Conversation.isDeleted c = false ∧ Conversation.archivedBy c = []
                 ∧ ∀ me, in_inbox me c ↔ me ∈ Conversation.participants c)
      (conversations (run us first rs))
  ∧ users (run us first rs) = us.
Proof.
  assert (Hinv : ∀ db,
    Forall (λ m, Message.isRead m = false ∧ Message.readAt m = None) (messages db) →
    Forall (λ c, Conversation.isDeleted c = false ∧ Conversation.archivedBy c = [])
      (conversations db) →
    Forall (λ m, Message.isRead m = false ∧ Message.readAt m = None)
      (messages (foldl serve db rs))
    ∧ Forall (λ c, Conversation.isDeleted c = false ∧ Conversation.archivedBy c = [])
        (conversations (foldl serve db rs))
    ∧ users (foldl serve db rs) = users db).
  { induction rs as [|r rs IH]; intros db Hm Hc; [done|]. simpl.
    assert (Hu : users (serve db r) = users db).
    { destruct r as [now []]; unfold serve; cbn [fst snd].
      - unfold post_conversations, create_conversation. by repeat case_match.
      - unfold get_conversation. by repeat case_match.
      - unfold get_messages.
        destruct (Store.findById _ _ _); [|done]. destruct (negb _); [done|].
        destruct (bool_decide _); [done|]. cbn [snd].
        by rewrite foldl_save_delivered_users.
      - unfold send_message. by repeat case_match.
      - unfold edit_message. by repeat case_match.
      - unfold delete_message. by repeat case_match.
      - unfold add_reaction. by repeat case_match.
      - unfold remove_reaction. by repeat case_match.
      - unfold mute_conversation. by repeat case_match.
      - unfold unmute_conversation. by repeat case_match. }
    rewrite <- Hu. apply IH.
    - destruct (serve_messages db r)
        as [-> | [(m0 & c & Hm0 & Hc0 & ->) | [(m0 & Hid & Hr & Hra & ->)
           | (me & now & db1 & found & Hdb1 & Hfound & ->)]]]; [done|..].
      + apply Forall_save; [done|]. apply unread_call; [done|].
        rewrite Forall_forall in Hm. by eapply Hm, findById_elem_of.
      + by apply Forall_save.
      + apply foldl_save_delivered_unread; [by rewrite Hdb1|].
        apply Forall_forall. intros x Hx. rewrite Forall_forall in Hm.
        by apply Hm, Hfound.
    - destruct (serve_conversations db r)
        as [-> | [(c0 & c0' & Hc0 & Hsame & ->) | (c0 & Hid & Hd & Ha & ->)]]; [done|..].
      + apply Forall_save; [done|].
        destruct Hsame as (_ & _ & _ & _ & -> & ->).
        rewrite Forall_forall in Hc. by eapply Hc, findById_elem_of.
      + by apply Forall_save. }
  destruct (Hinv (init us first)) as (Hm & Hc & Hu); [constructor..|].
  split_and!; [done| |done].
  eapply Forall_impl; [exact Hc|]. intros c [Hd Ha]. split_and!; [done..|].
  intros me. unfold in_inbox. rewrite Hd, Ha. split; [tauto|].
  intros Hp. split_and!; [done|done|constructor].
Qed.

End Stored.

(** ** Refusals *)

Section Refusals.
Import Routes Server Scenario.

Lemma canMessageUser_statuses cu rid us st msg :
  Auth.canMessageUser cu rid us = Auth.reject st msg → st ∈ [400; 403; 404].
Proof.
  unfold Auth.canMessageUser. repeat case_match; intros [= <- <-];
    apply (bool_decide_unpack _); by vm_compute.
Qed.

Ltac refusal :=
  repeat case_match; cbn [fst snd status];
  (split; [apply (bool_decide_unpack _); by vm_compute|intros; first [done|lia]]).

(** X11. Every request is answered with one of the statuses 200, 400, 403,
    404 and 500; 201 is never answered.  A request that is refused with
    400, 403 or 404 leaves the database exactly as it was: no route writes
    before its last check.  (An answer of 500 says nothing of the kind: the
    routes that end in the serialisation of populated users answer 500
    after they have saved.) *)
Theorem refused_requests_change_nothing (db : DB) (r : Date * Request) :
  answer db r ∈ [200; 400; 403; 404; 500]
  ∧ (400 ≤ answer db r < 500 → serve db r = db).
Proof.
  destruct r as [now [u b|me cid|me cid limit page|me cid b|me mid txt|me mid
                      |me mid emo|me mid|me cid|me cid]];
    unfold answer, serve; cbn [fst snd].
  - unfold post_conversations.
    destruct (Auth.canMessageUser u (recipientId b) (users db)) as [|st msg] eqn:Hc.
    + unfold create_conversation. refusal.
    + cbn [fst snd status]. split; [|done].
      apply canMessageUser_statuses in Hc.
      rewrite !elem_of_cons in Hc. rewrite !elem_of_cons. tauto.
  - unfold get_conversation. refusal.
  - unfold get_messages, json_populated. refusal.
  - unfold send_message. refusal.
  - unfold edit_message. refusal.
  - unfold delete_message. refusal.
  - unfold add_reaction. refusal.
  - unfold remove_reaction. refusal.
  - unfold mute_conversation. refusal.
  - unfold unmute_conversation. refusal.
Qed.

Lemma refused_requests_change_nothing_witness :
  answer db_sent (5000%Z, SendMessage 3 100 (plain "hi")) = 403
  ∧ serve db_sent (5000%Z, SendMessage 3 100 (plain "hi")) = db_sent.
Proof.
  destruct (refused_requests_change_nothing db_sent (5000%Z, SendMessage 3 100 (plain "hi")))
    as [_ Hsame].
  split; [by vm_compute|]. apply Hsame.
  replace (answer db_sent (5000%Z, SendMessage 3 100 (plain "hi"))) with 403
    by (by vm_compute).
  lia.
Defined.

(** X12. DELETE /:messageId is open to the sender of a message that is not
    deleted yet, and to nobody else.  It marks the stored message deleted
    with the instant and the user, and keeps its content, reactions and edit
    history in the collection.  From then on the message is out of reach
    for everybody: deleting it again, editing it, reacting to it and taking
    a reaction back are all answered 404 "Message not found" without a
    change. *)
Theorem delete_is_soft_and_final (now now' : Date) (me who mid : ObjectId)
    (db db' : DB) (msg : string) :
  delete_message now me mid db = (Reply 200 msg, db') →
  ∃ m m',
    Store.findById Message._id mid (messages db) = Some m
    ∧ Message.sender m = me ∧ Message.isDeleted m = false
    ∧ db' = save_message m' db
    ∧ Store.findById Message._id mid (messages db') = Some m'
    ∧ Message.isDeleted m' = true
    ∧ Message.deletedAt m' = Some now ∧ Message.deletedBy m' = Some me
    ∧ Message.content m' = Message.content m
    ∧ Message.reactions m' = Message.reactions m
    ∧ Message.editHistory m' = Message.editHistory m
    ∧ delete_message now' who mid db' = (Error 404 "Message not found", db')
    ∧ remove_reaction now' who mid db' = (Error 404 "Message not found", db')
    ∧ (∀ e, JS.falsy e = false →
         add_reaction now' who mid e db' = (Error 404 "Message not found", db'))
    ∧ (∀ t, (JS.falsy t || bool_decide (String.length (JS.trim (JS.or_empty t)) = 0)) = false →
         edit_message now' who mid t db' = (Error 404 "Message not found", db')).
Proof.
  unfold delete_message at 1.
  destruct (Store.findById _ _ _) as [m|] eqn:Hm; [|done].
  destruct (Message.isDeleted m) eqn:Hdel; [done|].
  destruct (bool_decide_reflect (Message.sender m = me)) as [Hs|Hs]; [|done].
  cbn [negb]. intros [= <- <-].
  pose proof (findById_key _ _ _ _ Hm) as Hid.
  set (m' := Message.pre_save now (Message.softDelete me now m)).
  assert (Hm' : Store.findById Message._id mid (messages (save_message m' db)) = Some m').
  { apply stored_after_save. unfold m'. by rewrite pre_save_id. }
  assert (Hfields : Message.isDeleted m' = true
                    ∧ Message.deletedAt m' = Some now ∧ Message.deletedBy m' = Some me
                    ∧ Message.content m' = Message.content m
                    ∧ Message.reactions m' = Message.reactions m
                    ∧ Message.editHistory m' = Message.editHistory m).
  { unfold m', Message.pre_save, Message.softDelete. simpl.
    destruct (Message.scheduledFor m); [|done].
    by destruct (Message.isScheduled m && _). }
  destruct Hfields as (Hd' & Hat & Hby & Hcont & Hreact & Hhist).
  exists m, m'. split_and!; try done.
  - unfold delete_message. by rewrite Hm', Hd'.
  - unfold remove_reaction. by rewrite Hm', Hd'.
  - intros e He. unfold add_reaction. by rewrite He, Hm', Hd'.
  - intros t Ht. unfold edit_message. by rewrite Ht, Hm', Hd'.
Qed.

Lemma delete_is_soft_and_final_witness :
  ∃ m',
    Store.findById Message._id 101 (messages (delete_message 2050 1 101 db_sent).2)
    = Some m'
    ∧ Message.body (Message.content m') = "hi"
    ∧ edit_message 2060 1 101 (Some "ho") (delete_message 2050 1 101 db_sent).2
      = (Error 404 "Message not found", (delete_message 2050 1 101 db_sent).2).
Proof.
  destruct (delete_is_soft_and_final 2050 2060 1 1 101 db_sent
              (delete_message 2050 1 101 db_sent).2
              "Message deleted successfully")
    as (m & m' & Hm & _ & _ & _ & Hm' & _ & _ & _ & Hc & _ & _ & _ & _ & _ & Hedit);
    [by vm_compute|].
  exists m'. split_and!; [exact Hm'| |by apply Hedit; vm_compute].
  rewrite Hc. vm_compute in Hm. by injection Hm as <-.
Defined.

End Refusals.

(** ** Who may open a conversation *)

Section Gatekeeper.
Import Routes Server Scenario.

(** X13. [canMessageUser] lets a request through exactly when it names a
    recipient other than the requester who exists, when neither of the two
    has blocked the other, and when the recipient accepts messages from
    everyone or is followed by the requester.  A block in either direction
    closes both directions with 403.  The check guards POST /conversations
    only: what the send route answers and writes does not depend on the
    users collection, so that a block does not stop messages in a
    conversation that exists. *)
Theorem canMessageUser_passes_exactly (cu : User.t) (rid : option ObjectId)
    (us : list User.t) :
  (Auth.canMessageUser cu rid us = Auth.next
   ↔ ∃ r recipient,
       rid = Some r ∧ r ≠ User._id cu
       ∧ Store.findById User._id r us = Some recipient
       ∧ (User._id cu ∉ User.blockedUsers recipient)
       ∧ (r ∉ User.blockedUsers cu)
       ∧ (User.allowMessagesFrom recipient = User.followers →
          User._id cu ∈ User.followers_of recipient))
  ∧ (∀ other : User.t,
       User._id cu ≠ User._id other →
       Store.findById User._id (User._id cu) us = Some cu →
       Store.findById User._id (User._id other) us = Some other →
       User._id other ∈ User.blockedUsers cu ∨ User._id cu ∈ User.blockedUsers other →
       Auth.canMessageUser cu (Some (User._id other)) us
       = Auth.reject 403 "Cannot send message to this user"
       ∧ Auth.canMessageUser other (Some (User._id cu)) us
         = Auth.reject 403 "Cannot send message to this user")
  ∧ (∀ now me cid b db us',
       let db' := mkDB us' (conversations db) (messages db) (nextId db) in
       (send_message now me cid b db').1 = (send_message now me cid b db).1
       ∧ conversations (send_message now me cid b db').2
         = conversations (send_message now me cid b db).2
       ∧ messages (send_message now me cid b db').2
         = messages (send_message now me cid b db).2).
Proof.
  split_and!.
  - unfold Auth.canMessageUser. split.
    + destruct rid as [r|]; [|done].
      destruct (decide (User._id cu = r)) as [|Hne]; [done|].
      destruct (Store.findById User._id r us) as [recipient|] eqn:Hr; [|done].
      destruct (JS.includes (User._id cu) (User.blockedUsers recipient)) eqn:Hb1; [done|].
      destruct (JS.includes r (User.blockedUsers cu)) eqn:Hb2; [done|].
      destruct (bool_decide_reflect (User.allowMessagesFrom recipient = User.followers))
        as [Hp|Hp]; cbn [andb].
      * destruct (JS.includes (User._id cu) (User.followers_of recipient)) eqn:Hf; [|done].
        intros _. exists r, recipient.
        apply includes_false in Hb1, Hb2. apply includes_true in Hf.
        split_and!; first [done|congruence].
      * intros _. exists r, recipient.
        apply includes_false in Hb1, Hb2. split_and!; first [done|congruence].
    + intros (r & recipient & -> & Hne & Hr & Hb1 & Hb2 & Hp).
      rewrite decide_False by congruence. rewrite Hr.
      rewrite (proj2 (includes_false _ _) Hb1), (proj2 (includes_false _ _) Hb2).
      destruct (bool_decide_reflect (User.allowMessagesFrom recipient = User.followers))
        as [Hf|Hf]; [|done].
      by rewrite (proj2 (includes_true _ _) (Hp Hf)).
  - intros other Hne Hcu Hother Hblock. unfold Auth.canMessageUser.
    rewrite !decide_False by congruence. rewrite Hcu, Hother.
    destruct Hblock as [Hb|Hb]; rewrite (proj2 (includes_true _ _) Hb).
    + split; [|done]. by destruct (JS.includes (User._id cu) (User.blockedUsers other)).
    + split; [done|]. by destruct (JS.includes (User._id other) (User.blockedUsers cu)).
  - intros now me cid b db us' db'. unfold send_message, db'. cbn [conversations nextId].
    repeat case_match; by split_and!.
Qed.

Lemma canMessageUser_passes_exactly_witness :
  let mallory := User.mk 4 [] [1] User.everyone in
  Auth.canMessageUser alice (Some 4) [alice; bob; carol; mallory]
  = Auth.reject 403 "Cannot send message to this user"
  ∧ Auth.canMessageUser mallory (Some 1) [alice; bob; carol; mallory]
    = Auth.reject 403 "Cannot send message to this user"
  ∧ Auth.canMessageUser alice (Some 2) [alice; bob; carol; mallory] = Auth.next.
Proof.
  intros mallory.
  destruct (canMessageUser_passes_exactly mallory (Some 1) [alice; bob; carol; mallory])
    as (_ & Hblock & _).
  destruct (Hblock alice) as [H1 H2];
    [simpl; lia|by vm_compute|by vm_compute|left; simpl; apply list_elem_of_here|].
  destruct (canMessageUser_passes_exactly alice (Some 2) [alice; bob; carol; mallory])
    as (Hnext & _).
  split_and!; [exact H2|exact H1|].
  apply Hnext. exists 2, bob. split_and!; try done.
  - simpl. apply not_elem_of_nil.
  - simpl. apply not_elem_of_nil.
Defined.

(** X14. A group is stored through POST /conversations only when the
    request passes [canMessageUser], that is, when it also names a
    [recipientId] whom the requester may message: without one the request
    is answered 404 "Recipient not found" whatever the group information
    is.  A group that is stored has the requester followed by the listed
    participants as its participants (the recipient is not added), the
    requester as its creator and its only admin, no unread counter and no
    settings entry for anybody, and it is stored under a new id.  The
    request that stored it is answered 500 "Server error", not 201: the
    populated participants, the requester first, cannot be serialised. *)
Theorem group_creation_needs_a_recipient (now : Date) (cu : User.t)
    (b : ConversationBody) (db : DB) :
  isGroup b = true →
  (recipientId b = None →
   post_conversations now cu b db = (Error 404 "Recipient not found", db))
  ∧ ((post_conversations now cu b db).2 = db
     ∨ ∃ gi ps c,
         Auth.canMessageUser cu (recipientId b) (users db) = Auth.next
         ∧ groupInfo b = Some gi ∧ gi_participants gi = Some ps
         ∧ JS.falsy (gi_name gi) = false
         ∧ post_conversations now cu b db
           = (Error 500 "Server error", save_conversation c (fresh db))
         ∧ Conversation._id c = nextId db
         ∧ Conversation.participants c = User._id cu :: ps
         ∧ Conversation.isGroup c = true
         ∧ Conversation.admins (Conversation.groupInfo c) = [User._id cu]
         ∧ Conversation.createdBy (Conversation.groupInfo c) = Some (User._id cu)
         ∧ Conversation.isAdmin (User._id cu) c = true
         ∧ Conversation.unreadCounts c = []
         ∧ Conversation.participantSettings c = []).
Proof.
  intros Hg. split.
  - intros Hr. unfold post_conversations. by rewrite Hr.
  - unfold post_conversations, create_conversation. rewrite Hg.
    destruct (Auth.canMessageUser cu (recipientId b) (users db)); [|by left].
    destruct (groupInfo b) as [gi|]; [|by left].
    destruct (JS.falsy (gi_name gi)) eqn:Hname; [by left|].
    destruct (gi_participants gi) as [ps|] eqn:Hps; [|by left].
    destruct (validate_groupInfo _); [|by left].
    right. eexists gi, ps, _. split_and!; try done.
    apply isAdmin_true. split; [done|]. simpl. apply list_elem_of_here.
Qed.

Lemma group_creation_needs_a_recipient_witness :
  let info := mkGroupInfoBody (Some "trio") None (Some [3]) None in
  post_conversations 1000 alice (mkConversationBody None true (Some info)) db_users
  = (Error 404 "Recipient not found", db_users)
  ∧ ∃ c,
      post_conversations 1000 alice (mkConversationBody (Some 2) true (Some info)) db_users
      = (Error 500 "Server error", save_conversation c (fresh db_users))
      ∧ Conversation.participants c = [1; 3]
      ∧ Conversation.isAdmin 1 c = true.
Proof.
  intros info. split.
  - by apply (group_creation_needs_a_recipient 1000 alice
                (mkConversationBody None true (Some info)) db_users).
  - destruct (group_creation_needs_a_recipient 1000 alice
                (mkConversationBody (Some 2) true (Some info)) db_users) as [_ Hmade];
      [done|].
    destruct Hmade
      as [Hsame | (gi & ps & c & _ & Hgi & Hps & _ & Hpost & _ & Hp & _ & _ & _ & Hadm & _)];
      [by vm_compute in Hsame|].
    exists c. split_and!; [exact Hpost| |exact Hadm].
    rewrite Hp. cbn [groupInfo] in Hgi. injection Hgi as <-.
    cbn [gi_participants info] in Hps. by injection Hps as <-.
Defined.

End Gatekeeper.

(** ** GET /conversations *)

Section Inbox.
Import Routes Server Scenario.

Global Instance latest_first_total : Total latest_first.
Proof. intros c1 c2. unfold latest_first. lia. Qed.

Global Instance latest_first_trans : Transitive latest_first.
Proof. intros c1 c2 c3. unfold latest_first. lia. Qed.

Lemma length_fetched {A} (limit skip : nat) (l : list A) :
  length (limit_to limit (drop skip l))
  = if decide (limit = 0) then length l - skip else limit `min` (length l - skip).
Proof.
  unfold limit_to. destruct (decide (limit = 0)).
  - by rewrite length_drop.
  - by rewrite length_take, length_drop.
Qed.

(** X15. GET /conversations writes nothing.  Its query fetches stored
    conversations that the requester participates in and that are neither
    deleted nor archived by the requester, ordered by the instant of their
    last message, latest first.  For a page number other than 0 the route
    answers 200 only when that page is empty, with no conversation and no
    further page; when the page holds a conversation the answer is 500
    "Server error", because its populated participants cannot be
    serialised.  On the first page this means: 200 exactly for a requester
    who has no conversation to be listed. *)
Theorem conversation_list_is_the_inbox (me : ObjectId) (limit page : option nat)
    (db : DB) :
  let matching := filter (in_inbox me) (conversations db) in
  let fetched :=
    limit_to (default 20 limit)
      (drop ((default 1 page - 1) * default 20 limit)
         (merge_sort latest_first matching)) in
  (get_conversations me limit page db).2 = db
  ∧ Forall (λ c, c ∈ conversations db ∧ in_inbox me c) fetched
  ∧ StronglySorted latest_first fetched
  ∧ (default 1 page ≠ 0 →
     (fetched ≠ [] →
      get_conversations me limit page db = (Error 500 "Server error", db))
     ∧ (fetched = [] →
        get_conversations me limit page db
        = (Reply 200
             (mkConversationsPage []
                (mkPagination (default 1 page)
                   (ceil_div (length matching) (default 20 limit)) false)),
           db)))
  ∧ (default 1 page = 1 → (fetched = [] ↔ matching = [])).
Proof.
  cbv zeta.
  set (matching := filter (in_inbox me) (conversations db)).
  split_and!.
  - unfold get_conversations. cbv zeta. destruct (bool_decide _); [done|].
    by destruct (limit_to _ _).
  - apply Forall_forall. intros c Hc.
    apply limit_to_subseteq, subseteq_drop in Hc.
    rewrite merge_sort_Permutation in Hc.
    apply list_elem_of_filter in Hc. tauto.
  - apply StronglySorted_limit_to, StronglySorted_drop.
    apply StronglySorted_merge_sort; apply _.
  - intros Hp. unfold get_conversations. cbv zeta.
    assert (Hskip : (0 ≤ (Z.of_nat (default 1%nat page) - 1)
                         * Z.of_nat (default 20%nat limit))%Z) by nia.
    rewrite bool_decide_eq_false_2 by lia.
    assert (Hnat : Z.to_nat ((Z.of_nat (default 1%nat page) - 1)
                             * Z.of_nat (default 20%nat limit))
                   = ((default 1 page - 1) * default 20 limit)%nat) by nia.
    rewrite !Hnat. fold matching.
    pose proof (length_fetched (default 20 limit)
                  ((default 1 page - 1) * default 20 limit)
                  (merge_sort latest_first matching)) as Hlen.
    rewrite (Permutation_length (merge_sort_Permutation _ matching)) in Hlen.
    destruct (limit_to _ _) as [|c found]; split; try done.
    intros _. simpl in Hlen. repeat f_equal. apply bool_decide_eq_false_2.
    destruct (decide (default 20 limit = 0)); lia.
  - intros Hp. rewrite Hp. simpl. rewrite drop_0. split.
    + intros Hnil. apply Permutation_nil_r.
      rewrite <- (merge_sort_Permutation latest_first matching).
      unfold limit_to in Hnil. destruct (decide (default 20 limit = 0)); [by rewrite Hnil|].
      destruct (merge_sort latest_first matching) as [|c l]; [done|].
      destruct (default 20 limit); [done|discriminate].
    + intros Hnil. rewrite Hnil.
      assert (merge_sort latest_first [] = []) as ->.
      { apply Permutation_nil_r. by rewrite merge_sort_Permutation. }
      unfold limit_to. destruct (decide _); [done|apply take_nil].
Qed.

Lemma conversation_list_is_the_inbox_witness :
  get_conversations 1 None None db_sent = (Error 500 "Server error", db_sent)
  ∧ get_conversations 3 None None db_sent
    = (Reply 200 (mkConversationsPage [] (mkPagination 1 (Some 0) false)), db_sent).
Proof.
  destruct (conversation_list_is_the_inbox 1 None None db_sent) as (_ & _ & _ & H1 & _).
  destruct H1 as [H500 _]; [by vm_compute|].
  destruct (conversation_list_is_the_inbox 3 None None db_sent) as (_ & _ & _ & H3 & _).
  destruct H3 as [_ H200]; [by vm_compute|].
  split; [apply H500; by vm_compute|].
  etrans; [apply H200; by vm_compute|by vm_compute].
Defined.

End Inbox.

(** ** Uploaded media *)

Section UploadFacts.
Import Routes Upload.

Lemma upload_includes x l : includes x l = true ↔ x ∈ l.
Proof. unfold includes. apply bool_decide_eq_true. Qed.

Lemma image_types_start_with_image s :
  s ∈ allowedImageTypes → JS.startsWith "image/" s = true.
Proof.
  unfold allowedImageTypes. rewrite !elem_of_cons, elem_of_nil.
  intros [->|[->|[->|[->|[->|[]]]]]]; by vm_compute.
Qed.

Lemma video_types_start_with_video s :
  s ∈ allowedVideoTypes →
  JS.startsWith "image/" s = false ∧ JS.startsWith "video/" s = true.
Proof.
  unfold allowedVideoTypes. rewrite !elem_of_cons, elem_of_nil.
  intros [->|[->|[->|[->|[->|[->|[]]]]]]]; by vm_compute.
Qed.

Lemma audio_types_are_filtered s :
  s ∈ allowedAudioTypes →
  includes s allowedImageTypes = false ∧ includes s allowedVideoTypes = false.
Proof.
  unfold allowedAudioTypes. rewrite !elem_of_cons, elem_of_nil.
  intros [->|[->|[->|[->|[]]]]]; by vm_compute.
Qed.

(** X16. The file that reaches the send handler is the file that was sent,
    and it passed [fileFilter]: its type is one of the five picture types or
    the six video types, so that the message built from it is typed [image]
    or [video], never [audio] or [file], and carries the URL of the file
    under uploads/messages with its original name and size.  An audio file,
    which [validateMessageMedia] would accept, ends the request in the
    upload middleware.  [validateMessageMedia] lets exactly the requests
    through that have a file of a picture, video or audio type of at most
    25MB; it refuses every request without a file. *)
Theorem uploaded_media_is_a_picture_or_a_video (f : UploadedFile)
    (text : option string) (reply : option ObjectId) (scheduled : option Date) :
  (∀ f', uploadMessageMedia (Some f) = Some f' →
     f' = Some f
     ∧ mimetype f ∈ allowedImageTypes ++ allowedVideoTypes
     ∧ Message.type (content_of (mkBody text reply scheduled f'))
       = (if includes (mimetype f) allowedImageTypes then Message.image else Message.video)
     ∧ Message.media (content_of (mkBody text reply scheduled f'))
       = Some (Message.mkMedia
                 ("http://localhost:5000/uploads/messages/" +:+ file_name f)
                 (originalname f) (file_size f)))
  ∧ (mimetype f ∈ allowedAudioTypes → uploadMessageMedia (Some f) = None)
  ∧ uploadMessageMedia None = Some None
  ∧ (∀ file, validateMessageMedia file = Auth.next
             ↔ ∃ g, file = Some g
                    ∧ mimetype g ∈ allowedImageTypes ++ allowedVideoTypes ++ allowedAudioTypes
                    ∧ file_size g ≤ 25 * 1024 * 1024).
Proof.
  split_and!.
  - intros f'. unfold uploadMessageMedia, fileFilter.
    destruct (includes (mimetype f) allowedImageTypes) eqn:Hi.
    + destruct (bool_decide _); [|done]. intros [= <-].
      apply upload_includes in Hi. split_and!; [done|..].
      * apply elem_of_app. by left.
      * unfold content_of. cbn [file]. by rewrite image_types_start_with_image.
      * done.
    + destruct (includes (mimetype f) allowedVideoTypes) eqn:Hv; [|done].
      destruct (bool_decide _); [|done]. intros [= <-].
      apply upload_includes in Hv. split_and!; [done|..].
      * apply elem_of_app. by right.
      * unfold content_of. cbn [file].
        destruct (video_types_start_with_video _ Hv) as [-> ->]. done.
      * done.
  - intros Ha. unfold uploadMessageMedia, fileFilter.
    by destruct (audio_types_are_filtered _ Ha) as [-> ->].
  - done.
  - intros file. unfold validateMessageMedia. destruct file as [g|].
    + assert (Hin : mimetype g ∈ allowedImageTypes ++ allowedVideoTypes ++ allowedAudioTypes
                    ↔ includes (mimetype g) allowedImageTypes = true
                      ∨ includes (mimetype g) allowedVideoTypes = true
                      ∨ includes (mimetype g) allowedAudioTypes = true).
      { by rewrite !elem_of_app, <- !upload_includes. }
      split.
      * intros Hnext. exists g. split; [done|]. rewrite Hin.
        destruct (includes (mimetype g) allowedImageTypes),
          (includes (mimetype g) allowedVideoTypes),
          (includes (mimetype g) allowedAudioTypes); cbn [negb andb] in Hnext;
          try done; (case_bool_decide; [done|]; split; [tauto|lia]).
      * intros (g' & [= <-] & Hm & Hsz). apply Hin in Hm.
        rewrite (bool_decide_eq_false_2 (25 * 1024 * 1024 < file_size g)) by lia.
        destruct (includes (mimetype g) allowedImageTypes),
          (includes (mimetype g) allowedVideoTypes),
          (includes (mimetype g) allowedAudioTypes); cbn [negb andb]; try done.
        by destruct Hm as [?|[?|?]].
    + split; [done|]. by intros (g & ? & _).
Qed.

Lemma uploaded_media_is_a_picture_or_a_video_witness :
  let song := mkFile "audio/mp3" "messageMedia-1.mp3" "song.mp3" 1000 in
  uploadMessageMedia (Some song) = None
  ∧ validateMessageMedia (Some song) = Auth.next.
Proof.
  intros song.
  destruct (uploaded_media_is_a_picture_or_a_video song None None None)
    as (_ & Haudio & _ & Hvalid).
  split.
  - apply Haudio. apply (bool_decide_unpack _). by vm_compute.
  - apply Hvalid. exists song. split_and!; [done| |unfold song; cbn [file_size]; lia].
    apply (bool_decide_unpack _). by vm_compute.
Defined.

End UploadFacts.

(** ** The rate limiter *)

Section RateLimitFacts.
Import RateLimit.
Context (windowMs : Z) (max : nat).

Lemma in_window_app t l1 l2 :
  in_window windowMs t (l1 ++ l2) = in_window windowMs t l1 + in_window windowMs t l2.
Proof. unfold in_window. by rewrite filter_app, length_app. Qed.

Lemma in_window_later t l :
  Forall (λ s, (t < s)%Z) l → in_window windowMs t l = 0.
Proof.
  unfold in_window. induction 1 as [|s l Hs Hl IH]; [done|].
  by rewrite filter_cons_False by lia.
Qed.

Lemma in_window_recent t now l :
  (now ≤ t)%Z →
  in_window windowMs t (filter (λ time, (now - windowMs < time)%Z) l)
  = in_window windowMs t l.
Proof.
  intros Ht. unfold in_window. induction l as [|s l IH]; [done|].
  rewrite (filter_cons _ s l). destruct (decide (now - windowMs < s)%Z).
  - rewrite !(filter_cons _ s). destruct (decide _); simpl; by rewrite IH.
  - rewrite IH. by rewrite (filter_cons_False _ s l) by lia.
Qed.

Lemma in_window_filter_le t (P : Z → Prop) `{!∀ x, Decision (P x)} l :
  in_window windowMs t (filter P l) ≤ in_window windowMs t l.
Proof.
  unfold in_window. induction l as [|s l IH]; [done|].
  rewrite (filter_cons P s l), (filter_cons _ s l).
  destruct (decide (P s)); [rewrite (filter_cons _ s)|];
    destruct (decide _); simpl; lia.
Qed.

Lemma instants_of_cons key (a : Arrival) passed :
  instants_of key (a :: passed)
  = if decide (a.1 = key) then a.2 :: instants_of key passed else instants_of key passed.
Proof. unfold instants_of. rewrite filter_cons. by destruct (decide _). Qed.

Lemma instants_of_Forall key (Q : Z → Prop) (passed : list Arrival) :
  Forall (λ a, Q a.2) passed → Forall Q (instants_of key passed).
Proof.
  intros Hall. unfold instants_of. apply Forall_fmap, Forall_forall.
  intros a [_ Ha]%list_elem_of_filter. rewrite Forall_forall in Hall. by apply Hall.
Qed.

(** The recorded instants of [key] after the middleware served a request
    of [k]. *)
Lemma rateLimit_stored key k now reqs :
  let recent := filter (λ time, (now - windowMs < time)%Z) (default [] (reqs !! key)) in
  let res := rateLimit windowMs max k now reqs in
  (k ≠ key → default [] (res.2 !! key) = default [] (reqs !! key))
  ∧ (k = key →
     (max ≤ length recent
      ∧ res.1 = Auth.reject 429 "Too many requests, please try again later"
      ∧ default [] (res.2 !! key) = default [] (reqs !! key))
     ∨ (length recent < max ∧ res.1 = Auth.next
        ∧ default [] (res.2 !! key) = recent ++ [now])).
Proof.
  cbv zeta. unfold rateLimit, Requests in *.
  set (reqs1 := if decide (is_Some (reqs !! k)) then reqs else <[k := []]> reqs).
  assert (H1 : ∀ key', default [] (reqs1 !! key') = default [] (reqs !! key')).
  { intros key'. unfold reqs1. destruct (decide (is_Some (reqs !! k))) as [|Hn]; [done|].
    destruct (decide (k = key')) as [<-|Hne].
    - rewrite lookup_insert_eq. apply eq_None_not_Some in Hn. by rewrite Hn.
    - by rewrite lookup_insert_ne. }
  split.
  - intros Hne. destruct (decide (max ≤ _)); cbn [snd].
    + apply H1.
    + rewrite lookup_insert_ne by done. apply H1.
  - intros ->. rewrite H1. destruct (decide (max ≤ _)) as [Hfull|Hroom]; cbn [fst snd].
    + left. by rewrite H1.
    + right. rewrite lookup_insert_eq. split_and!; [lia|done|done].
Qed.

Lemma serve_cons a arrivals reqs :
  serve windowMs max (a :: arrivals) reqs
  = (match (rateLimit windowMs max a.1 a.2 reqs).1 with
     | Auth.next =>
         a :: (serve windowMs max arrivals (rateLimit windowMs max a.1 a.2 reqs).2).1
     | Auth.reject _ _ =>
         (serve windowMs max arrivals (rateLimit windowMs max a.1 a.2 reqs).2).1
     end,
     (serve windowMs max arrivals (rateLimit windowMs max a.1 a.2 reqs).2).2).
Proof.
  simpl. destruct (rateLimit _ _ _ _ _) as [v r1].
  by destruct (serve _ _ _ _).
Qed.

Lemma serve_passed_Forall (P : Arrival → Prop) arrivals reqs :
  Forall P arrivals → Forall P (serve windowMs max arrivals reqs).1.
Proof.
  revert reqs. induction arrivals as [|a arrivals IH]; intros reqs Hall; [done|].
  apply Forall_cons in Hall as [Ha Hall]. rewrite serve_cons. cbn [fst].
  destruct (rateLimit _ _ _ _ _).1; [constructor|]; auto.
Qed.

Lemma serve_window key arrivals reqs :
  StronglySorted (λ a b : Arrival, (a.2 ≤ b.2)%Z) arrivals →
  (∀ t, in_window windowMs t (default [] (reqs !! key)) ≤ max) →
  Forall (λ a : Arrival, Forall (λ s, (s ≤ a.2)%Z) (default [] (reqs !! key))) arrivals →
  ∀ t, in_window windowMs t
         (default [] (reqs !! key)
            ++ instants_of key (serve windowMs max arrivals reqs).1) ≤ max.
Proof.
  revert reqs.
  induction arrivals as [|[k now] arrivals IH]; intros reqs Hsorted HS Hbefore t.
  - simpl. unfold instants_of. simpl. rewrite app_nil_r. apply HS.
  - inversion Hsorted as [|? ? Hsorted' Hnow]; subst.
    apply Forall_cons in Hbefore as [HSnow Hbefore]. cbn [snd] in HSnow.
    rewrite serve_cons. cbn [fst snd].
    destruct (rateLimit_stored key k now reqs) as [Hother Hsame].
    destruct (decide (k = key)) as [->|Hne].
    + destruct (Hsame eq_refl) as [(Hfull & Hv & HS') | (Hroom & Hv & HS')]; rewrite Hv.
      * rewrite <- HS'. apply IH; [done|by rewrite HS'|by rewrite HS'].
      * rewrite instants_of_cons, decide_True by done. cbn [snd].
        set (S := default [] (reqs !! key)) in *.
        set (recent := filter (λ time, (now - windowMs < time)%Z) S) in *.
        set (rest := instants_of key _).
        assert (Hrest : Forall (λ s, (now ≤ s)%Z) rest).
        { apply instants_of_Forall, serve_passed_Forall.
          eapply Forall_impl; [exact Hnow|]. by intros a. }
        assert (IH' : ∀ t, in_window windowMs t ((recent ++ [now]) ++ rest) ≤ max).
        { rewrite <- HS'. apply IH; [done|..]; rewrite HS'.
          - intros t'. rewrite in_window_app.
            destruct (decide (t' < now)%Z) as [Hlt|Hge].
            + rewrite (in_window_later t' [now]) by (repeat constructor; lia).
              pose proof (in_window_filter_le t' (λ time, (now - windowMs < time)%Z) S).
              specialize (HS t'). fold recent in H. lia.
            + unfold in_window at 1 2.
              pose proof (length_filter (λ time, (t' - windowMs < time ∧ time ≤ t')%Z) recent).
              pose proof (length_filter (λ time, (t' - windowMs < time ∧ time ≤ t')%Z) [now]).
              simpl in *. lia.
          - rewrite Forall_forall in Hnow, Hbefore. apply Forall_forall. intros a Ha.
            apply Forall_app. split.
            + unfold recent. apply Forall_forall. intros s [_ Hs]%list_elem_of_filter.
              specialize (Hbefore a Ha). rewrite Forall_forall in Hbefore. by apply Hbefore.
            + apply Forall_singleton. by apply Hnow. }
        destruct (decide (t < now)%Z) as [Hlt|Hge].
        -- rewrite in_window_app.
           rewrite (in_window_later t (now :: rest)).
           ++ specialize (HS t). lia.
           ++ constructor; [done|]. eapply Forall_impl; [exact Hrest|].
              intros s Hs. simpl in Hs. lia.
        -- specialize (IH' t). rewrite <- (assoc_L (++)), in_window_app in IH'.
           unfold recent in IH'. rewrite in_window_recent in IH' by lia.
           rewrite in_window_app. exact IH'.
    + rewrite <- (Hother Hne). 
      assert (Hpassed : ∀ p,
        instants_of key
          (match (rateLimit windowMs max k now reqs).1 with
           | Auth.next => (k, now) :: p
           | Auth.reject _ _ => p
           end) = instants_of key p).
      { intros p. destruct (rateLimit _ _ _ _ _).1; [|done].
        rewrite instants_of_cons. by rewrite decide_False. }
      rewrite Hpassed. apply IH; [done|by rewrite Hother|by rewrite Hother].
Qed.

End RateLimitFacts.

Section RateLimitGuarantee.
Import RateLimit.

(** X17. The rate limiter keeps its promise for every window: when the
    requests arrive in the order of their instants and the middleware starts
    with its empty map, then among the requests of one key that it lets
    through, at most [max] lie in any span of [windowMs] milliseconds,
    wherever that span begins; requests of other keys do not count. *)
Theorem rate_limit_bounds_every_window (windowMs : Z) (max : nat)
    (arrivals : list Arrival) (key : string) (t : Z) :
  StronglySorted (λ a b : Arrival, (a.2 ≤ b.2)%Z) arrivals →
  in_window windowMs t (instants_of key (serve windowMs max arrivals ∅).1) ≤ max.
Proof.
  intros Hsorted.
  pose proof (serve_window windowMs max key arrivals ∅ Hsorted) as Hw.
  unfold Requests in Hw. rewrite lookup_empty in Hw. apply Hw.
  - intros t'. cbn. lia.
  - apply Forall_forall. intros a _. constructor.
Qed.

Lemma rate_limit_bounds_every_window_witness :
  let arrivals :=
    [("10.0.0.1", 0%Z); ("10.0.0.1", 1%Z); ("10.0.0.2", 1%Z);
     ("10.0.0.1", 2%Z); ("10.0.0.1", 11%Z)] in
  (serve 10 2 arrivals ∅).1
  = [("10.0.0.1", 0%Z); ("10.0.0.1", 1%Z); ("10.0.0.2", 1%Z); ("10.0.0.1", 11%Z)]
  ∧ in_window 10 11 (instants_of "10.0.0.1" (serve 10 2 arrivals ∅).1) ≤ 2.
Proof.
  intros arrivals. split; [by vm_compute|].
  apply rate_limit_bounds_every_window.
  repeat first [by (cbn; lia)|constructor].
Defined.

End RateLimitGuarantee.

Section RateLimitDecision.
Import RateLimit.

Lemma serve_app windowMs max arrivals1 arrivals2 reqs :
  serve windowMs max (arrivals1 ++ arrivals2) reqs
  = ((serve windowMs max arrivals1 reqs).1
       ++ (serve windowMs max arrivals2 (serve windowMs max arrivals1 reqs).2).1,
     (serve windowMs max arrivals2 (serve windowMs max arrivals1 reqs).2).2).
Proof.
  revert reqs. induction arrivals1 as [|a arrivals1 IH]; intros reqs.
  - simpl. by destruct (serve _ _ _ _).
  - rewrite <- app_comm_cons, !serve_cons, IH. cbn [fst snd].
    by destruct (rateLimit _ _ _ _ _).1.
Qed.

Lemma instants_of_app key (l1 l2 : list Arrival) :
  instants_of key (l1 ++ l2) = instants_of key l1 ++ instants_of key l2.
Proof. unfold instants_of. by rewrite filter_app, fmap_app. Qed.

(** The instants that the map holds for a key and the instants at which
    requests of the key were let through differ in instants that have left
    the window for good. *)
Lemma stored_is_recent_history windowMs max key arrivals T :
  StronglySorted (λ a b : Arrival, (a.2 ≤ b.2)%Z) arrivals →
  Forall (λ a : Arrival, (a.2 ≤ T)%Z) arrivals →
  filter (λ time, (T - windowMs < time)%Z)
    (default [] ((serve windowMs max arrivals ∅).2 !! key))
  = filter (λ time, (T - windowMs < time)%Z)
      (instants_of key (serve windowMs max arrivals ∅).1).
Proof.
  revert T. induction arrivals as [|[k now] arrivals IH] using rev_ind; intros T Hsorted HT.
  - simpl. unfold Requests. by rewrite lookup_empty.
  - apply StronglySorted_app in Hsorted as (Hlast & Hsorted & _).
    apply Forall_app in HT as [HT Hnow]. rewrite Forall_singleton in Hnow.
    cbn [snd] in Hnow.
    assert (Hbefore : Forall (λ a : Arrival, (a.2 ≤ now)%Z) arrivals).
    { apply Forall_forall. intros a Ha.
      apply (Hlast a (k, now)); [done|apply list_elem_of_here]. }
    rewrite serve_app. cbn [fst snd]. rewrite (serve_cons _ _ (k, now) []).
    cbn [serve fst snd].
    destruct (rateLimit_stored windowMs max key k now (serve windowMs max arrivals ∅).2)
      as [Hother Hsame].
    rewrite instants_of_app, filter_app.
    destruct (decide (k = key)) as [->|Hne].
    + destruct (Hsame eq_refl) as [(_ & Hv & ->) | (_ & Hv & ->)]; rewrite Hv.
      * rewrite (IH T) by done. unfold instants_of at 2. simpl. by rewrite app_nil_r.
      * rewrite filter_app, list_filter_filter_l by (intros s; lia).
        rewrite (IH T) by done. f_equal.
        rewrite instants_of_cons, decide_True by done. done.
    + rewrite (Hother Hne), (IH T) by done.
      destruct (rateLimit _ _ _ _ _).1.
      * rewrite instants_of_cons, decide_False by done.
        unfold instants_of at 2. simpl. by rewrite app_nil_r.
      * unfold instants_of at 2. simpl. by rewrite app_nil_r.
Qed.

(** X18. The rate limiter refuses nobody without cause: served in the order
    of their instants from the empty map, a request is let through exactly
    when fewer than [max] of the requests of its own key that were let
    through before it came less than [windowMs] milliseconds before it, and
    it is answered 429 when [max] or more of them did.  Refused requests and the requests of
    other keys do not count against it. *)
Theorem rate_limit_decision (windowMs : Z) (max : nat) (earlier : list Arrival)
    (a : Arrival) :
  StronglySorted (λ a b : Arrival, (a.2 ≤ b.2)%Z) (earlier ++ [a]) →
  let served := serve windowMs max earlier ∅ in
  let recent :=
    filter (λ time, (a.2 - windowMs < time)%Z) (instants_of a.1 served.1) in
  (rateLimit windowMs max a.1 a.2 served.2).1
  = if decide (max ≤ length recent)
    then Auth.reject 429 "Too many requests, please try again later"
    else Auth.next.
Proof.
  intros (Hlast & Hsorted & _)%StronglySorted_app served recent.
  assert (Hbefore : Forall (λ b : Arrival, (b.2 ≤ a.2)%Z) earlier).
  { apply Forall_forall. intros b Hb. apply (Hlast b a); [done|apply list_elem_of_here]. }
  unfold recent, served.
  rewrite <- (stored_is_recent_history windowMs max a.1 earlier a.2) by done.
  destruct (rateLimit_stored windowMs max a.1 a.1 a.2 (serve windowMs max earlier ∅).2)
    as [_ Hsame].
  destruct (Hsame eq_refl) as [(Hfull & -> & _) | (Hroom & -> & _)].
  - by rewrite decide_True by lia.
  - by rewrite decide_False by lia.
Qed.

Lemma rate_limit_decision_witness :
  let earlier := [("10.0.0.1", 0%Z); ("10.0.0.1", 1%Z); ("10.0.0.1", 2%Z)] in
  (rateLimit 10 2 "10.0.0.1" 5 (serve 10 2 earlier ∅).2).1
  = Auth.reject 429 "Too many requests, please try again later"
  ∧ (rateLimit 10 2 "10.0.0.1" 11 (serve 10 2 earlier ∅).2).1 = Auth.next.
Proof.
  intros earlier. split.
  - etrans; [apply (rate_limit_decision 10 2 earlier ("10.0.0.1", 5%Z))|by vm_compute].
    unfold earlier. simpl. repeat first [by (cbn; lia)|constructor].
  - etrans; [apply (rate_limit_decision 10 2 earlier ("10.0.0.1", 11%Z))|by vm_compute].
    unfold earlier. simpl. repeat first [by (cbn; lia)|constructor].
Defined.

End RateLimitDecision.

(** ** Conversations whose entries match their participants *)

Section Matched.
Import Conversation.

Lemma entries_match_assignSetting f u c :
  (∀ s, ps_user (f s) = ps_user s) →
  entries_match c → entries_match (assignSetting f u c).
Proof.
  intros Hf [Hu Hs]. unfold assignSetting.
  destruct (list_find _ _) as [[i s]|] eqn:Hfind; [|done].
  split; [done|]. simpl. by rewrite (insert_found_keys ps_user _ u i s).
Qed.

Lemma entries_match_set_archivedBy a c :
  entries_match c → entries_match (set_archivedBy a c).
Proof. by intros [Hu Hs]. Qed.

Lemma entries_match_has_entries u c :
  entries_match c → u ∈ participants c →
  is_Some (JS.find (λ d, ud_user d = u) (unreadCounts c))
  ∧ is_Some (settingOf u c).
Proof.
  intros [Hu Hs] Hin. split.
  - rewrite <- Hu in Hin. apply list_elem_of_fmap in Hin as (d & -> & Hd).
    by eapply find_is_Some.
  - rewrite <- Hs in Hin. apply list_elem_of_fmap in Hin as (s & -> & Hd).
    by eapply find_is_Some.
Qed.

(** X19. The per-participant entries, once they match the participants
    (one unread counter and one settings entry each, in the order of the
    participants), stay so under every method of the model.  In such a
    conversation the methods do for a participant what their names say:
    [incrementUnreadCount] adds exactly one to the participant's count,
    [markAsRead] sets it to 0 and stamps the instant, [muteForUser] mutes
    and [unmuteForUser] unmutes. *)
Theorem matched_entries_make_the_counters_work (u : ObjectId) (now : Date)
    (mid : ObjectId) (c : Conversation.t) :
  entries_match c →
  (entries_match (updateLastMessage mid now c)
   ∧ entries_match (incrementUnreadCount u c)
   ∧ entries_match (markAsRead u now c)
   ∧ entries_match (muteForUser u c) ∧ entries_match (unmuteForUser u c)
   ∧ entries_match (pinForUser u c) ∧ entries_match (unpinForUser u c)
   ∧ entries_match (archiveForUser u now c) ∧ entries_match (unarchiveForUser u c)
   ∧ entries_match (addAdmin u c) ∧ entries_match (removeAdmin u c))
  ∧ (u ∈ participants c →
     getUnreadCount u (incrementUnreadCount u c) = getUnreadCount u c + 1
     ∧ getUnreadCount u (markAsRead u now c) = 0
     ∧ (lastReadAt <$> JS.find (λ d, ud_user d = u) (unreadCounts (markAsRead u now c)))
       = Some now
     ∧ mutedFor u (muteForUser u c) = true
     ∧ mutedFor u (unmuteForUser u c) = false).
Proof.
  intros Hc. split.
  - split_and!.
    + by destruct Hc.
    + destruct Hc as [Hu Hs]. unfold incrementUnreadCount.
      destruct (list_find _ _) as [[i d]|] eqn:Hfind; [|done].
      split; [|done]. simpl. by rewrite (insert_found_keys ud_user _ u i d).
    + destruct Hc as [Hu Hs]. unfold markAsRead.
      destruct (list_find _ _) as [[i d]|] eqn:Hfind; [|done].
      split; [|done]. simpl. by rewrite (insert_found_keys ud_user _ u i d).
    + by apply (entries_match_assignSetting (set_isMuted true)).
    + by apply (entries_match_assignSetting (set_isMuted false)).
    + by apply (entries_match_assignSetting (set_isPinned true)).
    + by apply (entries_match_assignSetting (set_isPinned false)).
    + rewrite archiveForUser_assign.
      by apply entries_match_set_archivedBy, entries_match_assignSetting.
    + rewrite unarchiveForUser_assign.
      by apply entries_match_set_archivedBy, entries_match_assignSetting.
    + unfold addAdmin. destruct (isGroup c && negb (isAdmin u c)); [|done].
      by destruct Hc.
    + unfold removeAdmin. destruct (isGroup c); [|done]. by destruct Hc.
  - intros Hin. destruct (entries_match_has_entries u c Hc Hin) as [Hd Hs].
    split_and!.
    + by apply getUnreadCount_increment_eq.
    + apply getUnreadCount_markAsRead.
    + destruct Hd as [d Hd]. unfold markAsRead.
      destruct (list_find _ _) as [[i d']|] eqn:Hfind.
      * simpl. rewrite (find_insert_key ud_user _ u u i d') by done.
        by rewrite decide_True.
      * apply find_list_find_None in Hfind. congruence.
    + by apply mutedFor_muteForUser.
    + destruct Hs as [s Hs]. unfold mutedFor.
      pose proof (settingOf_assignSetting (set_isMuted false) (λ _, eq_refl) u u c) as Hset.
      rewrite decide_True in Hset by done. unfold settingOf in Hset, Hs.
      change (unmuteForUser u c) with (assignSetting (set_isMuted false) u c).
      by rewrite Hset, Hs.
Qed.

Lemma matched_entries_make_the_counters_work_witness :
  let c := Scenario.with_entries 201 false [1; 2] in
  getUnreadCount 2 (incrementUnreadCount 2 c) = 1
  ∧ getUnreadCount 2 (markAsRead 2 70 (incrementUnreadCount 2 c)) = 0.
Proof.
  intros c.
  assert (Hc : entries_match c) by (split; by vm_compute).
  destruct (matched_entries_make_the_counters_work 2 70 300 c Hc) as [[_ [Hinc _]] Hwork].
  destruct Hwork as (Hone & _); [apply (bool_decide_unpack _); by vm_compute|].
  destruct (matched_entries_make_the_counters_work 2 70 300 (incrementUnreadCount 2 c) Hinc)
    as [_ Hwork'].
  destruct Hwork' as (_ & Hzero & _); [apply (bool_decide_unpack _); by vm_compute|].
  split; [by rewrite Hone|exact Hzero].
Defined.

End Matched.

(** ** The reaction and mute routes *)

Section SmallRoutes.
Import Routes Server Scenario.

Lemma find_filter_other (u v : ObjectId) (l : list Message.Reaction) :
  v ≠ u →
  JS.find (λ r, Message.r_user r = v) (filter (λ r, Message.r_user r ≠ u) l)
  = JS.find (λ r, Message.r_user r = v) l.
Proof.
  intros Hne. induction l as [|x l IH]; [done|].
  rewrite filter_cons. destruct (decide (Message.r_user x ≠ u)) as [Hx|Hx].
  - rewrite !find_cons. by destruct (decide _).
  - rewrite find_cons, decide_False; [done|].
    intros Hxv. apply Hx. congruence.
Qed.

Lemma find_filter_self (u : ObjectId) (l : list Message.Reaction) :
  JS.find (λ r, Message.r_user r = u) (filter (λ r, Message.r_user r ≠ u) l) = None.
Proof.
  apply find_None, Forall_forall. by intros r [Hr _]%list_elem_of_filter.
Qed.

Lemma hasReactionFrom_getUserReaction u m :
  Message.hasReactionFrom u m = bool_decide (is_Some (Message.getUserReaction u m)).
Proof.
  unfold Message.hasReactionFrom, Message.getUserReaction.
  destruct (JS.find _ _) as [r|] eqn:Hfind.
  - transitivity true; [|symmetry; apply bool_decide_eq_true_2; by eexists].
    apply some_true. apply find_Some in Hfind as [Hu Hr]. by exists r.
  - transitivity false; [|symmetry; apply bool_decide_eq_false_2; by intros [? ?]].
    apply not_true_iff_false. rewrite some_true. intros (r & Hr & Hu).
    rewrite find_None, Forall_forall in Hfind. by apply (Hfind r).
Qed.

Lemma getUserReaction_pre_save now u m :
  Message.getUserReaction u (Message.pre_save now m) = Message.getUserReaction u m.
Proof. unfold Message.getUserReaction. by rewrite pre_save_reactions. Qed.

(** X20. Reacting is open to every authenticated user: POST
    /:messageId/reactions looks at the message only, which has to exist and
    not be deleted, and not at who takes part in its conversation.  After
    it the stored message shows the requester's reaction with the emoji that
    was sent, whatever reaction the requester had before, and the reactions
    of all other users as they were; DELETE /:messageId/reactions then takes
    exactly the requester's reaction away. *)
Theorem anyone_may_react_once (now now' : Date) (me mid : ObjectId) (e : string)
    (db : DB) (m : Message.t) :
  Store.findById Message._id mid (messages db) = Some m →
  Message.isDeleted m = false →
  e ≠ "" →
  ∃ m' m'',
    add_reaction now me mid (Some e) db
    = (Reply 200 "Reaction added successfully", save_message m' db)
    ∧ Store.findById Message._id mid (messages (save_message m' db)) = Some m'
    ∧ Message.getUserReaction me m' = Some e
    ∧ Message.hasReactionFrom me m' = true
    ∧ (∀ v, v ≠ me → Message.getUserReaction v m' = Message.getUserReaction v m)
    ∧ remove_reaction now' me mid (save_message m' db)
      = (Reply 200 "Reaction removed successfully", save_message m'' (save_message m' db))
    ∧ Store.findById Message._id mid (messages (save_message m'' (save_message m' db)))
      = Some m''
    ∧ Message.getUserReaction me m'' = None
    ∧ Message.hasReactionFrom me m'' = false
    ∧ (∀ v, v ≠ me → Message.getUserReaction v m'' = Message.getUserReaction v m).
Proof.
  intros Hm Hdel He.
  pose proof (findById_key _ _ _ _ Hm) as Hid.
  set (m' := Message.pre_save now (Message.addReaction me e now m)).
  set (m'' := Message.pre_save now' (Message.removeReaction me m')).
  assert (Hid' : Message._id m' = mid) by (unfold m'; by rewrite pre_save_id).
  assert (Hid'' : Message._id m'' = mid) by (unfold m''; by rewrite pre_save_id).
  assert (Hdel' : Message.isDeleted m' = false).
  { unfold m', Message.pre_save. simpl. destruct (Message.scheduledFor m); [|done].
    by destruct (Message.isScheduled m && _). }
  assert (Hm' : Store.findById Message._id mid (messages (save_message m' db)) = Some m')
    by (by apply stored_after_save).
  assert (Hme : Message.getUserReaction me m' = Some e).
  { unfold m'. rewrite getUserReaction_pre_save. apply getUserReaction_addReaction. }
  assert (Hother : ∀ v, v ≠ me →
            Message.getUserReaction v m' = Message.getUserReaction v m).
  { intros v Hv. unfold m'. rewrite getUserReaction_pre_save.
    unfold Message.getUserReaction, Message.addReaction. simpl.
    rewrite find_snoc_miss by (simpl; congruence). by rewrite find_filter_other. }
  assert (Hme' : Message.getUserReaction me m'' = None).
  { unfold m''. rewrite getUserReaction_pre_save.
    unfold Message.getUserReaction, Message.removeReaction. simpl.
    by rewrite find_filter_self. }
  exists m', m''. split_and!.
  - unfold add_reaction. cbn [JS.falsy]. rewrite bool_decide_eq_false_2 by done.
    by rewrite Hm, Hdel.
  - done.
  - done.
  - rewrite hasReactionFrom_getUserReaction, Hme. by apply bool_decide_eq_true_2.
  - done.
  - unfold remove_reaction. by rewrite Hm', Hdel'.
  - by apply stored_after_save.
  - done.
  - rewrite hasReactionFrom_getUserReaction, Hme'. apply bool_decide_eq_false_2.
    by intros [? ?].
  - intros v Hv. rewrite <- (Hother v Hv). unfold m''.
    rewrite getUserReaction_pre_save.
    unfold Message.getUserReaction, Message.removeReaction. simpl.
    by rewrite find_filter_other.
Qed.

Lemma anyone_may_react_once_witness :
  ∃ m', (add_reaction 2050 3 101 (Some "+") db_sent).2 = save_message m' db_sent
        ∧ Message.getUserReaction 3 m' = Some "+"
        ∧ (isParticipant 3 <$> Store.findById Conversation._id 100 (conversations db_sent))
          = Some false.
Proof.
  destruct (anyone_may_react_once 2050 2060 3 101 "+" db_sent
              (sent_message 2000 1 100 2 (plain "hi") db_direct))
    as (m' & m'' & Hadd & _ & Hme & _); [by vm_compute|by vm_compute|done|].
  exists m'. split_and!; [by rewrite Hadd|exact Hme|by vm_compute].
Defined.

Lemma save_conversation_stored cid c db :
  Store.findById Conversation._id cid (conversations db) = Some c →
  save_conversation c db = db.
Proof.
  intros Hc. unfold save_conversation. rewrite save_stored; [by destruct db|].
  by rewrite (findById_key _ _ _ _ Hc).
Qed.

Lemma no_entries_markAsRead u now c :
  no_entries c → Conversation.markAsRead u now c = c.
Proof. intros [Hu _]. unfold Conversation.markAsRead. by rewrite Hu. Qed.

Lemma no_entries_incrementUnreadCount u c :
  no_entries c → Conversation.incrementUnreadCount u c = c.
Proof. intros [Hu _]. unfold Conversation.incrementUnreadCount. by rewrite Hu. Qed.

Lemma no_entries_assignSetting f u c :
  no_entries c → Conversation.assignSetting f u c = c.
Proof. intros [_ Hs]. unfold Conversation.assignSetting. by rewrite Hs. Qed.

Lemma no_entries_sent now rid c db :
  no_entries c → no_entries (sent_conversation now rid c db).
Proof.
  intros Hc. unfold sent_conversation. destruct (Conversation.isGroup c); [done|].
  by rewrite no_entries_incrementUnreadCount.
Qed.

Lemma serve_no_entries db r :
  Forall no_entries (conversations db) →
  Forall no_entries (conversations (serve db r)).
Proof.
  intros Hdb.
  assert (Hin : ∀ cid c, Store.findById Conversation._id cid (conversations db) = Some c →
                         no_entries c).
  { intros cid c Hc. rewrite Forall_forall in Hdb. by eapply Hdb, findById_elem_of. }
  destruct r as [now [u b|me cid|me cid limit page|me cid b|me mid txt|me mid
                      |me mid emo|me mid|me cid|me cid]]; unfold serve; cbn [fst snd].
  - unfold post_conversations, create_conversation.
    repeat case_match; try done; cbn [snd conversations save_conversation fresh];
      by apply Forall_save.
  - unfold get_conversation.
    destruct (Store.findById _ _ _) as [c|] eqn:Hc; [|done].
    destruct (negb _); [done|]. cbn [snd conversations save_conversation].
    apply Forall_save; [done|]. rewrite no_entries_markAsRead; eauto.
  - unfold get_messages.
    destruct (Store.findById _ _ _) as [c|] eqn:Hc; [|done].
    destruct (negb _); [done|]. destruct (bool_decide _); [done|]. cbn [snd].
    rewrite foldl_save_delivered_conversations. cbn [conversations save_conversation].
    apply Forall_save; [done|]. rewrite no_entries_markAsRead; eauto.
  - destruct (send_message_cases now me cid b db)
      as [Hs | (c & rid & Hc & Hp & Hm & Hr & Hl)]; [by rewrite Hs|].
    rewrite (send_message_ok now me cid b db c rid) by done.
    cbn [snd conversations save_conversation save_message fresh].
    apply Forall_save; [done|]. apply no_entries_sent. eauto.
  - unfold edit_message. by repeat case_match.
  - unfold delete_message. by repeat case_match.
  - unfold add_reaction. by repeat case_match.
  - unfold remove_reaction. by repeat case_match.
  - unfold mute_conversation.
    destruct (Store.findById _ _ _) as [c|] eqn:Hc; [|done].
    destruct (negb _); [done|]. cbn [snd conversations save_conversation].
    apply Forall_save; [done|].
    change (Conversation.muteForUser me c)
      with (Conversation.assignSetting (Conversation.set_isMuted true) me c).
    rewrite no_entries_assignSetting; eauto.
  - unfold unmute_conversation.
    destruct (Store.findById _ _ _) as [c|] eqn:Hc; [|done].
    destruct (negb _); [done|]. cbn [snd conversations save_conversation].
    apply Forall_save; [done|].
    change (Conversation.unmuteForUser me c)
      with (Conversation.assignSetting (Conversation.set_isMuted false) me c).
    rewrite no_entries_assignSetting; eauto.
Qed.

Lemma run_no_entries us first rs : Forall no_entries (conversations (run us first rs)).
Proof.
  unfold run.
  assert (H0 : Forall no_entries (conversations (init us first))) by constructor.
  revert H0. generalize (init us first).
  induction rs as [|r rs IH]; intros db Hdb; [done|].
  simpl. by apply IH, serve_no_entries.
Qed.

(** X21. No route creates an unread counter or a settings entry: the
    creation route stores conversations without entries, [addParticipant]
    is called by no route, and the other methods only change entries that
    exist.  So in every state that the server reaches from empty
    collections every stored conversation has empty [unreadCounts] and
    [participantSettings]; every user's unread count is 0 and nobody has a
    conversation muted; the mute and unmute routes, whatever they answer,
    leave the database as it is; and no send is refused as sent into a
    muted conversation. *)
Theorem routes_never_create_entries (us : list User.t) (first : ObjectId)
    (rs : list (Date * Request)) :
  Forall no_entries (conversations (run us first rs))
  ∧ (∀ c u, c ∈ conversations (run us first rs) →
       Conversation.getUnreadCount u c = 0 ∧ Conversation.mutedFor u c = false)
  ∧ (∀ me cid,
       (mute_conversation me cid (run us first rs)).2 = run us first rs
       ∧ (unmute_conversation me cid (run us first rs)).2 = run us first rs)
  ∧ (∀ now me cid b,
       (send_message now me cid b (run us first rs)).1
       ≠ Error 400 "Cannot send messages in muted conversation").
Proof.
  pose proof (run_no_entries us first rs) as Hall.
  generalize dependent (run us first rs). intros db Hall.
  assert (Hin : ∀ cid c, Store.findById Conversation._id cid (conversations db) = Some c →
                         no_entries c).
  { intros cid c Hc. rewrite Forall_forall in Hall. by eapply Hall, findById_elem_of. }
  split_and!; [done|..].
  - intros c u Hc. rewrite Forall_forall in Hall. destruct (Hall c Hc) as [Hu Hs].
    unfold Conversation.getUnreadCount, Conversation.mutedFor. by rewrite Hu, Hs.
  - intros me cid. split.
    + unfold mute_conversation.
      destruct (Store.findById _ _ _) as [c|] eqn:Hc; [|done].
      destruct (negb _); [done|]. cbn [snd].
      change (Conversation.muteForUser me c)
        with (Conversation.assignSetting (Conversation.set_isMuted true) me c).
      rewrite no_entries_assignSetting by eauto. by apply (save_conversation_stored cid).
    + unfold unmute_conversation.
      destruct (Store.findById _ _ _) as [c|] eqn:Hc; [|done].
      destruct (negb _); [done|]. cbn [snd].
      change (Conversation.unmuteForUser me c)
        with (Conversation.assignSetting (Conversation.set_isMuted false) me c).
      rewrite no_entries_assignSetting by eauto. by apply (save_conversation_stored cid).
  - intros now me cid b. unfold send_message.
    destruct (Store.findById _ _ _) as [c|] eqn:Hc; [|done].
    destruct (negb _); [done|].
    assert (Hm : Conversation.mutedFor me c = false).
    { destruct (Hin cid c Hc) as [_ Hs]. unfold Conversation.mutedFor. by rewrite Hs. }
    rewrite Hm. by repeat case_match.
Qed.

Lemma routes_never_create_entries_witness :
  let rs :=
    [(1000%Z, PostConversations alice (direct_to 2));
     (2000%Z, SendMessage 1 100 (plain "hi")); (3000%Z, Mute 2 100)] in
  ∃ c, conversations (run [alice; bob; carol] 100 rs) = [c]
       ∧ Conversation.lastMessage c = Some 101
       ∧ Conversation.getUnreadCount 2 c = 0
       ∧ Conversation.mutedFor 2 c = false.
Proof.
  intros rs.
  destruct (routes_never_create_entries [alice; bob; carol] 100 rs) as (_ & Hzero & _).
  eexists. split; [by vm_compute|]. split; [by vm_compute|].
  apply Hzero. vm_compute. apply list_elem_of_here.
Defined.

End SmallRoutes.

(** ** What a send stores, and the pages of the message list *)

Section SendAndList.
Import Routes Server Scenario.

(** X22. A send by a participant who has not muted the conversation is
    stored at once, whatever its text and whatever its [scheduledFor]
    instant are (the text, trimmed, may have 1000 characters): the message
    is in the collection under a new id, with the requester as sender, the
    trimmed text and the [replyTo] of the body, it matches the query of the
    message list, and it is the conversation's last message from the instant
    of the send.  The schedule only sets two fields: the message is marked
    scheduled exactly when the instant lies after the send, and keeps the
    instant then; otherwise both fields are cleared.  The request is
    answered 500 "Server error", not 201: the stored message is populated
    with its sender, who cannot be serialised. *)
Theorem scheduled_messages_are_sent_at_once (now : Date) (me cid rid : ObjectId)
    (b : MessageBody) (db : DB) (c : Conversation.t) :
  Store.findById Conversation._id cid (conversations db) = Some c →
  isParticipant me c = true →
  Conversation.mutedFor me c = false →
  recipient_for me c = Some rid →
  String.length (JS.trim (JS.or_empty (text b))) ≤ 1000 →
  ∃ m db',
    send_message now me cid b db = (Error 500 "Server error", db')
    ∧ Store.findById Message._id (nextId db) (messages db') = Some m
    ∧ Message._id m = nextId db ∧ Message.createdAt m = now
    ∧ Message.sender m = me ∧ Message.recipient m = rid
    ∧ Message.body (Message.content m) = JS.trim (JS.or_empty (text b))
    ∧ Message.replyTo m = replyTo b
    ∧ (Message.isScheduled m = true ↔ ∃ at_, scheduledFor b = Some at_ ∧ (now < at_)%Z)
    ∧ (Message.scheduledFor m
       = if Message.isScheduled m then scheduledFor b else None)
    ∧ m ∈ filter (listed cid) (messages db')
    ∧ ∃ c', Store.findById Conversation._id cid (conversations db') = Some c'
            ∧ Conversation.lastMessage c' = Some (Message._id m)
            ∧ Conversation.lastMessageAt c' = now.
Proof.
  intros Hc Hp Hmute Hr Hl.
  destruct (send_message_effect now me cid b db c rid Hc Hp Hmute Hr Hl)
    as (_ & Hc' & Hm' & _).
  rewrite (send_message_ok now me cid b db c rid) in * by done. cbn [snd] in *.
  assert (Hfields :
    let m := sent_message now me cid rid b db in
    Message.createdAt m = now
    ∧ Message.replyTo m = replyTo b
    ∧ Message.isDeleted m = false
    ∧ (Message.isScheduled m = true ↔ ∃ at_, scheduledFor b = Some at_ ∧ (now < at_)%Z)
    ∧ Message.scheduledFor m = if Message.isScheduled m then scheduledFor b else None).
  { unfold sent_message, Message.pre_save, Message.new. simpl.
    destruct (scheduledFor b) as [at_|]; simpl.
    - destruct (bool_decide_reflect (at_ ≤ now)%Z) as [Hle|Hgt]; simpl.
      + split_and!; try done. split; [done|]. intros (x & [= <-] & Hx). lia.
      + split_and!; try done. split; [|done]. intros _. exists at_. split; [done|lia].
    - split_and!; try done. split; [done|]. by intros (x & ? & _). }
  destruct Hfields as (Hat & Hre & Hdel & Hsch & Hfor).
  destruct (sent_message_fields now me cid rid b db)
    as (Hid & Hsender & Hrec & Hcid & _ & Hbody & _).
  eexists _, _. split; [reflexivity|]. split; [exact Hm'|].
  split_and!; try done.
  - apply list_elem_of_filter. split.
    + split; [done|]. by rewrite Hdel.
    + by eapply findById_elem_of.
  - eexists. split; [exact Hc'|]. rewrite Hid. unfold sent_conversation.
    destruct (Conversation.isGroup c); [done|].
    destruct (incrementUnreadCount_frame rid
                (Conversation.updateLastMessage (nextId db) now c))
      as (_ & _ & _ & _ & -> & -> & _).
    done.
Qed.

Lemma scheduled_messages_are_sent_at_once_witness :
  let later := mkBody (Some "see you") None (Some 9000%Z) None in
  ∃ m db',
    send_message 2000 1 100 later db_direct = (Error 500 "Server error", db')
    ∧ Store.findById Message._id 101 (messages db') = Some m
    ∧ Message.isScheduled m = true
    ∧ m ∈ filter (listed 100) (messages db').
Proof.
  intros later.
  destruct (scheduled_messages_are_sent_at_once 2000 1 100 2 later db_direct
              (Conversation.new 100 1000 [1; 2] false Conversation.default_groupInfo))
    as (m & db' & Hs & Hm & _ & _ & _ & _ & _ & _ & Hsch & _ & Hin & _);
    [by vm_compute|by vm_compute|by vm_compute|by vm_compute|vm_compute; lia|].
  exists m, db'. split_and!; [exact Hs|exact Hm| |exact Hin].
  apply Hsch. exists 9000%Z. split; [done|lia].
Defined.

(** X23. The pages of the message list.  For a participant and a page
    number other than 0, with [n] messages of the conversation that are not
    deleted: the query fetches, newest first, stored messages of the
    conversation that are not deleted, [limit] of them or what is left of
    the [n] after the pages before (all [n] with a limit of 0).  When the
    page holds a message, and senders and recipients are stored users (as
    they are for messages sent through the routes), the route answers 500
    "Server error": the populated users cannot be serialised.  When the
    page is empty, as it is past the last message, the route answers 200
    with no message, the page number, the number of pages ([n] divided by
    the limit and rounded up, no number with a limit of 0) and [hasMore]
    false. *)
Theorem message_pages_fit_together (now : Date) (me cid : ObjectId)
    (c : Conversation.t) (limit page : option nat) (db : DB) :
  Store.findById Conversation._id cid (conversations db) = Some c →
  isParticipant me c = true →
  page ≠ Some 0 →
  let n := length (filter (listed cid) (messages db)) in
  let l := default 50 limit in
  let p := default 1 page in
  let fetched := fetch_messages cid l ((p - 1) * l) db in
  StronglySorted newer_first fetched
  ∧ (∀ m, m ∈ fetched →
       m ∈ messages db ∧ Message.conversation m = cid ∧ Message.isDeleted m = false)
  ∧ length fetched = (if decide (l = 0) then n else l `min` (n - (p - 1) * l))
  ∧ (fetched ≠ [] →
     Forall (λ m, stored_user (users db) (Message.sender m) = true
                  ∧ stored_user (users db) (Message.recipient m) = true) fetched →
     (get_messages now me cid limit page db).1 = Error 500 "Server error")
  ∧ (fetched = [] →
     (get_messages now me cid limit page db).1
     = Reply 200
         (mkPage []
            (mkPagination p (if decide (l = 0) then None else Some ((n + l - 1) / l))
               false))).
Proof.
  intros Hc Hp Hpage. cbv zeta.
  rewrite (get_messages_accepted now me cid c limit page db) by done. cbn [fst].
  destruct (fetched_page cid ((default 1 page - 1) * default 50 limit)
              (default 50 limit) db) as [Hsorted Hin].
  assert (Hlen : length (fetch_messages cid (default 50 limit)
                           ((default 1 page - 1) * default 50 limit) db)
                 = if decide (default 50 limit = 0)
                   then length (filter (listed cid) (messages db))
                   else default 50 limit
                        `min` (length (filter (listed cid) (messages db))
                               - (default 1 page - 1) * default 50 limit)).
  { unfold fetch_messages. rewrite length_fetched.
    rewrite (Permutation_length (merge_sort_Permutation _ _)).
    destruct (decide (default 50 limit = 0)) as [->|]; [|done]. lia. }
  split_and!; [done| |done|..].
  - intros m Hm. destruct (Hin m Hm) as (Hdb & Hconv & Hdel).
    split_and!; [done|done|]. by destruct (Message.isDeleted m).
  - intros Hne Hstored. unfold json_populated.
    destruct (fetch_messages _ _ _ _) as [|m found]; [done|].
    apply Forall_cons in Hstored as [[Hs _] _]. simpl. by rewrite Hs.
  - intros Hnil. rewrite Hnil in *. unfold json_populated. simpl. repeat f_equal.
    apply bool_decide_eq_false_2. simpl in Hlen.
    destruct (decide (default 50 limit = 0)); lia.
Qed.

Lemma message_pages_fit_together_witness :
  (get_messages 3000 2 100 None None db_sent).1 = Error 500 "Server error"
  ∧ (get_messages 3000 2 100 (Some 1) (Some 2) db_sent).1
    = Reply 200 (mkPage [] (mkPagination 2 (Some 1) false)).
Proof.
  destruct (message_pages_fit_together 3000 2 100
              (Conversation.updateLastMessage 101 2000
                 (Conversation.new 100 1000 [1; 2] false Conversation.default_groupInfo))
              None None db_sent) as (_ & _ & _ & H500 & _);
    [by vm_compute|by vm_compute|discriminate|].
  destruct (message_pages_fit_together 3000 2 100
              (Conversation.updateLastMessage 101 2000
                 (Conversation.new 100 1000 [1; 2] false Conversation.default_groupInfo))
              (Some 1) (Some 2) db_sent) as (_ & _ & _ & _ & H200);
    [by vm_compute|by vm_compute|discriminate|].
  split.
  - apply H500; [by vm_compute|].
    vm_compute. constructor; [by split|constructor].
  - etrans; [apply H200; by vm_compute|by vm_compute].
Defined.

End SendAndList.

(** ** Delivery marks *)

Section Delivery.
Import Routes Server Scenario.

Lemma save_delivered_cases me now db x :
  (Message.recipient x = me ∧ Message.isDelivered x = false
   ∧ deliver me now x = Message.set_delivered now x
   ∧ save_delivered me now db x
     = save_message (Message.call x (now, Message.MarkAsDelivered)) db)
  ∨ ((Message.recipient x ≠ me ∨ Message.isDelivered x = true)
     ∧ deliver me now x = x
     ∧ save_delivered me now db x = db).
Proof.
  unfold save_delivered, deliver, Message.markAsDelivered.
  destruct (bool_decide_reflect (Message.recipient x = me)) as [Hr|Hr];
    destruct (Message.isDelivered x) eqn:Hd; cbn [andb negb]; auto.
  left. split_and!; try done.
  unfold Message.call, Message.markAsDelivered. cbn [fst snd]. by rewrite Hd.
Qed.

Lemma foldl_save_delivered_untouched me now found db mid :
  (∀ x, x ∈ found → Message.recipient x = me → Message.isDelivered x = false →
        Message._id x ≠ mid) →
  Store.findById Message._id mid (messages (foldl (save_delivered me now) db found))
  = Store.findById Message._id mid (messages db).
Proof.
  revert db. induction found as [|y found IH]; intros db Hf; [done|].
  simpl. rewrite IH by (intros x Hx; apply Hf; by right).
  destruct (save_delivered_cases me now db y) as [(Hr & Hd & _ & ->)|(_ & _ & ->)]; [|done].
  cbn [messages save_message]. apply findById_save_ne. rewrite call_id.
  apply Hf; [by left|done..].
Qed.

Lemma foldl_save_delivered_touched me now found db x :
  NoDup (Message._id <$> found) → x ∈ found →
  Message.recipient x = me → Message.isDelivered x = false →
  Store.findById Message._id (Message._id x)
    (messages (foldl (save_delivered me now) db found))
  = Some (Message.call x (now, Message.MarkAsDelivered)).
Proof.
  revert db. induction found as [|y found IH]; intros db Hnd Hx Hr Hd.
  - by apply elem_of_nil in Hx.
  - rewrite fmap_cons in Hnd. apply NoDup_cons in Hnd as [Hy Hnd].
    apply elem_of_cons in Hx as [->|Hx]; simpl.
    + rewrite foldl_save_delivered_untouched.
      * destruct (save_delivered_cases me now db y) as [(_ & _ & _ & ->)|([?|?] & _)];
          [|done|congruence].
        cbn [messages save_message]. apply stored_after_save. by rewrite call_id.
      * intros z Hz _ _ Heq. apply Hy. rewrite <- Heq. by apply elem_of_keys.
    + by apply IH.
Qed.

Lemma fetched_ids_unique cid skip limit db :
  NoDup (Message._id <$> messages db) →
  NoDup (Message._id <$> fetch_messages cid limit skip db).
Proof.
  unfold fetch_messages. generalize (messages db). intros msgs Hnd.
  assert (Hs : NoDup (Message._id <$> merge_sort newer_first (filter (listed cid) msgs))).
  { rewrite merge_sort_Permutation. clear -Hnd.
    induction msgs as [|m msgs IH]; [done|].
    rewrite fmap_cons in Hnd. apply NoDup_cons in Hnd as [Hm Hnd].
    rewrite filter_cons. destruct (decide (listed cid m)); [|by apply IH].
    rewrite fmap_cons. apply NoDup_cons. split; [|by apply IH].
    intros (x & Hid & [_ Hx]%list_elem_of_filter)%list_elem_of_fmap.
    apply Hm. rewrite Hid. by apply elem_of_keys. }
  unfold limit_to. destruct (decide (limit = 0)).
  - rewrite fmap_drop. eapply sublist_NoDup; [exact Hs|apply sublist_drop].
  - rewrite fmap_take, fmap_drop.
    eapply sublist_NoDup; [exact Hs|].
    etrans; [apply sublist_take|apply sublist_drop].
Qed.

(** X24. Listing the messages of a conversation marks as delivered what
    was addressed to the requester: after the request of a participant
    every fetched message whose recipient is the requester is stored
    delivered, with the stamp of its first delivery (the instant of the
    request if it was not delivered before).  The messages addressed to
    others, the messages that were delivered before and the messages that
    the page does not hold are stored as they were.  This is so whatever
    the route answers. *)
Theorem listing_marks_messages_delivered (now : Date) (me cid : ObjectId)
    (c : Conversation.t) (limit page : option nat) (db : DB) :
  unique_ids db →
  Store.findById Conversation._id cid (conversations db) = Some c →
  isParticipant me c = true →
  page ≠ Some 0 →
  let fetched :=
    fetch_messages cid (default 50 limit) ((default 1 page - 1) * default 50 limit) db in
  let db' := (get_messages now me cid limit page db).2 in
  (∀ m, m ∈ fetched → Message.recipient m = me →
     ∃ m', Store.findById Message._id (Message._id m) (messages db') = Some m'
           ∧ Message.isDelivered m' = true
           ∧ Message.deliveredAt m'
             = (if Message.isDelivered m then Message.deliveredAt m else Some now))
  ∧ (∀ m0, m0 ∈ messages db →
       Message.recipient m0 ≠ me ∨ Message.isDelivered m0 = true ∨ m0 ∉ fetched →
       Store.findById Message._id (Message._id m0) (messages db') = Some m0).
Proof.
  intros [_ Hnd] Hc Hp Hpage. cbv zeta.
  rewrite (get_messages_accepted now me cid c limit page db) by done. cbn [snd].
  set (found := fetch_messages _ _ _ _).
  set (db1 := save_conversation _ db).
  assert (Hfound : ∀ x, x ∈ found → x ∈ messages db).
  { intros x Hx. by apply fetched_page in Hx as [Hx _]. }
  assert (Hids : NoDup (Message._id <$> found)) by (by apply fetched_ids_unique).
  assert (Hold : ∀ m0, m0 ∈ messages db →
            Message.recipient m0 ≠ me ∨ Message.isDelivered m0 = true ∨ m0 ∉ found →
            Store.findById Message._id (Message._id m0)
              (messages (foldl (save_delivered me now) db1 found)) = Some m0).
  { intros m0 Hm0 Hnot. rewrite foldl_save_delivered_untouched.
    - by apply findById_unique.
    - intros x Hx Hr Hd Heq.
      pose proof (findById_unique Message._id x _ Hnd (Hfound x Hx)) as Hfx.
      pose proof (findById_unique Message._id m0 _ Hnd Hm0) as Hfm.
      rewrite Heq in Hfx. assert (x = m0) as -> by congruence.
      destruct Hnot as [?|[?|?]]; [congruence|congruence|done]. }
  split; [|exact Hold].
  intros x Hx Hrec.
  destruct (save_delivered_cases me now db1 x)
    as [(Hr & Hd & _ & _)|(Hnot & _ & _)].
  - rewrite (foldl_save_delivered_touched me now found db1 x) by done.
    eexists. split; [done|]. rewrite Hd.
    unfold Message.call, Message.markAsDelivered, Message.pre_save. cbn [fst snd].
    rewrite Hd. simpl. destruct (Message.scheduledFor x); [|done].
    by destruct (Message.isScheduled x && _).
  - destruct Hnot as [?|Hd]; [done|].
    exists x. rewrite Hd. split_and!; [|done..]. apply Hold; [by apply Hfound|auto].
Qed.

Lemma listing_marks_messages_delivered_witness :
  ∃ m',
    Store.findById Message._id 101 (messages (get_messages 3000 2 100 None None db_sent).2)
    = Some m'
    ∧ Message.isDelivered m' = true
    ∧ Message.deliveredAt m' = Some 3000%Z.
Proof.
  destruct (listing_marks_messages_delivered 3000 2 100
              (Conversation.updateLastMessage 101 2000
                 (Conversation.new 100 1000 [1; 2] false Conversation.default_groupInfo))
              None None db_sent)
    as [Hpage _];
    [split; apply (bool_decide_unpack _); by vm_compute|by vm_compute|by vm_compute
    |discriminate|].
  destruct (Hpage (sent_message 2000 1 100 2 (plain "hi") db_direct))
    as (m' & Hm' & Hd & Hat); [vm_compute; apply list_elem_of_here|by vm_compute|].
  exists m'. split_and!; [exact Hm'|exact Hd|exact Hat].
Defined.

End Delivery.

(** ** PUT /:messageId, when it succeeds *)

Section EditSucceeds.
Import Routes Server Scenario.

(** X25. The sender's edit of an existing message with a non-blank text,
    within fifteen minutes of its creation, is saved.  For a text message
    (whose new text passes the schema's limit of 1000 characters) the stored
    text becomes the new text, trimmed by the route and again by the schema,
    the replaced text is appended to the edit history with the instant of
    the edit, and the message is marked edited.  For a picture or another
    media message the document is saved all the same, but content, edit
    history and the edited mark stay as they were.  In both cases the
    request is answered 500 "Server error", not 200: the saved message is
    populated with its sender, who cannot be serialised. *)
Theorem edit_within_the_window (now : Date) (me mid : ObjectId) (t : string)
    (db : DB) (m : Message.t) :
  Store.findById Message._id mid (messages db) = Some m →
  Message.isDeleted m = false →
  Message.sender m = me →
  (now - Message.createdAt m ≤ editTimeLimit)%Z →
  String.length (JS.trim t) ≠ 0 →
  (Message.type (Message.content m) = Message.text →
   String.length (JS.trim (JS.trim t)) ≤ 1000) →
  ∃ m',
    edit_message now me mid (Some t) db = (Error 500 "Server error", save_message m' db)
    ∧ Store.findById Message._id mid (messages (save_message m' db)) = Some m'
    ∧ (Message.type (Message.content m) = Message.text →
       Message.body (Message.content m') = JS.trim (JS.trim t)
       ∧ Message.editHistory m'
         = Message.editHistory m ++ [Message.mkEdit (Message.body (Message.content m)) now]
       ∧ Message.isEdited m' = true ∧ Message.editedAt m' = Some now)
    ∧ (Message.type (Message.content m) ≠ Message.text →
       Message.content m' = Message.content m
       ∧ Message.editHistory m' = Message.editHistory m
       ∧ Message.isEdited m' = Message.isEdited m
       ∧ Message.editedAt m' = Message.editedAt m).
Proof.
  intros Hm Hdel Hs Hwin Ht Hlen.
  pose proof (findById_key _ _ _ _ Hm) as Hid.
  assert (Hblank : (JS.falsy (Some t)
                    || bool_decide (String.length (JS.trim (JS.or_empty (Some t))) = 0))
                   = false).
  { cbn [JS.falsy JS.or_empty default]. apply orb_false_iff. split.
    - apply bool_decide_eq_false_2. intros ->. by apply Ht.
    - by apply bool_decide_eq_false_2. }
  set (m' := Message.pre_save now (Message.edit (JS.trim t) now m)).
  assert (Hedit : edit_message now me mid (Some t) db
                  = (Error 500 "Server error", save_message m' db)).
  { unfold edit_message. rewrite Hblank, Hm, Hdel.
    rewrite (bool_decide_eq_true_2 (Message.sender m = me)) by done. cbn [negb].
    rewrite bool_decide_eq_false_2 by lia. cbn [JS.or_empty default].
    destruct (bool_decide_reflect (Message.type (Message.content m) = Message.text))
      as [Htext|Hmedia]; cbn [andb]; [|done].
    unfold Message.validate, Message.edit. rewrite decide_True by done. simpl.
    rewrite bool_decide_eq_true_2 by auto. cbn [negb].
    unfold m', Message.edit. by rewrite decide_True. }
  exists m'. split_and!; [done|..].
  - apply stored_after_save. unfold m'. rewrite pre_save_id.
    unfold Message.edit. by destruct (decide _).
  - intros Htext. destruct (call_edit now (JS.trim t) m Htext) as (_ & Hb & Hh & He & Ha).
    by split_and!.
  - intros Hmedia. unfold m', Message.edit. rewrite decide_False by done.
    unfold Message.pre_save. destruct (Message.scheduledFor m); [|done].
    by destruct (Message.isScheduled m && _).
Qed.

Lemma edit_within_the_window_witness :
  ∃ m',
    edit_message 2060 1 101 (Some " ho ") db_sent
    = (Error 500 "Server error", save_message m' db_sent)
    ∧ Message.body (Message.content m') = "ho"
    ∧ (Message.e_text <$> Message.editHistory m') = ["hi"].
Proof.
  destruct (edit_within_the_window 2060 1 101 " ho " db_sent
              (sent_message 2000 1 100 2 (plain "hi") db_direct))
    as (m' & Hedit & _ & Htext & _);
    [by vm_compute|by vm_compute|by vm_compute|by vm_compute|by vm_compute
    |intros _; vm_compute; lia|].
  destruct Htext as (Hb & Hh & _); [by vm_compute|].
  exists m'. split_and!; [exact Hedit|by rewrite Hb|by rewrite Hh].
Defined.

End EditSucceeds.
